(** * AdaBoost from scratch: a shallow embedding of [Adaboost_scratch]

    Source: "Supervised Learning/Ensemble Methods/Boosting methods.ipynb",
    the cell that defines [Adaboost_scratch(X, y, M=10, learning_rate=1)].

    The routine works on numpy float64 arrays.  Arrays are lists; a float64
    is a real number or one of the three special values of IEEE 754 (the
    two infinities and NaN).  Finite arithmetic is exact: rounding, overflow
    and the sign of zero are not represented.  The special values follow
    numpy: [1/0 = inf], [0/0 = nan], [log 0 = -inf], [inf * 0 = nan],
    [exp (-inf) = 0], and a comparison with NaN is false.  Where the range
    of float64 decides a property of the specification, in [np.exp] of the
    update of the sample weights, it is given by [np_exp] and
    [boost_sample_weight_in_range].

    Python exceptions are the [Raise] results of an error monad.

    The same notebook defines [plot_decision_boundary]; the computation of
    the grid it draws is embedded at the end of Part I.

    The file has five parts: the embedding (definitions only), the facts
    about it, the properties of the specification, further properties of
    [Adaboost_scratch], and the grid of [plot_decision_boundary]. *)

From Stdlib Require Import Reals Lra Lia List ZArith Bool Arith.
Import ListNotations.

Local Open Scope R_scope.

(** * Part I: the embedding *)

(** ** Decidable comparisons on reals, as booleans *)

Definition Rltb (a b : R) : bool := if Rlt_dec a b then true else false.
Definition Reqb (a b : R) : bool := if Req_dec_T a b then true else false.

(** ** float64 values and the numpy operations the trainer uses *)

Inductive float64 : Type :=
| Fin (r : R)
| PInf
| NInf
| NaN.

Definition finite (x : float64) : Prop := exists r, x = Fin r.

(** A boolean, an integer label or a count used in float arithmetic. *)
Definition of_bool (b : bool) : float64 := Fin (if b then 1 else 0).
Definition of_int (z : Z) : float64 := Fin (IZR z).
Definition of_nat (n : nat) : float64 := Fin (INR n).

(** [inf_times pos r] is (+inf) * r when [pos], (-inf) * r otherwise. *)
Definition inf_times (pos : bool) (r : R) : float64 :=
  if Rltb 0 r then (if pos then PInf else NInf)
  else if Rltb r 0 then (if pos then NInf else PInf)
  else NaN.

Definition fneg (x : float64) : float64 :=
  match x with
  | Fin r => Fin (- r)
  | PInf => NInf
  | NInf => PInf
  | NaN => NaN
  end.

Definition fadd (x y : float64) : float64 :=
  match x, y with
  | NaN, _ | _, NaN => NaN
  | Fin a, Fin b => Fin (a + b)
  | PInf, NInf | NInf, PInf => NaN
  | PInf, _ | _, PInf => PInf
  | NInf, _ | _, NInf => NInf
  end.

Definition fsub (x y : float64) : float64 := fadd x (fneg y).

Definition fmul (x y : float64) : float64 :=
  match x, y with
  | NaN, _ | _, NaN => NaN
  | Fin a, Fin b => Fin (a * b)
  | PInf, Fin b | Fin b, PInf => inf_times true b
  | NInf, Fin b | Fin b, NInf => inf_times false b
  | PInf, PInf | NInf, NInf => PInf
  | PInf, NInf | NInf, PInf => NInf
  end.

(** Division by zero does not raise on numpy floats: it gives an infinity of
    the sign of the numerator, and [0/0] gives NaN. *)
Definition fdiv (x y : float64) : float64 :=
  match x, y with
  | NaN, _ | _, NaN => NaN
  | Fin a, Fin b => if Reqb b 0 then inf_times true a else Fin (a / b)
  | Fin _, PInf | Fin _, NInf => Fin 0
  | PInf, Fin b => if Rltb b 0 then NInf else PInf
  | NInf, Fin b => if Rltb b 0 then PInf else NInf
  | _, _ => NaN
  end.

(** [np.log] *)
Definition flog (x : float64) : float64 :=
  match x with
  | Fin r => if Rltb 0 r then Fin (ln r) else if Reqb r 0 then NInf else NaN
  | PInf => PInf
  | NInf => NaN
  | NaN => NaN
  end.

(** [np.exp] *)
Definition fexp (x : float64) : float64 :=
  match x with
  | Fin r => Fin (exp r)
  | PInf => PInf
  | NInf => Fin 0
  | NaN => NaN
  end.

(** [np.sign] *)
Definition fsign (x : float64) : float64 :=
  match x with
  | Fin r => if Rltb 0 r then Fin 1 else if Rltb r 0 then Fin (-1) else Fin 0
  | PInf => Fin 1
  | NInf => Fin (-1)
  | NaN => NaN
  end.

(** [x < y] *)
Definition fltb (x y : float64) : bool :=
  match x, y with
  | NaN, _ | _, NaN => false
  | Fin a, Fin b => Rltb a b
  | NInf, NInf => false
  | NInf, _ => true
  | _, NInf => false
  | PInf, _ => false
  | Fin _, PInf => true
  end.

(** [x == y] *)
Definition feqb (x y : float64) : bool :=
  match x, y with
  | Fin a, Fin b => Reqb a b
  | PInf, PInf | NInf, NInf => true
  | _, _ => false
  end.

(** ** Arrays *)

(** An elementwise operation on two arrays of one shape.  Every array of the
    trainer has [len(y)] entries when [X] has [len(y)] rows. *)
Fixpoint zip_with {A B C : Type} (f : A -> B -> C) (a : list A) (b : list B) : list C :=
  match a, b with
  | x :: a', y :: b' => f x y :: zip_with f a' b'
  | _, _ => []
  end.

(** [a.sum()] on a float array; the empty sum is 0.0.  ([fadd] is
    associative and commutative, so the order of summation is immaterial.) *)
Definition np_sum (a : list float64) : float64 := fold_right fadd (Fin 0) a.

(** [np.ones(N)] *)
Definition np_ones (N : nat) : list float64 := repeat (Fin 1) N.

(** ** Exceptions *)

Inductive exn : Type := IndexError | ZeroDivisionError.

Inductive result (A : Type) : Type :=
| Ok (a : A)
| Raise (e : exn).

Arguments Ok {A} a.
Arguments Raise {A} e.

Definition bind {A B : Type} (c : result A) (k : A -> result B) : result B :=
  match c with
  | Ok a => k a
  | Raise e => Raise e
  end.

Notation "x <- c ;; k" := (bind c (fun x => k))
  (at level 61, c at next level, right associativity).

(** A list comprehension whose body can raise. *)
Fixpoint mapM {A B : Type} (f : A -> result B) (l : list A) : result (list B) :=
  match l with
  | [] => Ok []
  | x :: l' => y <- f x ;; ys <- mapM f l' ;; Ok (y :: ys)
  end.

(** [np.average(a, weights=w, axis=0)] on a boolean array [a]: the weights
    are summed first, a zero sum raises [ZeroDivisionError], otherwise the
    result is [(a * w).sum() / w.sum()].  ([np.mean] of that scalar is the
    scalar.) *)
Definition np_average (a : list bool) (w : list float64) : result float64 :=
  let scl := np_sum w in
  if feqb scl (Fin 0) then Raise ZeroDivisionError
  else Ok (fdiv (np_sum (zip_with (fun b x => fmul (of_bool b) x) a w)) scl).

(** [a[:, point]] on [a = np.asarray(rows)].  An empty list of rows becomes a
    one-dimensional empty array, which cannot take two indices; otherwise the
    array is two-dimensional and [point] has to be inside each row. *)
Definition column (a : list (list Z)) (point : nat) : result (list Z) :=
  match a with
  | [] => Raise IndexError
  | _ :: _ =>
      mapM (fun row => match nth_error row point with
                       | Some v => Ok v
                       | None => Raise IndexError
                       end) a
  end.

(** ** The weak learner

    The trainer builds [DecisionTreeClassifier(max_depth=1, max_leaf_nodes=2)]
    in every round.  The classifier comes from scikit-learn and is not part of
    the repository: it is the interface below.  [predict] gives one label per
    row of the matrix it is handed.  [fit] and [predict] are functions that
    return: the library's random tie-breaking between equally good splits is
    taken as fixed, and what it does when it is handed weights that are NaN
    or all zero is not represented. *)

Class WeakLearner (Row : Type) : Type := {
  Estimator : Type;
  fit : list Row -> list Z -> list float64 -> Estimator;
  predict : Estimator -> list Row -> list Z;
  predict_length : forall e X, length (predict e X) = length X
}.

(** ** The trainer *)

Section Trainer.

Context {Row : Type} {L : WeakLearner Row}.

(** The local variables that live across rounds. *)
Record locals : Type := mkLocals {
  sample_weight : list float64;
  estimator_list : list Estimator;
  y_predict_list : list (list Z);
  estimator_error_list : list float64;
  estimator_weight_list : list float64;
  sample_weight_list : list (list float64)
}.

(** [sample_weight = np.ones(N) / N] *)
Definition initial_weight (N : nat) : list float64 :=
  map (fun o => fdiv o (of_nat N)) (np_ones N).

(** The state before the loop: empty lists, and the first snapshot
    [sample_weight_list.append(sample_weight.copy())]. *)
Definition init (N : nat) : locals :=
  mkLocals (initial_weight N) [] [] [] [] [initial_weight N].

(** [incorrect = (y_predict != y)] *)
Definition incorrect_of (y_predict y : list Z) : list bool :=
  zip_with (fun p t => negb (Z.eqb p t)) y_predict y.

(** [learning_rate * np.log((1. - estimator_error) / estimator_error)] *)
Definition boost_estimator_weight (learning_rate estimator_error : float64) : float64 :=
  fmul learning_rate (flog (fdiv (fsub (Fin 1) estimator_error) estimator_error)).

(** One entry of
    [sample_weight *= np.exp(estimator_weight * incorrect *
                             ((sample_weight > 0) | (estimator_weight < 0)))] *)
Definition boost_one (estimator_weight : float64) (w : float64) (inc : bool) : float64 :=
  fmul w (fexp (fmul (fmul estimator_weight (of_bool inc))
                     (of_bool (fltb (Fin 0) w || fltb estimator_weight (Fin 0))))).

Definition boost_sample_weight (estimator_weight : float64)
    (sample_weight : list float64) (incorrect : list bool) : list float64 :=
  zip_with (boost_one estimator_weight) sample_weight incorrect.

(** [np.mean(np.average(incorrect, weights=sample_weight, axis=0))], from the
    predictions and the current weights. *)
Definition round_error (y_predict y : list Z) (sample_weight : list float64) : result float64 :=
  np_average (incorrect_of y_predict y) sample_weight.

(** The body of [for m in range(M)]. *)
Definition boosting_round (X : list Row) (y : list Z) (learning_rate : float64)
    (st : locals) : result locals :=
  let estimator := fit X y (sample_weight st) in
  let y_predict := predict estimator X in
  let incorrect := incorrect_of y_predict y in
  estimator_error <- np_average incorrect (sample_weight st) ;;
  let estimator_weight := boost_estimator_weight learning_rate estimator_error in
  let sample_weight' := boost_sample_weight estimator_weight (sample_weight st) incorrect in
  Ok (mkLocals sample_weight'
        (estimator_list st ++ [estimator])
        (y_predict_list st ++ [y_predict])
        (estimator_error_list st ++ [estimator_error])
        (estimator_weight_list st ++ [estimator_weight])
        (sample_weight_list st ++ [sample_weight'])).

Fixpoint boosting_rounds (X : list Row) (y : list Z) (learning_rate : float64)
    (M : nat) (st : locals) : result locals :=
  match M with
  | O => Ok st
  | S m => st' <- boosting_round X y learning_rate st ;;
           boosting_rounds X y learning_rate m st'
  end.

(** [(y_predict_list[:, point] * estimator_weight_list).sum()] *)
Definition vote_sum (y_predict_list : list (list Z)) (estimator_weight_list : list float64)
    (point : nat) : result float64 :=
  col <- column y_predict_list point ;;
  Ok (np_sum (zip_with (fun p w => fmul (of_int p) w) col estimator_weight_list)).

(** [preds = np.array([np.sign(...) for point in range(N)])] *)
Definition preds_of (y_predict_list : list (list Z)) (estimator_weight_list : list float64)
    (N : nat) : result (list float64) :=
  mapM (fun point => s <- vote_sum y_predict_list estimator_weight_list point ;; Ok (fsign s))
       (seq 0 N).

(** [(preds == y).sum() / N] *)
Definition accuracy (preds : list float64) (y : list Z) (N : nat) : float64 :=
  fdiv (of_nat (length (filter (fun b : bool => b)
                          (zip_with (fun p t => feqb p (of_int t)) preds y))))
       (of_nat N).

(** What a call leaves behind: the value of the [return] statement and the
    accuracy that [print] wrote. *)
Record output : Type := mkOutput {
  returned : list Estimator * list float64 * list (list float64);
  printed : list float64
}.

Definition Adaboost_scratch (X : list Row) (y : list Z) (M : nat)
    (learning_rate : float64) : result output :=
  let N := length y in
  st <- boosting_rounds X y learning_rate M (init N) ;;
  preds <- preds_of (y_predict_list st) (estimator_weight_list st) N ;;
  Ok (mkOutput (estimator_list st, estimator_weight_list st, sample_weight_list st)
               [accuracy preds y N]).

(** Round [m] (counted from 0) as it is recorded in the lists of [st]. *)
Inductive round_at (X : list Row) (y : list Z) (learning_rate : float64)
    (st : locals) (m : nat) : Prop :=
| RoundAt (sw : list float64) (est : Estimator) (e : float64) :
    nth_error (sample_weight_list st) m = Some sw ->
    nth_error (estimator_list st) m = Some est ->
    est = fit X y sw ->
    nth_error (y_predict_list st) m = Some (predict est X) ->
    nth_error (estimator_error_list st) m = Some e ->
    round_error (predict est X) y sw = Ok e ->
    nth_error (estimator_weight_list st) m = Some (boost_estimator_weight learning_rate e) ->
    nth_error (sample_weight_list st) (S m) =
      Some (boost_sample_weight (boost_estimator_weight learning_rate e) sw
              (incorrect_of (predict est X) y)) ->
    round_at X y learning_rate st m.

(** The lists after [M] completed rounds on [N] examples. *)
Record recorded (X : list Row) (y : list Z) (learning_rate : float64)
    (N M : nat) (st : locals) : Prop := {
  rec_estimators : length (estimator_list st) = M;
  rec_predictions : length (y_predict_list st) = M;
  rec_errors : length (estimator_error_list st) = M;
  rec_weights : length (estimator_weight_list st) = M;
  rec_snapshots : length (sample_weight_list st) = S M;
  rec_first : nth_error (sample_weight_list st) 0 = Some (initial_weight N);
  rec_current : nth_error (sample_weight_list st) M = Some (sample_weight st);
  rec_rounds : forall m, (m < M)%nat -> round_at X y learning_rate st m
}.

End Trainer.

(** ** The value of the [return] statement, as a Python object

    [return estimator_list, estimator_weight_list, sample_weight_list] builds
    a tuple of three arrays. *)

#[local] Unset Elimination Schemes.

Inductive value (E : Type) : Type :=
| VFloat (x : float64)
| VObject (e : E)
| VArray (items : list (value E))
| VTuple (items : list (value E)).

#[local] Set Elimination Schemes.

Arguments VFloat {E} x.
Arguments VObject {E} e.
Arguments VArray {E} items.
Arguments VTuple {E} items.

Definition return_value {Row : Type} {L : WeakLearner Row} (out : output) : value Estimator :=
  let '(ests, ews, sws) := returned out in
  VTuple [VArray (map VObject ests);
          VArray (map VFloat ews);
          VArray (map (fun v => VArray (map VFloat v)) sws)].

(** ** The specification's wording of the ensemble, the update and the vote *)

(** The ensemble as the ordered sequence of (learner, confidence weight) pairs. *)
Definition ensemble_of {E : Type} (ests : list E) (ews : list float64) : list (E * float64) :=
  combine ests ews.

(** The update as the specification words it: multiply the weight of a
    misclassified example by [exp(confidence weight)], keep the others. *)
Definition claimed_update (estimator_weight : float64)
    (sample_weight : list float64) (incorrect : list bool) : list float64 :=
  zip_with (fun w (inc : bool) => if inc then fmul w (fexp estimator_weight) else w)
           sample_weight incorrect.

(** The vote as the specification words it: the sign of the sum, over the
    rounds, of confidence weight times the learner's prediction at the point. *)
Definition ensemble_vote {Row : Type} {L : WeakLearner Row} (X : list Row)
    (ensemble : list (Estimator * float64)) (point : nat) : float64 :=
  fsign (np_sum (map (fun p => fmul (snd p) (of_int (nth point (predict (fst p) X) 0%Z)))
                     ensemble)).

(** ** Vocabulary for the statements *)

Definition nonneg (x : float64) : Prop := exists w, x = Fin w /\ 0 <= w.
Definition positive (x : float64) : Prop := exists w, x = Fin w /\ 0 < w.

(** An error strictly between 0 and 1; exactly 0 or 1; above 0 and at most
    1/2. *)
Definition proper_error (e : float64) : Prop := exists r, e = Fin r /\ 0 < r < 1.
Definition degenerate_error (e : float64) : Prop := e = Fin 0 \/ e = Fin 1.
Definition no_worse_than_chance (e : float64) : Prop :=
  exists r, e = Fin r /\ 0 < r <= 1 / 2.

(** A value of [np.sign] on a number. *)
Definition sign_value (p : float64) : Prop := p = Fin 1 \/ p = Fin (-1) \/ p = Fin 0.

Definition Rsum (l : list R) : R := fold_right Rplus 0 l.

(** The total weight of the misclassified examples. *)
Definition Rmiss (inc : list bool) (ws : list R) : R :=
  Rsum (zip_with (fun (b : bool) w => (if b then 1 else 0) * w) inc ws).

(** A call has a degenerate round when, after some rounds with errors
    strictly between 0 and 1, the next round's error is exactly 0 or 1. *)
Definition degenerate_round {Row : Type} {L : WeakLearner Row}
    (X : list Row) (y : list Z) (learning_rate : float64) (M : nat) : Prop :=
  exists m st e,
    (m < M)%nat /\
    boosting_rounds X y learning_rate m (init (length y)) = Ok st /\
    Forall proper_error (estimator_error_list st) /\
    round_error (predict (fit X y (sample_weight st)) X) y (sample_weight st) = Ok e /\
    degenerate_error e.

(** ** A concrete weak learner

    The smallest tree: one leaf, which predicts the class of larger total
    weight among the labels -1 and +1 (a tie goes to -1, the first class).
    It instantiates the interface on concrete inputs. *)

Module MajorityLeaf.

Definition class_weight (c : Z) (y : list Z) (w : list float64) : float64 :=
  np_sum (zip_with (fun t x => if Z.eqb t c then x else Fin 0) y w).

Definition leaf_fit (X : list unit) (y : list Z) (w : list float64) : Z :=
  if fltb (class_weight (-1) y w) (class_weight 1 y w) then 1%Z else (-1)%Z.

Definition leaf_predict (e : Z) (X : list unit) : list Z := map (fun _ => e) X.

#[global] Instance learner : WeakLearner unit := {
  Estimator := Z;
  fit := leaf_fit;
  predict := leaf_predict;
  predict_length := fun e X => length_map (fun _ : unit => e) X
}.

End MajorityLeaf.

(** ** The dataset of the notebook

    [x1], [x2] and [y] as the notebook defines them (coordinates in
    hundredths), and [X = np.vstack((x1, x2)).T]: one row [(x1_i, x2_i)] per
    example. *)

Module Dataset.

Definition hundredths (l : list Z) : list R := map (fun z => IZR z / 100) l.

Definition x1 : list R :=
  hundredths [10; 20; 40; 80; 80; 5; 8; 12; 33; 55; 66; 77; 88;
              20; 30; 40; 50; 60; 25; 30; 50; 70; 60]%Z.

Definition x2 : list R :=
  hundredths [20; 65; 70; 60; 30; 10; 40; 66; 77; 65; 68; 55; 44;
              10; 30; 40; 30; 15; 15; 50; 55; 20; 40]%Z.

Definition y : list Z :=
  [1; 1; 1; 1; 1; 1; 1; 1; 1; 1; 1; 1; 1;
   -1; -1; -1; -1; -1; -1; -1; -1; -1; -1]%Z.

Definition X : list (R * R) := combine x1 x2.

End Dataset.

(** ** Two concrete calls

    [X3], [y3]: three examples with identical rows, labels [1, 1, -1], one
    round, learning rate 1.  The leaf predicts +1 everywhere, so the third
    example is misclassified and the round's error is 1/3.

    [X1], [y1]: one example labelled +1.  The leaf predicts +1, nothing is
    misclassified and the round's error is exactly 0. *)

Module Example.

Definition X3 : list unit := [tt; tt; tt].
Definition y3 : list Z := [1; 1; -1]%Z.
Definition c3 : R := 1 / INR 3.
Definition e3 : R := Rmiss [false; false; true] [c3; c3; c3] / Rsum [c3; c3; c3].
Definition a3 : R := 1 * ln ((1 - e3) / e3).

Definition st3 : locals (L := MajorityLeaf.learner) :=
  mkLocals (map Fin [c3; c3; c3 * exp a3])
           [1%Z]
           [[1; 1; 1]%Z]
           [Fin e3]
           [Fin a3]
           [map Fin [c3; c3; c3]; map Fin [c3; c3; c3 * exp a3]].

Definition out3 : output (L := MajorityLeaf.learner) :=
  mkOutput (estimator_list st3, estimator_weight_list st3, sample_weight_list st3)
           [accuracy [Fin 1; Fin 1; Fin 1] y3 3].

Definition X1 : list unit := [tt].
Definition y1 : list Z := [1%Z].

Definition st1 : locals (L := MajorityLeaf.learner) :=
  mkLocals [NaN] [1%Z] [[1%Z]] [Fin 0] [PInf] [[Fin 1]; [NaN]].

End Example.

(** ** Vocabulary for the further properties *)

(** The sum of the confidence weights of the rounds that misclassified
    example [i]. *)
Definition missed_confidence (y : list Z) (y_predict_list : list (list Z))
    (alphas : list R) (i : nat) : R :=
  Rsum (zip_with (fun y_predict a => if nth i (incorrect_of y_predict y) false then a else 0)
                 y_predict_list alphas).

(** A label of the binary problem. *)
Definition binary_label (t : Z) : Prop := t = 1%Z \/ t = (-1)%Z.

(** The number of misclassified examples. *)
Definition miscount (inc : list bool) : nat := length (filter (fun b : bool => b) inc).

(** ** A call at chance level

    Two examples with identical rows and labels [1, -1]: the two classes
    weigh the same, the leaf predicts -1, and the round's error is 1/2. *)

(** The product of a list of numbers, and the factor [2 sqrt (e (1 - e))] by
    which a round of error [e] lowers the bound on the training error. *)
Definition Rprod (l : list R) : R := fold_right Rmult 1 l.

Definition round_factor (e : R) : R := 2 * sqrt (e * (1 - e)).

(** The number of training points whose vote equals the label, counted
    point by point. *)
Definition matching_votes (preds : list float64) (y : list Z) : nat :=
  length (filter (fun i => feqb (nth i preds NaN) (of_int (nth i y 0%Z)))
            (seq 0 (length y))).

(** ** The range of float64

    Finite arithmetic is exact in the embedding.  The first operation of
    the trainer to leave the range of float64 is [np.exp] in the update of
    the sample weights.  float64 has no finite value of magnitude [2^1024]
    or more: [np.exp] of a number whose exponential is that large gives
    [inf] (numpy warns and goes on), and an exponential of [2^-1075] or less
    is rounded to 0.  In between the result is the exact one, as
    everywhere. *)
Definition float64_overflow : R := 2 ^ 1024.
Definition float64_underflow : R := / 2 ^ 1075.

Definition np_exp (x : float64) : float64 :=
  match x with
  | Fin r =>
      if Rltb (exp r) float64_overflow
      then (if Rltb float64_underflow (exp r) then Fin (exp r) else Fin 0)
      else PInf
  | _ => fexp x
  end.

(** [sample_weight *= np.exp(estimator_weight * incorrect *
                             ((sample_weight > 0) | (estimator_weight < 0)))]
    with [np.exp] in the range of float64. *)
Definition boost_one_in_range (estimator_weight : float64) (w : float64) (inc : bool)
    : float64 :=
  fmul w (np_exp (fmul (fmul estimator_weight (of_bool inc))
                       (of_bool (fltb (Fin 0) w || fltb estimator_weight (Fin 0))))).


Module Chance.

Definition X2 : list unit := [tt; tt].
Definition y2 : list Z := [1; -1]%Z.
Definition c2 : R := 1 / INR 2.
Definition e2 : R := Rmiss [true; false] [c2; c2] / Rsum [c2; c2].
Definition a2 : R := 1 * ln ((1 - e2) / e2).

Definition st2 : locals (L := MajorityLeaf.learner) :=
  mkLocals (map Fin [c2 * exp a2; c2])
           [(-1)%Z]
           [[-1; -1]%Z]
           [Fin e2]
           [Fin a2]
           [map Fin [c2; c2]; map Fin [c2 * exp a2; c2]].

End Chance.

(** ** [plot_decision_boundary]: the grid and the values drawn on it

    Source: the cell that defines
    [plot_decision_boundary(classifier, X, y, N=10, scatter_weights, ax)].
    The function builds three [N x N] arrays, [xx], [yy] and [Z], and hands
    them to matplotlib ([ax.contourf], [ax.contour]); then it draws the data
    with [ax.scatter].  The embedding is the computation of the three
    arrays, up to [Z = zz.reshape(xx.shape)].  The drawing is outside it,
    and with it the arguments [y], [scatter_weights] and [ax], which only
    the drawing uses.

    [X] is an array of shape [(n, 2)]: a list of rows [(X[i,0], X[i,1])].
    [N] is a number of grid points, a natural number.  The constant [.1] is
    the real 1/10.

    The classifier is what the three branches look at.  [hasattr] is an
    optional field, and an object that cannot be called has no [call].
    Each branch passes one point, an array of shape [(1, 2)].  A method
    raises or returns an array, given by its entries in order:
    [decision_function] and the called object an array of scores
    (scikit-learn's binary classifiers answer with one score, shape [(1,)];
    a classifier of [k > 2] classes with [k] scores, shape [(1, k)]),
    [predict_proba] one row of class probabilities (shape
    [(1, n_classes)]), of which [[:, 1]] takes the second entry.  The
    answers at the different points have the same number of dimensions. *)

Module Plot.

(** [Exception] stands for any other exception that a method of the
    classifier raises. *)
Inductive error : Type := ValueError | IndexError | TypeError | Exception.

Inductive outcome (A : Type) : Type :=
| Done (a : A)
| Raised (e : error).

Arguments Done {A} a.
Arguments Raised {A} e.

Definition and_then {A B : Type} (c : outcome A) (k : A -> outcome B) : outcome B :=
  match c with
  | Done a => k a
  | Raised e => Raised e
  end.

Notation "x <~ c ;; k" := (and_then c (fun x => k))
  (at level 61, c at next level, right associativity).

(** A list comprehension whose body can raise. *)
Fixpoint for_each {A B : Type} (f : A -> outcome B) (l : list A) : outcome (list B) :=
  match l with
  | [] => Done []
  | x :: l' => y <~ f x ;; ys <~ for_each f l' ;; Done (y :: ys)
  end.

(** [np.minimum] and [np.maximum] of two values: a NaN operand gives NaN. *)
Definition fmin (a b : float64) : float64 :=
  match a, b with
  | NaN, _ | _, NaN => NaN
  | _, _ => if fltb b a then b else a
  end.

Definition fmax (a b : float64) : float64 :=
  match a, b with
  | NaN, _ | _, NaN => NaN
  | _, _ => if fltb a b then b else a
  end.

(** [a.min()] and [a.max()]: a zero-size array has no minimum and no
    maximum, the reduction raises [ValueError]. *)
Definition np_min (a : list float64) : outcome float64 :=
  match a with
  | [] => Raised ValueError
  | x :: a' => Done (fold_left fmin a' x)
  end.

Definition np_max (a : list float64) : outcome float64 :=
  match a with
  | [] => Raised ValueError
  | x :: a' => Done (fold_left fmax a' x)
  end.

(** [y[-1] = stop] *)
Definition set_last (y : list float64) (stop : float64) : list float64 :=
  removelast y ++ [stop].

(** [np.linspace(start, stop, num)], with the end point: [arange(0, num)]
    is multiplied by the step [(stop - start) / (num - 1)] (divided by
    [num - 1] and multiplied by [stop - start] when the step is zero;
    multiplied by [stop - start] when [num - 1] is zero), [start] is added,
    and for [num > 1] the last entry is overwritten with [stop]. *)
Definition np_linspace (start stop : float64) (num : nat) : list float64 :=
  let div := (num - 1)%nat in
  let delta := fsub stop start in
  let y := map of_nat (seq 0 num) in
  let y :=
    if (0 <? div)%nat then
      let step := fdiv delta (of_nat div) in
      if feqb step (Fin 0)
      then map (fun v => fmul (fdiv v (of_nat div)) delta) y
      else map (fun v => fmul v step) y
    else map (fun v => fmul v delta) y in
  let y := map (fun v => fadd v start) y in
  if (1 <? num)%nat then set_last y stop else y.

(** [np.meshgrid(x, y)]: two arrays of shape [(len(y), len(x))]; every row
    of the first is [x], row [i] of the second repeats [y[i]]. *)
Definition np_meshgrid (x y : list float64) : list (list float64) * list (list float64) :=
  (map (fun _ => x) y, map (fun v => map (fun _ => v) x) y).

(** [np.ravel]: the rows one after the other. *)
Definition np_ravel (a : list (list float64)) : list float64 := concat a.

(** [a.shape] of a two-dimensional array given by its rows; an array
    without rows has no columns either, as the [N x N] arrays here. *)
Definition shape (a : list (list float64)) : nat * nat :=
  (length a, match a with r :: _ => length r | [] => 0%nat end).

Fixpoint rows_of (rows cols : nat) (l : list float64) : list (list float64) :=
  match rows with
  | O => []
  | S rows' => firstn cols l :: rows_of rows' cols (skipn cols l)
  end.

(** [zz.reshape(s)]: the entries in the same order, cut into rows; the
    number of entries has to fit. *)
Definition np_reshape (zz : list float64) (s : nat * nat) : outcome (list (list float64)) :=
  if (length zz =? fst s * snd s)%nat then Done (rows_of (fst s) (snd s) zz)
  else Raised ValueError.

Record classifier : Type := mkClassifier {
  decision_function : option (float64 * float64 -> outcome (list float64));
  predict_proba : option (float64 * float64 -> outcome (list float64));
  call : option (float64 * float64 -> outcome (list float64))
}.

(** [...[:, 1]] on one row of class probabilities. *)
Definition second_column (row : list float64) : outcome float64 :=
  match nth_error row 1 with
  | Some v => Done v
  | None => Raised IndexError
  end.

(** The list comprehensions of the three branches: one answer per point of
    [zip(np.ravel(xx), np.ravel(yy))].  Calling an object that cannot be
    called raises [TypeError]. *)
Definition answers (c : classifier) (points : list (float64 * float64))
    : outcome (list (list float64)) :=
  match decision_function c with
  | Some f => for_each f points
  | None =>
      match predict_proba c with
      | Some f => for_each (fun p => row <~ f p ;; v <~ second_column row ;; Done [v]) points
      | None =>
          match call c with
          | Some f => for_each f points
          | None => for_each (fun _ => Raised TypeError) points
          end
      end
  end.

(** [np.array(answers)]: the answers have to have the same length (numpy
    1.24 and later raise [ValueError] otherwise; earlier versions built an
    array of objects, which the drawing does not accept).  The array is
    given by its entries in order. *)
Definition np_array (rows : list (list float64)) : outcome (list float64) :=
  match rows with
  | [] => Done []
  | r :: _ =>
      if forallb (fun r' => (length r' =? length r)%nat) rows then Done (concat rows)
      else Raised ValueError
  end.

(** The arrays [xx], [yy] and [Z] that the function hands to [ax.contourf]
    and [ax.contour]. *)
Definition plot_decision_boundary (c : classifier) (X : list (float64 * float64)) (N : nat)
    : outcome (list (list float64) * list (list float64) * list (list float64)) :=
  lo0 <~ np_min (map fst X) ;;
  hi0 <~ np_max (map fst X) ;;
  let x_min := fsub lo0 (Fin (1 / 10)) in
  let x_max := fadd hi0 (Fin (1 / 10)) in
  lo1 <~ np_min (map snd X) ;;
  hi1 <~ np_max (map snd X) ;;
  let y_min := fsub lo1 (Fin (1 / 10)) in
  let y_max := fadd hi1 (Fin (1 / 10)) in
  let '(xx, yy) := np_meshgrid (np_linspace x_min x_max N) (np_linspace y_min y_max N) in
  rows <~ answers c (combine (np_ravel xx) (np_ravel yy)) ;;
  zz <~ np_array rows ;;
  Z <~ np_reshape zz (shape xx) ;;
  Done (xx, yy, Z).

(** [a[i, j]] *)
Definition entry (a : list (list float64)) (i j : nat) : option float64 :=
  match nth_error a i with
  | Some row => nth_error row j
  | None => None
  end.

(** What the classifier answers at one point, through the branch that its
    attributes select; and the value it gives there, when the answer is a
    single score. *)
Definition answer (c : classifier) (p : float64 * float64) : outcome (list float64) :=
  match decision_function c with
  | Some f => f p
  | None =>
      match predict_proba c with
      | Some f => row <~ f p ;; v <~ second_column row ;; Done [v]
      | None =>
          match call c with
          | Some f => f p
          | None => Raised TypeError
          end
      end
  end.

Definition score (c : classifier) (p : float64 * float64) : outcome float64 :=
  a <~ answer c p ;;
  match a with
  | [v] => Done v
  | _ => Raised ValueError
  end.

(** Finite data. *)
Definition points (pts : list (R * R)) : list (float64 * float64) :=
  map (fun p => (Fin (fst p), Fin (snd p))) pts.

End Plot.

(** A call of [plot_decision_boundary] on two points, with a grid of
    [2 x 2]: [boost] scores a point by the difference of its coordinates;
    [one_class] has only [predict_proba] and reports a single class;
    [three_classes] answers with three scores; [fails] has a
    [decision_function] that raises; [not_callable] has no method and
    cannot be called. *)

Module PlotExample.

Definition two_points : list (R * R) := [(0, 1); (1, 0)].

Definition boost : Plot.classifier :=
  Plot.mkClassifier (Some (fun p => Plot.Done [fsub (fst p) (snd p)])) None None.

Definition one_class : Plot.classifier :=
  Plot.mkClassifier None (Some (fun _ => Plot.Done [Fin 1])) None.

Definition three_classes : Plot.classifier :=
  Plot.mkClassifier (Some (fun _ => Plot.Done [Fin 0; Fin 0; Fin 0])) None None.

Definition fails : Plot.classifier :=
  Plot.mkClassifier (Some (fun _ => Plot.Raised Plot.Exception)) None None.

Definition not_callable : Plot.classifier := Plot.mkClassifier None None None.

Definition lo : R := - (1 / 10).
Definition hi : R := 11 / 10.

Definition grid_x : list (list float64) := [[Fin lo; Fin hi]; [Fin lo; Fin hi]].
Definition grid_y : list (list float64) := [[Fin lo; Fin lo]; [Fin hi; Fin hi]].
Definition grid_z : list (list float64) :=
  [[Fin 0; Fin (12 / 10)]; [Fin (- (12 / 10)); Fin 0]].

End PlotExample.

(** * Part II: facts about the embedding *)

(** ** Real comparisons *)

Lemma Rltb_true a b : a < b -> Rltb a b = true.
Proof. intros H. unfold Rltb. destruct (Rlt_dec a b); [reflexivity | contradiction]. Qed.

Lemma Rltb_false a b : ~ a < b -> Rltb a b = false.
Proof. intros H. unfold Rltb. destruct (Rlt_dec a b); [contradiction | reflexivity]. Qed.

Lemma Reqb_true a b : a = b -> Reqb a b = true.
Proof. intros H. unfold Reqb. destruct (Req_dec_T a b); [reflexivity | contradiction]. Qed.

Lemma Reqb_false a b : a <> b -> Reqb a b = false.
Proof. intros H. unfold Reqb. destruct (Req_dec_T a b); [contradiction | reflexivity]. Qed.

Lemma Rltb_spec a b : reflect (a < b) (Rltb a b).
Proof. unfold Rltb. destruct (Rlt_dec a b); constructor; assumption. Qed.

Global Opaque Rltb Reqb.

Lemma ratio_bounds (a b : R) : 0 <= a <= b -> 0 < b -> 0 <= a / b <= 1.
Proof.
  intros [Ha Hab] Hb. assert (E : a / b * b = a) by (field; lra).
  split; apply Rmult_le_reg_r with (r := b); try exact Hb; rewrite E; lra.
Qed.

Lemma ln_above_1 (q : R) : 1 < q -> 0 < ln q.
Proof. intros H. rewrite <- ln_1. apply ln_increasing; lra. Qed.

Lemma ln_below_1 (q : R) : 0 < q -> q < 1 -> ln q < 0.
Proof. intros H0 H1. rewrite <- ln_1. apply ln_increasing; lra. Qed.

Lemma odds_above_1 (e : R) : 0 < e -> e < 1 / 2 -> 1 < (1 - e) / e.
Proof.
  intros H0 H1. apply Rmult_lt_reg_r with (r := e); [exact H0 |].
  unfold Rdiv. rewrite Rmult_assoc, Rinv_l by lra. lra.
Qed.

Lemma odds_below_1 (e : R) : 1 / 2 < e -> e < 1 -> 0 < (1 - e) / e < 1.
Proof.
  intros H0 H1. split.
  - apply Rdiv_lt_0_compat; lra.
  - apply Rmult_lt_reg_r with (r := e); [lra |].
    unfold Rdiv. rewrite Rmult_assoc, Rinv_l by lra. lra.
Qed.

Lemma confidence_sign (lr e : R) :
  0 < lr -> 0 < e < 1 ->
  (e < 1 / 2 -> 0 < lr * ln ((1 - e) / e)) /\
  (1 / 2 < e -> lr * ln ((1 - e) / e) < 0).
Proof.
  intros Hlr [H0 H1]. split; intros H.
  - apply Rmult_lt_0_compat; [exact Hlr |].
    apply ln_above_1. apply odds_above_1; assumption.
  - destruct (odds_below_1 e H H1) as [Hq0 Hq1].
    pose proof (ln_below_1 _ Hq0 Hq1) as Hln. nra.
Qed.

(** ** Options, results and lists *)

Lemma Some_inj {A : Type} (a b : A) : Some a = Some b -> a = b.
Proof. congruence. Qed.

Lemma Ok_inj {A : Type} (a b : A) : Ok a = Ok b -> a = b.
Proof. congruence. Qed.

Ltac some_inj H := apply Some_inj in H; subst.
Ltac ok_inj H := apply Ok_inj in H; subst.

Lemma bind_Ok {A B : Type} (c : result A) (k : A -> result B) (b : B) :
  bind c k = Ok b -> exists a, c = Ok a /\ k a = Ok b.
Proof. destruct c as [a | e]; simpl; intros H; [exists a; auto | discriminate]. Qed.

Lemma mapM_Ok_map {A B : Type} (f : A -> result B) (g : A -> B) (l : list A) :
  (forall x, In x l -> f x = Ok (g x)) -> mapM f l = Ok (map g l).
Proof.
  induction l as [| x l IH]; intros H; simpl.
  - reflexivity.
  - rewrite (H x) by (left; reflexivity). simpl.
    rewrite IH by (intros x' Hx'; apply H; right; exact Hx'). reflexivity.
Qed.

Lemma mapM_Ok_inv {A B : Type} (f : A -> result B) (l : list A) (l' : list B) :
  mapM f l = Ok l' ->
  length l' = length l /\
  forall i x, nth_error l i = Some x -> exists v, f x = Ok v /\ nth_error l' i = Some v.
Proof.
  revert l'. induction l as [| x l IH]; intros l' H; simpl in H.
  - injection H as <-. split; [reflexivity |].
    intros [| i] x Hx; discriminate.
  - apply bind_Ok in H. destruct H as [v [Hv H]].
    apply bind_Ok in H. destruct H as [vs [Hvs H]]. injection H as <-.
    destruct (IH vs Hvs) as [Hlen Hnth]. split; [simpl; lia |].
    intros [| i] x' Hx'; simpl in *.
    + injection Hx' as <-. exists v. auto.
    + apply Hnth. exact Hx'.
Qed.

Lemma nth_error_lt {A : Type} (l : list A) (i : nat) (x : A) :
  nth_error l i = Some x -> (i < length l)%nat.
Proof. intros H. apply nth_error_Some. rewrite H. discriminate. Qed.

Lemma nth_error_exists {A : Type} (l : list A) (i : nat) :
  (i < length l)%nat -> exists x, nth_error l i = Some x.
Proof.
  intros H. destruct (nth_error l i) as [x |] eqn:E; [exists x; reflexivity |].
  apply nth_error_None in E. lia.
Qed.

Lemma nth_error_snoc_old {A : Type} (l : list A) (x : A) (m : nat) (v : A) :
  nth_error l m = Some v -> nth_error (l ++ [x]) m = Some v.
Proof.
  intros H. rewrite nth_error_app1; [exact H | eapply nth_error_lt; exact H].
Qed.

Lemma nth_error_snoc_new {A : Type} (l : list A) (x : A) :
  nth_error (l ++ [x]) (length l) = Some x.
Proof. rewrite nth_error_app2 by lia. rewrite Nat.sub_diag. reflexivity. Qed.

Lemma Forall_nth_error {A : Type} (P : A -> Prop) (l : list A) :
  (forall i x, nth_error l i = Some x -> P x) -> Forall P l.
Proof.
  intros H. apply Forall_forall. intros x Hx.
  apply In_nth_error in Hx. destruct Hx as [i Hi]. eapply H. exact Hi.
Qed.


Lemma zip_with_length {A B C : Type} (f : A -> B -> C) (a : list A) (b : list B) :
  length (zip_with f a b) = Nat.min (length a) (length b).
Proof.
  revert b. induction a as [| x a IH]; intros [| y b]; simpl; auto.
Qed.

Lemma zip_with_map_r {A B B' C : Type} (f : A -> B -> C) (g : B' -> B) a b :
  zip_with f a (map g b) = zip_with (fun x y => f x (g y)) a b.
Proof.
  revert b. induction a as [| x a IH]; intros [| y b]; simpl; try reflexivity.
  f_equal. apply IH.
Qed.

Lemma zip_with_map_l {A A' B C : Type} (f : A -> B -> C) (g : A' -> A) a b :
  zip_with f (map g a) b = zip_with (fun x y => f (g x) y) a b.
Proof.
  revert b. induction a as [| x a IH]; intros [| y b]; simpl; try reflexivity.
  f_equal. apply IH.
Qed.

Lemma map_zip_with {A B C D : Type} (f : A -> B -> C) (g : C -> D) a b :
  map g (zip_with f a b) = zip_with (fun x y => g (f x y)) a b.
Proof.
  revert b. induction a as [| x a IH]; intros [| y b]; simpl; try reflexivity.
  f_equal. apply IH.
Qed.

Lemma zip_with_ext {A B C : Type} (f g : A -> B -> C) a b :
  (forall x y, In x a -> In y b -> f x y = g x y) -> zip_with f a b = zip_with g a b.
Proof.
  revert b. induction a as [| x a IH]; intros [| y b] H; simpl; try reflexivity.
  f_equal.
  - apply H; left; reflexivity.
  - apply IH. intros x' y' Hx Hy. apply H; right; assumption.
Qed.

Lemma zip_with_combine {A B C : Type} (f : A -> B -> C) a b :
  zip_with f a b = map (fun p => f (fst p) (snd p)) (combine a b).
Proof.
  revert b. induction a as [| x a IH]; intros [| y b]; simpl; try reflexivity.
  f_equal. apply IH.
Qed.

Lemma Forall_zip_with {A B C : Type} (P : C -> Prop) (f : A -> B -> C) a b :
  (forall x y, In x a -> In y b -> P (f x y)) -> Forall P (zip_with f a b).
Proof.
  revert b. induction a as [| x a IH]; intros [| y b] H; simpl; try constructor.
  - apply H; left; reflexivity.
  - apply IH. intros x' y' Hx Hy. apply H; right; assumption.
Qed.

Lemma nth_zip_with {A B C : Type} (f : A -> B -> C) a b (i : nat) x y :
  nth_error a i = Some x -> nth_error b i = Some y ->
  nth_error (zip_with f a b) i = Some (f x y).
Proof.
  revert b i. induction a as [| x0 a IH]; intros [| y0 b] [| i] Hx Hy; simpl in *;
    try discriminate.
  - congruence.
  - apply IH; assumption.
Qed.

(** ** The float64 operations *)


Lemma fadd_assoc x y z : fadd x (fadd y z) = fadd (fadd x y) z.
Proof. destruct x, y, z; simpl; try reflexivity. f_equal. lra. Qed.

Lemma fmul_comm x y : fmul x y = fmul y x.
Proof. destruct x, y; simpl; try reflexivity. f_equal. lra. Qed.

Lemma fmul_Fin a b : fmul (Fin a) (Fin b) = Fin (a * b).
Proof. reflexivity. Qed.

Lemma fadd_Fin a b : fadd (Fin a) (Fin b) = Fin (a + b).
Proof. reflexivity. Qed.

Lemma fdiv_Fin a b : b <> 0 -> fdiv (Fin a) (Fin b) = Fin (a / b).
Proof. intros H. simpl. rewrite Reqb_false by assumption. reflexivity. Qed.

Lemma flog_Fin r : 0 < r -> flog (Fin r) = Fin (ln r).
Proof. intros H. simpl. rewrite Rltb_true by assumption. reflexivity. Qed.

Lemma fmul_NaN_r x : fmul x NaN = NaN.
Proof. destruct x; reflexivity. Qed.

Lemma inf_times_pos pos r : 0 < r -> inf_times pos r = if pos then PInf else NInf.
Proof. intros H. unfold inf_times. rewrite Rltb_true by assumption. reflexivity. Qed.

Lemma inf_times_zero pos : inf_times pos 0 = NaN.
Proof. unfold inf_times. rewrite !Rltb_false by lra. reflexivity. Qed.





Lemma fsign_of_finite (x : float64) : finite x -> sign_value (fsign x).
Proof.
  intros [r ->]. unfold sign_value. simpl.
  destruct (Rltb 0 r); auto. destruct (Rltb r 0); auto.
Qed.

(** The special values, as numpy computes them. *)
Lemma special_values :
  fdiv (Fin 1) (Fin 0) = PInf /\ fdiv (Fin 0) (Fin 0) = NaN /\
  flog PInf = PInf /\ flog (Fin 0) = NInf /\
  fmul PInf (Fin 0) = NaN /\ fmul NInf (Fin 1) = NInf /\
  fexp NInf = Fin 0 /\ fexp NaN = NaN /\
  fsign PInf = Fin 1 /\ fsign NaN = NaN /\
  fltb (Fin 0) NaN = false /\ feqb NaN NaN = false.
Proof.
  repeat split; try reflexivity; simpl;
    rewrite ?Reqb_true by reflexivity;
    rewrite ?Rltb_false by lra;
    rewrite ?inf_times_zero; rewrite ?inf_times_pos by lra;
    rewrite ?Reqb_true by reflexivity; reflexivity.
Qed.

(** ** Sums *)

Lemma np_sum_Fin (l : list R) : np_sum (map Fin l) = Fin (Rsum l).
Proof.
  induction l as [| a l IH].
  - reflexivity.
  - change (np_sum (map Fin (a :: l))) with (fadd (Fin a) (np_sum (map Fin l))).
    rewrite IH. reflexivity.
Qed.

Lemma np_sum_finite (l : list float64) : Forall finite l -> finite (np_sum l).
Proof.
  induction 1 as [| x l [r ->] _ [s IH]].
  - exists 0. reflexivity.
  - change (np_sum (Fin r :: l)) with (fadd (Fin r) (np_sum l)). rewrite IH.
    eexists. reflexivity.
Qed.


Lemma Rsum_nonneg (l : list R) : Forall (fun w => 0 <= w) l -> 0 <= Rsum l.
Proof. induction 1 as [| a l Ha _ IH]; simpl; lra. Qed.

Lemma Rsum_positive (ws : list R) :
  ws <> [] -> Forall (fun w => 0 < w) ws -> 0 < Rsum ws.
Proof.
  intros Hne H. destruct H as [| w ws Hw Hws]; [contradiction |].
  simpl. assert (0 <= Rsum ws).
  { apply Rsum_nonneg. eapply Forall_impl; [| exact Hws]. simpl. intros; lra. }
  lra.
Qed.

Lemma Rsum_repeat (c : R) (n : nat) : Rsum (repeat c n) = INR n * c.
Proof.
  induction n as [| n IH].
  - simpl. lra.
  - change (Rsum (repeat c (S n))) with (c + Rsum (repeat c n)).
    rewrite IH, S_INR. lra.
Qed.

Lemma positive_nonneg x : positive x -> nonneg x.
Proof. intros [w [E H]]. exists w. split; [exact E | lra]. Qed.

Lemma no_worse_than_chance_proper (e : float64) : no_worse_than_chance e -> proper_error e.
Proof. intros [r [-> Hr]]. exists r. split; [reflexivity | lra]. Qed.

Lemma nonneg_reals (sw : list float64) :
  Forall nonneg sw -> exists ws, sw = map Fin ws /\ Forall (fun w => 0 <= w) ws.
Proof.
  induction 1 as [| x sw [w [E Hw]] _ [ws [Es Hws]]].
  - exists []. split; [reflexivity | constructor].
  - exists (w :: ws). subst. split; [reflexivity | constructor; assumption].
Qed.

Lemma positive_reals (sw : list float64) :
  Forall positive sw -> exists ws, sw = map Fin ws /\ Forall (fun w => 0 < w) ws.
Proof.
  induction 1 as [| x sw [w [E Hw]] _ [ws [Es Hws]]].
  - exists []. split; [reflexivity | constructor].
  - exists (w :: ws). subst. split; [reflexivity | constructor; assumption].
Qed.

(** ** One round on finite, non-negative weights *)

Lemma weighted_incorrect_Fin (inc : list bool) (ws : list R) :
  np_sum (zip_with (fun b x => fmul (of_bool b) x) inc (map Fin ws)) = Fin (Rmiss inc ws).
Proof.
  rewrite zip_with_map_r. unfold Rmiss. rewrite <- np_sum_Fin. f_equal.
  rewrite map_zip_with. reflexivity.
Qed.

Lemma Rmiss_bounds (inc : list bool) (ws : list R) :
  Forall (fun w => 0 <= w) ws -> 0 <= Rmiss inc ws <= Rsum ws.
Proof.
  intros H. revert inc.
  induction H as [| w ws Hw Hws IH]; intros [| b inc]; unfold Rmiss; simpl; try lra.
  - pose proof (Rsum_nonneg ws Hws). lra.
  - specialize (IH inc). unfold Rmiss in IH. destruct b; lra.
Qed.

Lemma np_average_Fin (inc : list bool) (ws : list R) :
  Rsum ws <> 0 ->
  np_average inc (map Fin ws) = Ok (Fin (Rmiss inc ws / Rsum ws)).
Proof.
  intros H. unfold np_average. rewrite np_sum_Fin. simpl feqb.
  rewrite Reqb_false by assumption.
  rewrite weighted_incorrect_Fin. rewrite fdiv_Fin by assumption. reflexivity.
Qed.

Lemma np_average_zero_weights (inc : list bool) (ws : list R) :
  Rsum ws = 0 -> np_average inc (map Fin ws) = Raise ZeroDivisionError.
Proof.
  intros H. unfold np_average. rewrite np_sum_Fin. simpl feqb.
  rewrite Reqb_true by assumption. reflexivity.
Qed.

(** The error of a round on non-negative weights of positive sum. *)
Lemma round_error_bounds (inc : list bool) (sw : list float64) (s : R) :
  Forall nonneg sw -> np_sum sw = Fin s -> 0 < s ->
  exists e, np_average inc sw = Ok (Fin e) /\ 0 <= e <= 1.
Proof.
  intros Hsw Hsum Hs. destruct (nonneg_reals sw Hsw) as [ws [-> Hws]].
  rewrite np_sum_Fin in Hsum. injection Hsum as Hsum.
  exists (Rmiss inc ws / Rsum ws). split.
  - apply np_average_Fin. lra.
  - apply ratio_bounds; [apply Rmiss_bounds; exact Hws | lra].
Qed.

Lemma boost_estimator_weight_Fin (lr e : R) :
  0 < e < 1 ->
  boost_estimator_weight (Fin lr) (Fin e) = Fin (lr * ln ((1 - e) / e)).
Proof.
  intros [H0 H1]. unfold boost_estimator_weight, fsub. simpl fneg. rewrite fadd_Fin.
  rewrite fdiv_Fin by lra.
  assert (Hq : 0 < (1 + - e) / e) by (apply Rdiv_lt_0_compat; lra).
  rewrite flog_Fin by exact Hq. rewrite fmul_Fin. reflexivity.
Qed.

Lemma boost_estimator_weight_zero (lr : R) :
  0 < lr -> boost_estimator_weight (Fin lr) (Fin 0) = PInf.
Proof.
  intros H. unfold boost_estimator_weight, fsub. simpl fneg. rewrite fadd_Fin.
  simpl fdiv. rewrite Reqb_true by reflexivity.
  rewrite inf_times_pos by lra. simpl. apply inf_times_pos. exact H.
Qed.


Lemma proper_error_weight (lr : R) (e : float64) :
  proper_error e -> finite (boost_estimator_weight (Fin lr) e).
Proof.
  intros [r [-> Hr]]. rewrite boost_estimator_weight_Fin by exact Hr.
  eexists; reflexivity.
Qed.


(** With a finite confidence weight [a], a non-negative weight is multiplied
    by [exp a] when its example is misclassified and kept otherwise. *)
Lemma boost_one_Fin (a w : R) (inc : bool) :
  0 <= w ->
  boost_one (Fin a) (Fin w) inc = Fin (if inc then w * exp a else w).
Proof.
  intros Hw. unfold boost_one, of_bool. simpl fltb. rewrite !fmul_Fin. simpl fexp.
  rewrite fmul_Fin. f_equal. destruct inc.
  - destruct (Rltb_spec 0 w) as [Hpos | Hz]; cbn [orb].
    + replace (a * 1 * 1) with a by lra. reflexivity.
    + assert (w = 0) by lra. subst w. lra.
  - match goal with |- _ * exp ?t = _ => replace t with 0 by lra end.
    rewrite exp_0. lra.
Qed.

Lemma boost_sample_weight_Fin (a : R) (ws : list R) (inc : list bool) :
  Forall (fun w => 0 <= w) ws ->
  boost_sample_weight (Fin a) (map Fin ws) inc =
  map Fin (zip_with (fun w (i : bool) => if i then w * exp a else w) ws inc).
Proof.
  intros H. unfold boost_sample_weight. revert inc.
  induction H as [| w ws Hw _ IH]; intros [| i inc]; cbn [zip_with map]; try reflexivity.
  rewrite boost_one_Fin by exact Hw. f_equal. apply IH.
Qed.

Lemma claimed_update_Fin (a : R) (ws : list R) (inc : list bool) :
  claimed_update (Fin a) (map Fin ws) inc =
  map Fin (zip_with (fun w (i : bool) => if i then w * exp a else w) ws inc).
Proof.
  unfold claimed_update. rewrite zip_with_map_l, map_zip_with.
  apply zip_with_ext. intros w i _ _. destruct i; reflexivity.
Qed.

Lemma boost_is_claimed_update (ew : float64) (sw : list float64) (inc : list bool) :
  finite ew -> Forall nonneg sw ->
  boost_sample_weight ew sw inc = claimed_update ew sw inc.
Proof.
  intros [a ->] Hsw. destruct (nonneg_reals sw Hsw) as [ws [-> Hws]].
  rewrite boost_sample_weight_Fin by exact Hws. rewrite claimed_update_Fin. reflexivity.
Qed.

Lemma boost_positive (a : R) (sw : list float64) (inc : list bool) :
  Forall positive sw -> Forall positive (boost_sample_weight (Fin a) sw inc).
Proof.
  intros Hsw. destruct (positive_reals sw Hsw) as [ws [-> Hws]].
  rewrite boost_sample_weight_Fin.
  - rewrite map_zip_with. apply Forall_zip_with. intros w i Hw _.
    rewrite Forall_forall in Hws. specialize (Hws w Hw).
    exists (if i then w * exp a else w). split; [reflexivity |].
    destruct i; [| exact Hws]. apply Rmult_lt_0_compat; [exact Hws | apply exp_pos].
  - eapply Forall_impl; [| exact Hws]. simpl. intros w Hw. lra.
Qed.

Lemma Rsum_boost (c : R) (ws : list R) (inc : list bool) :
  length inc = length ws ->
  Rsum (zip_with (fun w (i : bool) => if i then w * c else w) ws inc) =
  Rsum ws + (c - 1) * Rmiss inc ws.
Proof.
  revert inc. induction ws as [| w ws IH]; intros [| i inc] Hlen; simpl in *;
    try discriminate; unfold Rmiss; simpl.
  - lra.
  - injection Hlen as Hlen. specialize (IH inc Hlen). unfold Rmiss in IH.
    rewrite IH. destruct i; lra.
Qed.

(** A round whose error is exactly 0 or 1. *)

Lemma boost_one_inf_correct (w : float64) : boost_one PInf w false = NaN.
Proof.
  unfold boost_one. change (of_bool false) with (Fin 0).
  change (fmul PInf (Fin 0)) with (inf_times true 0). rewrite inf_times_zero.
  cbn [fmul fexp]. apply fmul_NaN_r.
Qed.



Lemma Rmiss_cons (b : bool) (inc : list bool) (w : R) (ws : list R) :
  Rmiss (b :: inc) (w :: ws) = (if b then 1 else 0) * w + Rmiss inc ws.
Proof. reflexivity. Qed.




(** ** The initial weights *)

Lemma initial_weight_length (N : nat) : length (initial_weight N) = N.
Proof. unfold initial_weight, np_ones. rewrite length_map. apply repeat_length. Qed.

Lemma ones_over_Fin (c : R) (k : nat) :
  c <> 0 ->
  map (fun o => fdiv o (Fin c)) (repeat (Fin 1) k) = map Fin (repeat (1 / c) k).
Proof.
  intros Hc. induction k as [| k IH]; [reflexivity |].
  simpl repeat. cbn [map]. rewrite fdiv_Fin by exact Hc. f_equal. exact IH.
Qed.

Lemma initial_weight_reals (N : nat) :
  (1 <= N)%nat -> initial_weight N = map Fin (repeat (1 / INR N) N).
Proof.
  intros HN. unfold initial_weight, np_ones, of_nat.
  apply ones_over_Fin. apply not_0_INR. lia.
Qed.

Lemma initial_weight_sum (N : nat) : (1 <= N)%nat -> np_sum (initial_weight N) = Fin 1.
Proof.
  intros HN. rewrite initial_weight_reals by exact HN.
  rewrite np_sum_Fin, Rsum_repeat. f_equal. field. apply not_0_INR. lia.
Qed.

Lemma initial_weight_positive (N : nat) : Forall positive (initial_weight N).
Proof.
  destruct N as [| N]; [constructor |].
  rewrite initial_weight_reals by lia. apply Forall_forall. intros x Hx.
  apply in_map_iff in Hx. destruct Hx as [w [<- Hw]]. apply repeat_spec in Hw. subst w.
  exists (1 / INR (S N)). split; [reflexivity |].
  apply Rdiv_lt_0_compat; [lra | apply lt_0_INR; lia].
Qed.

(** The sum of the weights after a round whose error is strictly between 0
    and 1: it grows when the error is below 1/2, shrinks when it is above,
    and stays when it is exactly 1/2. *)
Lemma round_sum :
  forall (y_predict y : list Z) (sample_weight : list float64) (lr e s : R),
    length y_predict = length y -> length sample_weight = length y ->
    Forall nonneg sample_weight -> np_sum sample_weight = Fin s ->
    0 < lr ->
    round_error y_predict y sample_weight = Ok (Fin e) ->
    e <> 0 -> e <> 1 ->
    let estimator_weight := boost_estimator_weight (Fin lr) (Fin e) in
    let sample_weight' :=
      boost_sample_weight estimator_weight sample_weight (incorrect_of y_predict y) in
    sample_weight' = claimed_update estimator_weight sample_weight (incorrect_of y_predict y) /\
    exists s', np_sum sample_weight' = Fin s' /\
               (e < 1 / 2 -> s < s') /\ (1 / 2 < e -> s' < s) /\ (e = 1 / 2 -> s' = s).
Proof.
  intros yp y sw lr e s Hyp Hlen Hsw Hsum Hlr Herr E0 E1 ew sw'.
  destruct (nonneg_reals sw Hsw) as [ws [-> Hws]].
  rewrite np_sum_Fin in Hsum. injection Hsum as Hsum.
  unfold round_error in Herr. set (inc := incorrect_of yp y) in *.
  assert (Hs0 : Rsum ws <> 0).
  { intros Hz. rewrite np_average_zero_weights in Herr by exact Hz. discriminate. }
  assert (Hspos : 0 < s) by (pose proof (Rsum_nonneg ws Hws); lra).
  rewrite np_average_Fin in Herr by exact Hs0. injection Herr as Herr.
  assert (Hb : 0 <= e <= 1).
  { rewrite <- Herr. apply ratio_bounds; [apply Rmiss_bounds; exact Hws | lra]. }
  assert (He : 0 < e < 1) by lra.
  assert (Hmiss : Rmiss inc ws = e * s).
  { rewrite <- Herr, <- Hsum. field. exact Hs0. }
  assert (Hew : ew = Fin (lr * ln ((1 - e) / e))).
  { subst ew. apply boost_estimator_weight_Fin. exact He. }
  assert (Hinc : length inc = length ws).
  { subst inc. unfold incorrect_of. rewrite zip_with_length, Hyp, Nat.min_id.
    rewrite length_map in Hlen. symmetry. exact Hlen. }
  split.
  - subst sw'. apply boost_is_claimed_update; [rewrite Hew; eexists; reflexivity | exact Hsw].
  - subst sw'. rewrite Hew. rewrite boost_sample_weight_Fin by exact Hws.
    rewrite np_sum_Fin. rewrite Rsum_boost by exact Hinc.
    eexists. split; [reflexivity |].
    rewrite Hmiss, Hsum.
    destruct (confidence_sign lr e Hlr He) as [Hlow Hhigh].
    assert (Hprod : 0 < e * s) by (apply Rmult_lt_0_compat; lra).
    repeat split; intros Hc.
    + specialize (Hlow Hc). pose proof (exp_increasing _ _ Hlow) as Hexp.
      rewrite exp_0 in Hexp.
      assert (0 < (exp (lr * ln ((1 - e) / e)) - 1) * (e * s))
        by (apply Rmult_lt_0_compat; lra).
      lra.
    + specialize (Hhigh Hc). pose proof (exp_increasing _ _ Hhigh) as Hexp.
      rewrite exp_0 in Hexp.
      assert (0 < (1 - exp (lr * ln ((1 - e) / e))) * (e * s))
        by (apply Rmult_lt_0_compat; lra).
      lra.
    + rewrite Hc. replace ((1 - 1 / 2) / (1 / 2)) with 1 by field.
      rewrite ln_1, Rmult_0_r, exp_0. lra.
Qed.

(** A round whose error is none of 0, 1/2, 1 moves the sum of the weights. *)
Lemma round_moves_sum :
  forall (y_predict y : list Z) (sample_weight : list float64) (lr e s : R),
    length y_predict = length y -> length sample_weight = length y ->
    Forall nonneg sample_weight -> np_sum sample_weight = Fin s ->
    0 < lr ->
    round_error y_predict y sample_weight = Ok (Fin e) ->
    e <> 0 -> e <> 1 / 2 -> e <> 1 ->
    let estimator_weight := boost_estimator_weight (Fin lr) (Fin e) in
    let sample_weight' :=
      boost_sample_weight estimator_weight sample_weight (incorrect_of y_predict y) in
    sample_weight' = claimed_update estimator_weight sample_weight (incorrect_of y_predict y) /\
    exists s', np_sum sample_weight' = Fin s' /\ s' <> s /\
               (e < 1 / 2 -> s < s') /\ (1 / 2 < e -> s' < s) /\
               (s = 1 -> s' <> 1).
Proof.
  intros yp y sw lr e s Hyp Hlen Hsw Hsum Hlr Herr E0 Eh E1 ew sw'.
  destruct (round_sum yp y sw lr e s Hyp Hlen Hsw Hsum Hlr Herr E0 E1)
    as [Hupd [s' [Hs' [Hlow [Hhigh _]]]]].
  split; [exact Hupd |]. exists s'. split; [exact Hs' |].
  assert (Hcases : e < 1 / 2 \/ 1 / 2 < e) by lra.
  destruct Hcases as [Hc | Hc].
  - specialize (Hlow Hc). repeat split; intros; lra.
  - specialize (Hhigh Hc). repeat split; intros; lra.
Qed.

(** ** The loop: what [M] completed rounds leave in the lists *)

Section Rounds.

Context {Row : Type} {L : WeakLearner Row}.
Variables (X : list Row) (y : list Z).

Lemma rounds_snoc (learning_rate : float64) (M : nat) (st : locals) :
  boosting_rounds X y learning_rate (S M) st =
  bind (boosting_rounds X y learning_rate M st) (boosting_round X y learning_rate).
Proof.
  revert st. induction M as [| M IH]; intros st.
  - simpl. destruct (boosting_round X y learning_rate st); reflexivity.
  - cbn [boosting_rounds] in *.
    destruct (boosting_round X y learning_rate st) as [st1 | e]; [| reflexivity].
    cbn [bind]. apply IH.
Qed.

Lemma round_inv (learning_rate : float64) (st st' : locals) :
  boosting_round X y learning_rate st = Ok st' ->
  let est := fit X y (sample_weight st) in
  let inc := incorrect_of (predict est X) y in
  exists e,
    round_error (predict est X) y (sample_weight st) = Ok e /\
    st' = mkLocals
            (boost_sample_weight (boost_estimator_weight learning_rate e) (sample_weight st) inc)
            (estimator_list st ++ [est])
            (y_predict_list st ++ [predict est X])
            (estimator_error_list st ++ [e])
            (estimator_weight_list st ++ [boost_estimator_weight learning_rate e])
            (sample_weight_list st ++
               [boost_sample_weight (boost_estimator_weight learning_rate e) (sample_weight st) inc]).
Proof.
  unfold boosting_round, round_error. intros H.
  apply bind_Ok in H. destruct H as [e [He Hst]].
  exists e. split; [exact He |]. apply Ok_inj in Hst. symmetry. exact Hst.
Qed.

Lemma round_at_kept (lr : float64) (st st' : locals) (m : nat) :
  boosting_round X y lr st = Ok st' -> round_at X y lr st m -> round_at X y lr st' m.
Proof.
  intros Hr [sw est e A1 A2 A3 A4 A5 A6 A7 A8].
  apply round_inv in Hr. cbv zeta in Hr. destruct Hr as [e0 [_ ->]].
  apply (RoundAt _ _ _ _ _ sw est e);
    cbn [estimator_list y_predict_list estimator_error_list
         estimator_weight_list sample_weight_list sample_weight];
    try (apply nth_error_snoc_old; assumption); assumption.
Qed.

Lemma rounds_recorded (lr : float64) (N M : nat) (st : locals) :
  boosting_rounds X y lr M (init N) = Ok st -> recorded X y lr N M st.
Proof.
  revert st. induction M as [| M IH]; intros st H.
  - simpl in H. apply Ok_inj in H. subst st.
    constructor; simpl; try reflexivity. intros m Hm. lia.
  - rewrite rounds_snoc in H. apply bind_Ok in H. destruct H as [st0 [H0 Hr]].
    specialize (IH st0 H0). pose proof Hr as Hkept.
    destruct IH as [I1 I2 I3 I4 I5 I6 I7 I8].
    apply round_inv in Hr. cbv zeta in Hr. destruct Hr as [e [He Est]].
    constructor; rewrite Est;
      cbn [estimator_list y_predict_list estimator_error_list
           estimator_weight_list sample_weight_list sample_weight];
      try (rewrite length_app; simpl; lia).
    + apply nth_error_snoc_old. exact I6.
    + rewrite <- I5. apply nth_error_snoc_new.
    + intros m Hm. assert (Hcase : (m < M)%nat \/ m = M) by lia.
      destruct Hcase as [Hlt | ->].
      * rewrite <- Est. apply (round_at_kept lr st0 st m Hkept). apply I8. exact Hlt.
      * apply (RoundAt _ _ _ _ _ (sample_weight st0) (fit X y (sample_weight st0)) e);
          cbn [estimator_list y_predict_list estimator_error_list
               estimator_weight_list sample_weight_list sample_weight].
        -- apply nth_error_snoc_old. exact I7.
        -- rewrite <- I1. apply nth_error_snoc_new.
        -- reflexivity.
        -- rewrite <- I2. apply nth_error_snoc_new.
        -- rewrite <- I3. apply nth_error_snoc_new.
        -- exact He.
        -- rewrite <- I4. apply nth_error_snoc_new.
        -- rewrite <- I5. apply nth_error_snoc_new.
Qed.

Lemma incorrect_of_length (y_predict : list Z) :
  length y_predict = length y -> length (incorrect_of y_predict y) = length y.
Proof. intros H. unfold incorrect_of. rewrite zip_with_length, H. apply Nat.min_id. Qed.

Lemma boost_sample_weight_length (ew : float64) (sw : list float64) (inc : list bool) :
  length inc = length sw -> length (boost_sample_weight ew sw inc) = length sw.
Proof. intros H. unfold boost_sample_weight. rewrite zip_with_length, H. apply Nat.min_id. Qed.

Lemma snapshot_index (lr : float64) (N M : nat) (st : locals) (m : nat) (sw : list float64) :
  recorded X y lr N M st ->
  nth_error (sample_weight_list st) (S m) = Some sw -> (m < M)%nat.
Proof.
  intros Hrec Hsw. apply nth_error_lt in Hsw.
  rewrite (rec_snapshots _ _ _ _ _ _ Hrec) in Hsw. lia.
Qed.

Lemma snapshot_length (lr : float64) (M : nat) (st : locals) :
  length X = length y ->
  recorded X y lr (length y) M st ->
  forall m sw, nth_error (sample_weight_list st) m = Some sw -> length sw = length y.
Proof.
  intros HX Hrec m. induction m as [| m IH]; intros sw Hsw.
  - rewrite (rec_first _ _ _ _ _ _ Hrec) in Hsw. some_inj Hsw. apply initial_weight_length.
  - pose proof (snapshot_index lr _ M st m sw Hrec Hsw) as Hm.
    destruct (rec_rounds _ _ _ _ _ _ Hrec m Hm) as [sw0 est e A1 A2 A3 A4 A5 A6 A7 A8].
    rewrite A8 in Hsw. some_inj Hsw. specialize (IH sw0 A1).
    rewrite boost_sample_weight_length; [exact IH |].
    rewrite incorrect_of_length; [symmetry; exact IH |].
    rewrite predict_length. exact HX.
Qed.

Lemma snapshots_positive (lr : R) (M : nat) (st : locals) :
  recorded X y (Fin lr) (length y) M st ->
  Forall proper_error (estimator_error_list st) ->
  forall m sw, nth_error (sample_weight_list st) m = Some sw -> Forall positive sw.
Proof.
  intros Hrec Herr m. induction m as [| m IH]; intros sw Hsw.
  - rewrite (rec_first _ _ _ _ _ _ Hrec) in Hsw. some_inj Hsw.
    apply initial_weight_positive.
  - pose proof (snapshot_index (Fin lr) _ M st m sw Hrec Hsw) as Hm.
    destruct (rec_rounds _ _ _ _ _ _ Hrec m Hm) as [sw0 est e A1 A2 A3 A4 A5 A6 A7 A8].
    rewrite A8 in Hsw. some_inj Hsw.
    assert (He : proper_error e).
    { rewrite Forall_forall in Herr. apply Herr. eapply nth_error_In. exact A5. }
    destruct (proper_error_weight lr e He) as [a ->].
    apply boost_positive. apply IH. exact A1.
Qed.

Lemma proper_weights_finite (lr : R) (N M : nat) (st : locals) :
  recorded X y (Fin lr) N M st ->
  Forall proper_error (estimator_error_list st) ->
  Forall finite (estimator_weight_list st).
Proof.
  intros Hrec Herr. apply Forall_nth_error. intros m ew Hew.
  assert (Hm : (m < M)%nat).
  { apply nth_error_lt in Hew as Hlt. rewrite (rec_weights _ _ _ _ _ _ Hrec) in Hlt. exact Hlt. }
  destruct (rec_rounds _ _ _ _ _ _ Hrec m Hm) as [sw est e A1 A2 A3 A4 A5 A6 A7 A8].
  rewrite A7 in Hew. some_inj Hew.
  apply proper_error_weight. rewrite Forall_forall in Herr. apply Herr.
  eapply nth_error_In. exact A5.
Qed.

Lemma recorded_predictions (lr : float64) (N M : nat) (st : locals) :
  recorded X y lr N M st ->
  y_predict_list st = map (fun est => predict est X) (estimator_list st).
Proof.
  intros Hrec. apply nth_error_ext. intros m. rewrite nth_error_map.
  destruct (Nat.lt_ge_cases m M) as [Hm | Hm].
  - destruct (rec_rounds _ _ _ _ _ _ Hrec m Hm) as [sw est e A1 A2 A3 A4 A5 A6 A7 A8].
    rewrite A4, A2. reflexivity.
  - assert (H1 : nth_error (y_predict_list st) m = None)
      by (apply nth_error_None; rewrite (rec_predictions _ _ _ _ _ _ Hrec); exact Hm).
    assert (H2 : nth_error (estimator_list st) m = None)
      by (apply nth_error_None; rewrite (rec_estimators _ _ _ _ _ _ Hrec); exact Hm).
    rewrite H1, H2. reflexivity.
Qed.

Lemma recorded_rows (lr : float64) (N M : nat) (st : locals) :
  recorded X y lr N M st ->
  Forall (fun row => length row = length X) (y_predict_list st).
Proof.
  intros Hrec. rewrite (recorded_predictions lr _ _ _ Hrec).
  apply Forall_forall. intros row Hrow. apply in_map_iff in Hrow.
  destruct Hrow as [est [<- _]]. apply predict_length.
Qed.

(** A round on non-negative weights of positive sum completes. *)
Lemma boosting_round_completes (lr : float64) (st : locals) (s : R) :
  Forall nonneg (sample_weight st) -> np_sum (sample_weight st) = Fin s -> 0 < s ->
  exists st', boosting_round X y lr st = Ok st'.
Proof.
  intros Hsw Hsum Hs. unfold boosting_round.
  destruct (round_error_bounds
              (incorrect_of (predict (fit X y (sample_weight st)) X) y)
              (sample_weight st) s Hsw Hsum Hs) as [e [He _]].
  rewrite He. cbn [bind]. eexists. reflexivity.
Qed.

(** Either [M] rounds complete, all with errors strictly between 0 and 1, or
    some round is degenerate. *)
Lemma rounds_progress (lr : R) (M : nat) :
  length X = length y -> (1 <= length y)%nat ->
  (exists st, boosting_rounds X y (Fin lr) M (init (length y)) = Ok st /\
              Forall proper_error (estimator_error_list st)) \/
  degenerate_round X y (Fin lr) M.
Proof.
  intros HX HN. induction M as [| M IH].
  - left. exists (init (length y)). split; [reflexivity | constructor].
  - destruct IH as [[st [Hst Herr]] | [m [st [e [Hm H]]]]].
    2: { right. exists m, st, e. split; [lia | exact H]. }
    pose proof (rounds_recorded (Fin lr) _ _ _ Hst) as Hrec.
    pose proof (rec_current _ _ _ _ _ _ Hrec) as Hcur.
    pose proof (snapshots_positive lr M st Hrec Herr M _ Hcur) as Hpos.
    pose proof (snapshot_length (Fin lr) M st HX Hrec M _ Hcur) as Hlen.
    destruct (positive_reals _ Hpos) as [ws [Ews Hws]].
    assert (Hsum : 0 < Rsum ws).
    { apply Rsum_positive; [| exact Hws]. intros ->. rewrite Ews in Hlen. simpl in Hlen. lia. }
    set (est := fit X y (sample_weight st)).
    set (inc := incorrect_of (predict est X) y).
    assert (Hav : np_average inc (sample_weight st) = Ok (Fin (Rmiss inc ws / Rsum ws))).
    { rewrite Ews. apply np_average_Fin. lra. }
    assert (Hb : 0 <= Rmiss inc ws / Rsum ws <= 1).
    { apply ratio_bounds; [| exact Hsum]. apply Rmiss_bounds.
      eapply Forall_impl; [| exact Hws]. simpl. intros; lra. }
    destruct (Req_dec (Rmiss inc ws / Rsum ws) 0) as [E0 | N0].
    { right. exists M, st, (Fin 0). repeat split; try assumption; try lia.
      - unfold round_error. fold est. fold inc. rewrite Hav, E0. reflexivity.
      - left. reflexivity. }
    destruct (Req_dec (Rmiss inc ws / Rsum ws) 1) as [E1 | N1].
    { right. exists M, st, (Fin 1). repeat split; try assumption; try lia.
      - unfold round_error. fold est. fold inc. rewrite Hav, E1. reflexivity.
      - right. reflexivity. }
    left.
    assert (Hround : exists st', boosting_round X y (Fin lr) st = Ok st' /\
               estimator_error_list st' =
               estimator_error_list st ++ [Fin (Rmiss inc ws / Rsum ws)]).
    { unfold boosting_round. fold est. fold inc. rewrite Hav. cbn [bind].
      eexists. split; reflexivity. }
    destruct Hround as [st' [Hst' Herr']].
    exists st'. split.
    + rewrite rounds_snoc, Hst. exact Hst'.
    + rewrite Herr'. apply Forall_app. split; [exact Herr |].
      constructor; [| constructor]. eexists. split; [reflexivity | lra].
Qed.

(** While no round's error is above 1/2 the sum of the weights never
    shrinks, and the update of a round whose error is below 1/2 leaves it
    above 1. *)
Lemma snapshot_sums_grow (lr : R) (M : nat) (st : locals) :
  length X = length y -> (1 <= length y)%nat -> 0 < lr ->
  boosting_rounds X y (Fin lr) M (init (length y)) = Ok st ->
  Forall no_worse_than_chance (estimator_error_list st) ->
  forall m sw, nth_error (sample_weight_list st) m = Some sw ->
    exists s, np_sum sw = Fin s /\ 1 <= s /\
      forall k ek, m = S k -> nth_error (estimator_error_list st) k = Some (Fin ek) ->
                   ek <> 1 / 2 -> 1 < s.
Proof.
  intros HX HN Hlr Hst Herr.
  pose proof (rounds_recorded (Fin lr) _ _ _ Hst) as Hrec.
  assert (Hproper : Forall proper_error (estimator_error_list st)).
  { eapply Forall_impl; [| exact Herr]. apply no_worse_than_chance_proper. }
  pose proof (snapshots_positive lr M st Hrec Hproper) as Hpos.
  pose proof (snapshot_length (Fin lr) M st HX Hrec) as Hlen.
  intros m. induction m as [| m IH]; intros sw Hsw.
  - rewrite (rec_first _ _ _ _ _ _ Hrec) in Hsw. some_inj Hsw.
    exists 1. split; [apply initial_weight_sum; exact HN |]. split; [lra |].
    intros k ek Hk. discriminate.
  - pose proof (snapshot_index (Fin lr) _ M st m sw Hrec Hsw) as Hm.
    destruct (rec_rounds _ _ _ _ _ _ Hrec m Hm) as [sw0 est e A1 A2 A3 A4 A5 A6 A7 A8].
    rewrite A8 in Hsw. some_inj Hsw.
    destruct (IH sw0 A1) as [s0 [Hs0 [Hge _]]].
    assert (He : no_worse_than_chance e).
    { rewrite Forall_forall in Herr. apply Herr. eapply nth_error_In. exact A5. }
    destruct He as [r [-> Hr]].
    destruct (round_sum (predict (fit X y sw0) X) y sw0 lr r s0)
      as [_ [s' [Hs' [Hup [_ Hsame]]]]];
      try assumption; try lra.
    + rewrite predict_length. exact HX.
    + apply (Hlen m). exact A1.
    + eapply Forall_impl; [| apply (Hpos m sw0 A1)]. apply positive_nonneg.
    + exists s'. split; [exact Hs' |].
      assert (Hcases : r < 1 / 2 \/ r = 1 / 2) by lra.
      split.
      * destruct Hcases as [Hc | Hc]; [specialize (Hup Hc) | specialize (Hsame Hc)]; lra.
      * intros k ek Hk Hek Hne. injection Hk as <-.
        rewrite A5 in Hek. apply Some_inj in Hek. injection Hek as <-.
        destruct Hcases as [Hc | Hc]; [specialize (Hup Hc); lra | contradiction].
Qed.

End Rounds.

(** ** The vote *)

Lemma column_Ok (a : list (list Z)) (point : nat) :
  a <> [] -> Forall (fun row => (point < length row)%nat) a ->
  column a point = Ok (map (fun row => nth point row 0%Z) a).
Proof.
  intros Hne Hrows. unfold column. destruct a as [| r a]; [contradiction |].
  apply mapM_Ok_map. intros row Hrow.
  rewrite Forall_forall in Hrows. specialize (Hrows row Hrow).
  rewrite (nth_error_nth' row 0%Z Hrows). reflexivity.
Qed.

Lemma column_inv (a : list (list Z)) (point : nat) (col : list Z) :
  column a point = Ok col ->
  a <> [] /\ col = map (fun row => nth point row 0%Z) a.
Proof.
  unfold column. destruct a as [| r a]; [discriminate |]. intros H.
  split; [discriminate |].
  apply mapM_Ok_inv in H. destruct H as [Hlen Hnth].
  apply nth_error_ext. intros i. rewrite nth_error_map.
  destruct (nth_error (r :: a) i) as [row |] eqn:Hrow; simpl.
  - destruct (Hnth i row Hrow) as [v [Hv Hi]]. rewrite Hi. f_equal.
    destruct (nth_error row point) as [v' |] eqn:Hp; [| discriminate].
    injection Hv as <-. symmetry. apply nth_error_nth. exact Hp.
  - apply nth_error_None. rewrite Hlen. apply nth_error_None. exact Hrow.
Qed.

Lemma preds_of_Ok (ypl : list (list Z)) (ews : list float64) (N : nat) :
  ypl <> [] -> Forall (fun row => length row = N) ypl ->
  exists preds, preds_of ypl ews N = Ok preds.
Proof.
  intros Hne Hrows. unfold preds_of. eexists.
  apply mapM_Ok_map with
    (g := fun point =>
            fsign (np_sum (zip_with (fun p w => fmul (of_int p) w)
                             (map (fun row => nth point row 0%Z) ypl) ews))).
  intros point Hp. apply in_seq in Hp. unfold vote_sum.
  rewrite column_Ok; [reflexivity | exact Hne |].
  eapply Forall_impl; [| exact Hrows]. simpl. intros row ->. lia.
Qed.

Lemma preds_of_inv (ypl : list (list Z)) (ews : list float64) (N : nat)
    (preds : list float64) :
  preds_of ypl ews N = Ok preds ->
  length preds = N /\
  forall point, (point < N)%nat ->
    exists s, vote_sum ypl ews point = Ok s /\ nth_error preds point = Some (fsign s).
Proof.
  unfold preds_of. intros H. apply mapM_Ok_inv in H. destruct H as [Hlen Hnth].
  split; [rewrite Hlen; apply length_seq |].
  intros point Hpoint.
  assert (Hseq : nth_error (seq 0 N) point = Some point).
  { rewrite nth_error_seq. apply Nat.ltb_lt in Hpoint. rewrite Hpoint. reflexivity. }
  destruct (Hnth point point Hseq) as [v [Hv Hi]].
  apply bind_Ok in Hv. destruct Hv as [s [Hs Hv]]. ok_inj Hv.
  exists s. split; assumption.
Qed.

Lemma finite_votes (ypl : list (list Z)) (ews : list float64) (N : nat) (preds : list float64) :
  Forall finite ews ->
  preds_of ypl ews N = Ok preds ->
  Forall sign_value preds.
Proof.
  intros Hews Hp. apply preds_of_inv in Hp. destruct Hp as [Hlen Hnth].
  apply Forall_nth_error. intros i p Hi.
  apply nth_error_lt in Hi as Hlt. rewrite Hlen in Hlt.
  destruct (Hnth i Hlt) as [s [Hs Hp]]. rewrite Hi in Hp. some_inj Hp.
  unfold vote_sum in Hs. apply bind_Ok in Hs. destruct Hs as [col [_ Hs]]. ok_inj Hs.
  apply fsign_of_finite. apply np_sum_finite. apply Forall_zip_with.
  intros p w _ Hw. rewrite Forall_forall in Hews. destruct (Hews w Hw) as [r ->].
  eexists. reflexivity.
Qed.

Section Calls.

Context {Row : Type} {L : WeakLearner Row}.
Variables (X : list Row) (y : list Z).

Lemma vote_sum_inv (ests : list Estimator) (ews : list float64) (point : nat) (s : float64) :
  vote_sum (map (fun est => predict est X) ests) ews point = Ok s ->
  fsign s = ensemble_vote X (ensemble_of ests ews) point.
Proof.
  unfold vote_sum. intros H. apply bind_Ok in H. destruct H as [col [Hcol H]].
  ok_inj H. apply column_inv in Hcol. destruct Hcol as [_ ->].
  unfold ensemble_vote, ensemble_of. f_equal. f_equal.
  rewrite map_map, zip_with_map_l, zip_with_combine.
  apply map_ext. intros [est w]. cbn [fst snd]. apply fmul_comm.
Qed.

Lemma Adaboost_scratch_inv (learning_rate : float64) (M : nat) (out : output) :
  Adaboost_scratch X y M learning_rate = Ok out ->
  exists st preds,
    boosting_rounds X y learning_rate M (init (length y)) = Ok st /\
    preds_of (y_predict_list st) (estimator_weight_list st) (length y) = Ok preds /\
    out = mkOutput (estimator_list st, estimator_weight_list st, sample_weight_list st)
                   [accuracy preds y (length y)].
Proof.
  unfold Adaboost_scratch. intros H.
  apply bind_Ok in H. destruct H as [st [Hst H]].
  apply bind_Ok in H. destruct H as [preds [Hp H]].
  exists st, preds. repeat split; try assumption. congruence.
Qed.

Lemma ensemble_length (lr : float64) (N M : nat) (st : locals) :
  recorded X y lr N M st ->
  length (ensemble_of (estimator_list st) (estimator_weight_list st)) = M.
Proof.
  intros Hrec. unfold ensemble_of. rewrite length_combine.
  rewrite (rec_estimators _ _ _ _ _ _ Hrec), (rec_weights _ _ _ _ _ _ Hrec).
  apply Nat.min_id.
Qed.

Lemma accuracy_finite (preds : list float64) (N : nat) :
  (1 <= N)%nat -> finite (accuracy preds y N).
Proof.
  intros HN. unfold accuracy, of_nat. rewrite fdiv_Fin.
  - eexists. reflexivity.
  - apply not_0_INR. lia.
Qed.


(** A call inside the preconditions (at least one example, at least one
    round, a finite learning rate) either completes with finite values
    everywhere, or has a degenerate round. *)
Lemma Adaboost_scratch_completes (lr : R) (M : nat) :
  length X = length y -> (1 <= length y)%nat -> (1 <= M)%nat ->
  (exists out st preds,
      Adaboost_scratch X y M (Fin lr) = Ok out /\
      boosting_rounds X y (Fin lr) M (init (length y)) = Ok st /\
      preds_of (y_predict_list st) (estimator_weight_list st) (length y) = Ok preds /\
      Forall proper_error (estimator_error_list st) /\
      Forall finite (estimator_weight_list st) /\
      Forall (Forall positive) (sample_weight_list st) /\
      Forall sign_value preds /\
      finite (accuracy preds y (length y)) /\
      printed out = [accuracy preds y (length y)]) \/
  degenerate_round X y (Fin lr) M.
Proof.
  intros HX HN HM.
  destruct (rounds_progress X y lr M HX HN) as [[st [Hst Herr]] | Hdeg]; [left | right; exact Hdeg].
  pose proof (rounds_recorded X y (Fin lr) _ _ _ Hst) as Hrec.
  pose proof (proper_weights_finite X y lr _ _ st Hrec Herr) as Hews.
  destruct (preds_of_Ok (y_predict_list st) (estimator_weight_list st) (length y))
    as [preds Hp].
  { intros E. pose proof (rec_predictions _ _ _ _ _ _ Hrec) as Hl.
    rewrite E in Hl. simpl in Hl. lia. }
  { rewrite <- HX. apply (recorded_rows X y (Fin lr) _ _ st Hrec). }
  eexists. exists st, preds. split.
  { unfold Adaboost_scratch. rewrite Hst. cbn [bind]. rewrite Hp. reflexivity. }
  repeat split; try assumption.
  - apply Forall_nth_error. apply (snapshots_positive X y lr M st Hrec Herr).
  - eapply finite_votes; eassumption.
  - apply accuracy_finite. exact HN.
Qed.

End Calls.

(** ** The two concrete calls *)

Module ExampleRun.

Import Example.

Lemma c3_pos : 0 < c3.
Proof. unfold c3. simpl. lra. Qed.

Lemma e3_value : e3 = 1 / 3.
Proof. unfold e3, Rmiss, Rsum. pose proof c3_pos. simpl. field. lra. Qed.

Lemma e3_proper : 0 < e3 < 1.
Proof. rewrite e3_value. lra. Qed.

Lemma a3_pos : 0 < a3.
Proof.
  unfold a3. apply (confidence_sign 1 e3); [lra | apply e3_proper |].
  rewrite e3_value. lra.
Qed.

Lemma weights_3_nonneg : Forall nonneg (map Fin [c3; c3; c3]).
Proof.
  pose proof c3_pos. repeat constructor; eexists; (split; [reflexivity | lra]).
Qed.

Lemma weights_3_sum : Rsum [c3; c3; c3] <> 0.
Proof. pose proof c3_pos. unfold Rsum. simpl. lra. Qed.

Lemma initial_weight_3 : initial_weight 3 = map Fin [c3; c3; c3].
Proof. rewrite initial_weight_reals by lia. reflexivity. Qed.

Lemma fit_3 : MajorityLeaf.leaf_fit X3 y3 (map Fin [c3; c3; c3]) = 1%Z.
Proof.
  unfold MajorityLeaf.leaf_fit, MajorityLeaf.class_weight. simpl.
  pose proof c3_pos. rewrite Rltb_true by lra. reflexivity.
Qed.

Lemma error_3 : round_error [1; 1; 1]%Z y3 (map Fin [c3; c3; c3]) = Ok (Fin e3).
Proof. unfold round_error. apply np_average_Fin. apply weights_3_sum. Qed.

Lemma round_3 :
  boosting_round (L := MajorityLeaf.learner) X3 y3 (Fin 1) (init 3) = Ok st3.
Proof.
  unfold boosting_round. cbn [sample_weight init estimator_list y_predict_list
    estimator_error_list estimator_weight_list sample_weight_list].
  rewrite initial_weight_3.
  change (fit X3 y3 (map Fin [c3; c3; c3]))
    with (MajorityLeaf.leaf_fit X3 y3 (map Fin [c3; c3; c3])).
  rewrite fit_3.
  match goal with
  | |- context [incorrect_of ?p y3] => change (incorrect_of p y3) with [false; false; true]
  end.
  rewrite np_average_Fin by apply weights_3_sum.
  fold e3. cbn [bind].
  rewrite boost_estimator_weight_Fin by apply e3_proper. fold a3.
  rewrite boost_sample_weight_Fin.
  2: { pose proof c3_pos. repeat constructor; lra. }
  reflexivity.
Qed.

Lemma rounds_3 :
  boosting_rounds (L := MajorityLeaf.learner) X3 y3 (Fin 1) 1 (init 3) = Ok st3.
Proof. cbn [boosting_rounds]. rewrite round_3. reflexivity. Qed.

Lemma errors_3 : Forall no_worse_than_chance (estimator_error_list st3).
Proof.
  constructor; [| constructor]. exists e3. split; [reflexivity |].
  rewrite e3_value. lra.
Qed.

Lemma preds_3 :
  preds_of (y_predict_list st3) (estimator_weight_list st3) 3 = Ok [Fin 1; Fin 1; Fin 1].
Proof.
  pose proof a3_pos.
  unfold preds_of, vote_sum. simpl. rewrite !Rltb_true by lra. reflexivity.
Qed.

Lemma call_3 :
  Adaboost_scratch (L := MajorityLeaf.learner) X3 y3 1 (Fin 1) = Ok out3.
Proof.
  unfold Adaboost_scratch. change (length y3) with 3%nat.
  rewrite rounds_3. cbn [bind]. rewrite preds_3. reflexivity.
Qed.

Lemma accuracy_3 : accuracy [Fin 1; Fin 1; Fin 1] y3 3 = Fin (2 / 3).
Proof.
  unfold accuracy, y3, of_int. cbn [zip_with feqb].
  rewrite !(Reqb_true 1 1) by reflexivity. rewrite (Reqb_false 1 (-1)) by lra.
  cbn [filter length]. unfold of_nat. rewrite fdiv_Fin by (simpl; lra).
  f_equal. simpl. lra.
Qed.

Lemma initial_weight_1 : initial_weight 1 = [Fin 1].
Proof.
  rewrite initial_weight_reals by lia. simpl. f_equal. f_equal. field.
Qed.

Lemma fit_1 : MajorityLeaf.leaf_fit X1 y1 [Fin 1] = 1%Z.
Proof.
  unfold MajorityLeaf.leaf_fit, MajorityLeaf.class_weight. simpl.
  rewrite Rltb_true by lra. reflexivity.
Qed.

Lemma error_1 : round_error [1%Z] y1 [Fin 1] = Ok (Fin 0).
Proof.
  unfold round_error. change [Fin 1] with (map Fin [1]).
  rewrite np_average_Fin by (unfold Rsum; simpl; lra).
  f_equal. f_equal. unfold Rmiss, Rsum. simpl. field.
Qed.

Lemma round_1 :
  boosting_round (L := MajorityLeaf.learner) X1 y1 (Fin 1) (init 1) = Ok st1.
Proof.
  unfold init. rewrite initial_weight_1. unfold boosting_round.
  cbn [sample_weight estimator_list y_predict_list estimator_error_list
       estimator_weight_list sample_weight_list].
  change (fit X1 y1 [Fin 1]) with (MajorityLeaf.leaf_fit X1 y1 [Fin 1]).
  rewrite fit_1.
  match goal with
  | |- context [np_average (incorrect_of ?p y1) ?w] =>
      change (np_average (incorrect_of p y1) w) with (round_error [1%Z] y1 w)
  end.
  rewrite error_1. cbn [bind].
  rewrite boost_estimator_weight_zero by lra.
  match goal with
  | |- context [incorrect_of ?p y1] => change (incorrect_of p y1) with [false]
  end.
  unfold boost_sample_weight. cbn [zip_with]. rewrite boost_one_inf_correct.
  reflexivity.
Qed.


Lemma no_rounds_1 :
  Adaboost_scratch (L := MajorityLeaf.learner) X1 y1 0 (Fin 1) = Raise IndexError.
Proof. reflexivity. Qed.

End ExampleRun.

(** The dataset has 23 points, 13 labelled +1 and 10 labelled -1. *)
Lemma dataset_shape :
  length Dataset.X = 23%nat /\ length Dataset.y = 23%nat /\
  length (filter (Z.eqb 1) Dataset.y) = 13%nat /\
  length (filter (Z.eqb (-1)) Dataset.y) = 10%nat.
Proof. repeat split; reflexivity. Qed.

(** ** The range of float64 *)


Lemma float64_overflow_above_1 : 1 < float64_overflow.
Proof. unfold float64_overflow. apply Rlt_pow_R1; [lra | lia]. Qed.

Lemma float64_underflow_below_1 : 0 < float64_underflow < 1.
Proof.
  unfold float64_underflow.
  assert (H : 1 < 2 ^ 1075) by (apply Rlt_pow_R1; [lra | lia]).
  split; [apply Rinv_0_lt_compat; lra |].
  rewrite <- Rinv_1. apply Rinv_lt_contravar; [| exact H].
  rewrite Rmult_1_l. lra.
Qed.


Lemma np_exp_in_range (r : R) :
  float64_underflow < exp r < float64_overflow -> np_exp (Fin r) = fexp (Fin r).
Proof.
  intros [H1 H2]. unfold np_exp. rewrite Rltb_true by exact H2.
  rewrite Rltb_true by exact H1. reflexivity.
Qed.



(** While the exponential stays inside the range, the update is the exact
    one. *)
Lemma boost_one_in_range_exact (a w : R) (inc : bool) :
  0 <= w -> float64_underflow < exp a < float64_overflow ->
  boost_one_in_range (Fin a) (Fin w) inc = boost_one (Fin a) (Fin w) inc.
Proof.
  intros Hw Ha. unfold boost_one_in_range, boost_one. f_equal.
  unfold of_bool. rewrite !fmul_Fin. apply np_exp_in_range.
  pose proof float64_overflow_above_1. pose proof float64_underflow_below_1.
  destruct inc.
  - destruct (fltb (Fin 0) (Fin w) || fltb (Fin a) (Fin 0)).
    + replace (a * 1 * 1) with a by lra. exact Ha.
    + replace (a * 1 * 0) with 0 by lra. rewrite exp_0. lra.
  - replace (a * 0 * _) with 0 by lra. rewrite exp_0. lra.
Qed.



(** * Part III: the properties of the specification *)

(** C1 (amended).  A call that completes returns a tuple of three
    arrays: the fitted learners and their confidence weights, one per round
    and in round order (the ensemble, as two parallel sequences), and the
    [M + 1] sample-weight snapshots.  The training accuracy is printed; it is
    no component of the returned tuple.  A call with at least one example and
    one round completes unless one of its rounds has an error of exactly 0
    or 1. *)
Theorem returns_lists_and_prints_accuracy :
  forall (Row : Type) (L : WeakLearner Row) (X : list Row) (y : list Z)
         (lr : R) (M : nat),
    length X = length y -> (1 <= length y)%nat -> (1 <= M)%nat ->
    (forall out, Adaboost_scratch X y M (Fin lr) = Ok out ->
       exists st preds items,
         boosting_rounds X y (Fin lr) M (init (length y)) = Ok st /\
         preds_of (y_predict_list st) (estimator_weight_list st) (length y) = Ok preds /\
         return_value out = VTuple items /\
         items = [VArray (map VObject (estimator_list st));
                  VArray (map VFloat (estimator_weight_list st));
                  VArray (map (fun v => VArray (map VFloat v)) (sample_weight_list st))] /\
         length (estimator_list st) = M /\
         length (estimator_weight_list st) = M /\
         length (ensemble_of (estimator_list st) (estimator_weight_list st)) = M /\
         length (sample_weight_list st) = S M /\
         (forall m, (m < M)%nat -> round_at X y (Fin lr) st m) /\
         printed out = [accuracy preds y (length y)] /\
         ~ In (VFloat (accuracy preds y (length y))) items) /\
    ((exists out, Adaboost_scratch X y M (Fin lr) = Ok out) \/
     degenerate_round X y (Fin lr) M).
Proof.
  intros Row L X y lr M HX HN HM. split.
  - intros out Hout. apply Adaboost_scratch_inv in Hout.
    destruct Hout as [st [preds [Hst [Hp ->]]]].
    pose proof (rounds_recorded X y (Fin lr) _ _ _ Hst) as Hrec.
    exists st, preds. eexists. split; [exact Hst |]. split; [exact Hp |].
    split; [reflexivity |]. split; [reflexivity |].
    split; [apply (rec_estimators _ _ _ _ _ _ Hrec) |].
    split; [apply (rec_weights _ _ _ _ _ _ Hrec) |].
    split; [apply (ensemble_length X y (Fin lr) _ _ st Hrec) |].
    split; [apply (rec_snapshots _ _ _ _ _ _ Hrec) |].
    split; [apply (rec_rounds _ _ _ _ _ _ Hrec) |].
    split; [reflexivity |].
    intros [H | [H | [H | []]]]; discriminate.
  - destruct (Adaboost_scratch_completes X y lr M HX HN HM)
      as [[out [st [preds [Hout _]]]] | Hdeg].
    + left. exists out. exact Hout.
    + right. exact Hdeg.
Qed.

Lemma returns_lists_and_prints_accuracy_witness :
  exists items,
    return_value Example.out3 = VTuple items /\
    length items = 3%nat /\
    printed Example.out3 = [Fin (2 / 3)] /\
    ~ In (VFloat (Fin (2 / 3))) items.
Proof.
  destruct (returns_lists_and_prints_accuracy unit MajorityLeaf.learner
              Example.X3 Example.y3 1 1 eq_refl) as [Hret _].
  - simpl. lia.
  - lia.
  - destruct (Hret Example.out3 ExampleRun.call_3)
      as [st [preds [items [_ [_ [Hv [Hitems [_ [_ [_ [_ [_ [Hpr Hnot]]]]]]]]]]]]].
    exists items. split; [exact Hv |]. split; [rewrite Hitems; reflexivity |].
    assert (Hacc : accuracy preds Example.y3 (length Example.y3) = Fin (2 / 3)).
    { cbn [printed Example.out3] in Hpr.
      assert (E : accuracy [Fin 1; Fin 1; Fin 1] Example.y3 3
                  = accuracy preds Example.y3 (length Example.y3)) by congruence.
      rewrite <- E. apply ExampleRun.accuracy_3. }
    rewrite Hacc in Hpr, Hnot. split; assumption.
Defined.

(** C1, as stated, fails: on three examples and one round the call completes,
    prints the accuracy 2/3, and returns a tuple none of whose components is
    that accuracy (it has three components, all arrays). *)
Lemma accuracy_is_not_returned :
  Adaboost_scratch (L := MajorityLeaf.learner) Example.X3 Example.y3 1 (Fin 1)
    = Ok Example.out3 /\
  printed Example.out3 = [Fin (2 / 3)] /\
  ~ (exists items,
       return_value Example.out3 = VTuple items /\ In (VFloat (Fin (2 / 3))) items) /\
  ~ (exists ensemble,
       return_value Example.out3 = VTuple [ensemble; VFloat (Fin (2 / 3))]).
Proof.
  split; [exact ExampleRun.call_3 |].
  split; [cbn [printed Example.out3]; rewrite ExampleRun.accuracy_3; reflexivity |].
  split.
  - intros [items [Hv Hin]]. unfold return_value in Hv.
    cbn [returned Example.out3] in Hv.
    assert (E : items = [VArray (map VObject (estimator_list Example.st3));
                         VArray (map VFloat (estimator_weight_list Example.st3));
                         VArray (map (fun v => VArray (map VFloat v))
                                     (sample_weight_list Example.st3))])
      by congruence.
    subst items. destruct Hin as [H | [H | [H | []]]]; discriminate.
  - intros [ensemble Hv]. unfold return_value in Hv.
    cbn [returned Example.out3] in Hv. discriminate.
Qed.

(** C2 (amended).  In a round whose sample weights are non-negative numbers
    and whose confidence weight is finite (which it is when the error lies
    strictly between 0 and 1), the update multiplies the weight of every
    misclassified example by [exp(confidence weight)] and keeps the weight of
    every other example; the round appends that vector as its snapshot and
    changes the weights in no other way.  (A round on non-negative weights of
    positive sum always completes.) *)
Theorem update_multiplies_misclassified :
  forall (Row : Type) (L : WeakLearner Row) (X : list Row) (y : list Z)
         (lr : R) (st : locals),
    Forall nonneg (sample_weight st) ->
    (forall s, np_sum (sample_weight st) = Fin s -> 0 < s ->
       exists st', boosting_round X y (Fin lr) st = Ok st') /\
    (forall st', boosting_round X y (Fin lr) st = Ok st' ->
       exists e ew,
         estimator_error_list st' = estimator_error_list st ++ [e] /\
         estimator_weight_list st' = estimator_weight_list st ++ [ew] /\
         ew = boost_estimator_weight (Fin lr) e /\
         sample_weight_list st' = sample_weight_list st ++ [sample_weight st'] /\
         (proper_error e -> finite ew) /\
         (finite ew ->
          sample_weight st' =
          claimed_update ew (sample_weight st)
            (incorrect_of (predict (fit X y (sample_weight st)) X) y))).
Proof.
  intros Row L X y lr st Hsw. split.
  - intros s Hsum Hs. apply (boosting_round_completes X y (Fin lr) st s); assumption.
  - intros st' Hround.
    apply round_inv in Hround. cbv zeta in Hround. destruct Hround as [e [He ->]].
    exists e, (boost_estimator_weight (Fin lr) e).
    cbn [estimator_error_list estimator_weight_list sample_weight_list sample_weight].
    repeat split.
    + apply proper_error_weight.
    + intros Hfin. apply boost_is_claimed_update; assumption.
Qed.

Lemma update_multiplies_misclassified_witness :
  sample_weight Example.st3 =
  claimed_update (Fin Example.a3) (map Fin [Example.c3; Example.c3; Example.c3])
    [false; false; true].
Proof.
  assert (Hnn : Forall nonneg (sample_weight (init (L := MajorityLeaf.learner) 3))).
  { eapply Forall_impl; [apply positive_nonneg |]. apply initial_weight_positive. }
  destruct (update_multiplies_misclassified unit MajorityLeaf.learner
              Example.X3 Example.y3 1 (init 3) Hnn) as [_ Hround].
  destruct (Hround Example.st3 ExampleRun.round_3)
    as [e [ew [_ [Hew [_ [_ [_ Hupd]]]]]]].
  assert (Eew : ew = Fin Example.a3).
  { cbn [estimator_weight_list init Example.st3 app] in Hew. congruence. }
  subst ew.
  assert (Hfin : finite (Fin Example.a3)) by (eexists; reflexivity).
  specialize (Hupd Hfin).
  cbn [sample_weight init] in Hupd. rewrite ExampleRun.initial_weight_3 in Hupd.
  change (fit Example.X3 Example.y3 (map Fin [Example.c3; Example.c3; Example.c3]))
    with (MajorityLeaf.leaf_fit Example.X3 Example.y3
            (map Fin [Example.c3; Example.c3; Example.c3])) in Hupd.
  rewrite ExampleRun.fit_3 in Hupd. exact Hupd.
Defined.

(** C2, as stated, fails in a round whose error is exactly 0: the confidence
    weight is +inf, [inf * False] is NaN, and the weight of the correctly
    classified example goes from 1 to NaN instead of staying unchanged. *)
Lemma update_in_degenerate_round :
  boosting_round (L := MajorityLeaf.learner) Example.X1 Example.y1 (Fin 1) (init 1)
    = Ok Example.st1 /\
  sample_weight (init (L := MajorityLeaf.learner) 1) = [Fin 1] /\
  incorrect_of (predict (fit Example.X1 Example.y1 [Fin 1]) Example.X1) Example.y1
    = [false] /\
  estimator_error_list Example.st1 = [Fin 0] /\
  estimator_weight_list Example.st1 = [PInf] /\
  sample_weight Example.st1 = [NaN] /\
  claimed_update PInf [Fin 1] [false] = [Fin 1] /\
  sample_weight Example.st1 <> claimed_update PInf [Fin 1] [false].
Proof.
  split; [exact ExampleRun.round_1 |].
  split; [cbn [sample_weight init]; exact ExampleRun.initial_weight_1 |].
  split.
  { change (fit Example.X1 Example.y1 [Fin 1])
      with (MajorityLeaf.leaf_fit Example.X1 Example.y1 [Fin 1]).
    rewrite ExampleRun.fit_1. reflexivity. }
  split; [reflexivity |]. split; [reflexivity |]. split; [reflexivity |].
  split; [reflexivity |]. simpl. discriminate.
Qed.

(** C3.  The update only multiplies and never divides by the new sum.  The
    initial weights sum to 1; a round whose error is none of 0, 1/2, 1 moves
    the sum (up when the error is below 1/2, down when it is above), so
    weights that summed to 1 no longer do; and in a call whose weak learners
    are never worse than chance (every error above 0 and at most 1/2), the
    vector updated by a round whose error is not 1/2 sums to more than 1. *)
Theorem update_does_not_renormalize :
  (forall N : nat, (1 <= N)%nat -> np_sum (initial_weight N) = Fin 1) /\
  (forall (y_predict y : list Z) (sample_weight : list float64) (lr e s : R),
      length y_predict = length y -> length sample_weight = length y ->
      Forall nonneg sample_weight -> np_sum sample_weight = Fin s ->
      0 < lr ->
      round_error y_predict y sample_weight = Ok (Fin e) ->
      e <> 0 -> e <> 1 / 2 -> e <> 1 ->
      let estimator_weight := boost_estimator_weight (Fin lr) (Fin e) in
      let sample_weight' :=
        boost_sample_weight estimator_weight sample_weight (incorrect_of y_predict y) in
      sample_weight' = claimed_update estimator_weight sample_weight (incorrect_of y_predict y) /\
      exists s', np_sum sample_weight' = Fin s' /\ s' <> s /\
                 (e < 1 / 2 -> s < s') /\ (1 / 2 < e -> s' < s) /\
                 (s = 1 -> s' <> 1)) /\
  (forall (Row : Type) (L : WeakLearner Row) (X : list Row) (y : list Z)
          (lr : R) (M : nat) (st : locals),
      length X = length y -> (1 <= length y)%nat -> 0 < lr ->
      boosting_rounds X y (Fin lr) M (init (length y)) = Ok st ->
      Forall no_worse_than_chance (estimator_error_list st) ->
      forall m e sw,
        nth_error (estimator_error_list st) m = Some (Fin e) -> e <> 1 / 2 ->
        nth_error (sample_weight_list st) (S m) = Some sw ->
        exists s, np_sum sw = Fin s /\ 1 < s).
Proof.
  split; [exact initial_weight_sum |]. split; [exact round_moves_sum |].
  intros Row L X y lr M st HX HN Hlr Hst Herr m e sw He Hne Hsw.
  destruct (snapshot_sums_grow X y lr M st HX HN Hlr Hst Herr (S m) sw Hsw)
    as [s [Hs [_ Hgt]]].
  exists s. split; [exact Hs |]. apply (Hgt m e eq_refl He Hne).
Qed.

Lemma update_does_not_renormalize_witness :
  np_sum (initial_weight 3) = Fin 1 /\
  (exists s', np_sum (boost_sample_weight (boost_estimator_weight (Fin 1) (Fin Example.e3))
                        (map Fin [Example.c3; Example.c3; Example.c3])
                        (incorrect_of [1; 1; 1]%Z Example.y3)) = Fin s' /\ s' <> 1) /\
  (exists s, np_sum (map Fin [Example.c3; Example.c3; Example.c3 * exp Example.a3]) = Fin s /\
             1 < s).
Proof.
  destruct update_does_not_renormalize as [Hinit [Hround Hrun]].
  pose proof ExampleRun.e3_value as He.
  split; [apply Hinit; lia |]. split.
  - destruct (Hround [1; 1; 1]%Z Example.y3 (map Fin [Example.c3; Example.c3; Example.c3])
                1 Example.e3 1) as [_ [s' [Hs' [_ [_ [_ Hone]]]]]];
      try reflexivity; try lra.
    + exact ExampleRun.weights_3_nonneg.
    + rewrite <- ExampleRun.initial_weight_3. apply Hinit. lia.
    + exact ExampleRun.error_3.
    + exists s'. split; [exact Hs' | apply Hone; reflexivity].
  - apply (Hrun unit MajorityLeaf.learner Example.X3 Example.y3 1 1%nat Example.st3)
      with (m := 0%nat) (e := Example.e3); try reflexivity; try lra.
    + simpl. lia.
    + exact ExampleRun.rounds_3.
    + exact ExampleRun.errors_3.
Defined.




(** C5.  In a round whose sample weights are non-negative with positive sum,
    the weighted error rate is a number in [0, 1]; and for a learning rate
    above 0 and an error strictly between 0 and 1 the confidence weight
    [learning_rate * ln((1 - error) / error)] is above 0 when the error is
    below 1/2 and below 0 when the error is above 1/2. *)
Theorem error_rate_bounds_and_confidence_sign :
  (forall (y_predict y : list Z) (sample_weight : list float64) (s : R),
      Forall nonneg sample_weight -> np_sum sample_weight = Fin s -> 0 < s ->
      exists e, round_error y_predict y sample_weight = Ok (Fin e) /\ 0 <= e <= 1) /\
  (forall lr e : R, 0 < lr -> 0 < e < 1 ->
      exists a, boost_estimator_weight (Fin lr) (Fin e) = Fin a /\
                a = lr * ln ((1 - e) / e) /\
                (e < 1 / 2 -> 0 < a) /\ (1 / 2 < e -> a < 0)).
Proof.
  split.
  - intros y_predict y sw s Hsw Hsum Hs. unfold round_error.
    apply round_error_bounds with (s := s); assumption.
  - intros lr e Hlr He. exists (lr * ln ((1 - e) / e)).
    split; [apply boost_estimator_weight_Fin; exact He |].
    split; [reflexivity |]. apply confidence_sign; assumption.
Qed.

Lemma error_rate_bounds_and_confidence_sign_witness :
  (exists e, round_error [1; 1; 1]%Z Example.y3
               (map Fin [Example.c3; Example.c3; Example.c3]) = Ok (Fin e) /\
             0 <= e <= 1) /\
  (exists a, boost_estimator_weight (Fin 1) (Fin (1 / 3)) = Fin a /\
             a = 1 * ln ((1 - 1 / 3) / (1 / 3)) /\
             (1 / 3 < 1 / 2 -> 0 < a) /\ (1 / 2 < 1 / 3 -> a < 0)).
Proof.
  pose proof ExampleRun.c3_pos as Hc. split.
  - apply (proj1 error_rate_bounds_and_confidence_sign [1; 1; 1]%Z Example.y3
             (map Fin [Example.c3; Example.c3; Example.c3])
             (Rsum [Example.c3; Example.c3; Example.c3])).
    + exact ExampleRun.weights_3_nonneg.
    + apply np_sum_Fin.
    + unfold Rsum. simpl. lra.
  - apply (proj2 error_rate_bounds_and_confidence_sign 1 (1 / 3)); lra.
Defined.

(** C6.  For every training point, the prediction the trainer computes is
    the sign of the sum over the rounds of confidence weight times that
    round's learner's prediction at the point: a confidence-weighted vote of
    the [M] weak learners.  (A call with at least one example and one round
    reaches the vote unless one of its rounds is degenerate.) *)
Theorem ensemble_prediction_is_weighted_vote :
  forall (Row : Type) (L : WeakLearner Row) (X : list Row) (y : list Z)
         (lr : R) (M : nat),
    (forall out, Adaboost_scratch X y M (Fin lr) = Ok out ->
       exists st preds,
         boosting_rounds X y (Fin lr) M (init (length y)) = Ok st /\
         preds_of (y_predict_list st) (estimator_weight_list st) (length y) = Ok preds /\
         printed out = [accuracy preds y (length y)] /\
         returned out = (estimator_list st, estimator_weight_list st, sample_weight_list st) /\
         length preds = length y /\
         length (ensemble_of (estimator_list st) (estimator_weight_list st)) = M /\
         forall point, (point < length y)%nat ->
           nth_error preds point =
           Some (ensemble_vote X (ensemble_of (estimator_list st) (estimator_weight_list st))
                   point)) /\
    (length X = length y -> (1 <= length y)%nat -> (1 <= M)%nat ->
     (exists out, Adaboost_scratch X y M (Fin lr) = Ok out) \/
     degenerate_round X y (Fin lr) M).
Proof.
  intros Row L X y lr M. split.
  - intros out Hout.
    apply Adaboost_scratch_inv in Hout. destruct Hout as [st [preds [Hst [Hp ->]]]].
    exists st, preds.
    pose proof (rounds_recorded X y (Fin lr) _ _ _ Hst) as Hrec.
    pose proof (recorded_predictions X y (Fin lr) _ _ _ Hrec) as Hypl.
    destruct (preds_of_inv _ _ _ _ Hp) as [Hlen Hnth].
    repeat split; try assumption.
    + apply (ensemble_length X y (Fin lr) _ _ st Hrec).
    + intros point Hpoint. destruct (Hnth point Hpoint) as [s [Hs Hi]].
      rewrite Hi. f_equal. rewrite Hypl in Hs. apply vote_sum_inv. exact Hs.
  - intros HX HN HM.
    destruct (Adaboost_scratch_completes X y lr M HX HN HM)
      as [[out [st [preds [Hout _]]]] | Hdeg].
    + left. exists out. exact Hout.
    + right. exact Hdeg.
Qed.

Lemma ensemble_prediction_is_weighted_vote_witness :
  exists preds,
    printed Example.out3 = [accuracy preds Example.y3 3] /\
    forall point, (point < 3)%nat ->
      nth_error preds point =
      Some (ensemble_vote (L := MajorityLeaf.learner) Example.X3
              [(1%Z, Fin Example.a3)] point).
Proof.
  destruct (proj1 (ensemble_prediction_is_weighted_vote unit MajorityLeaf.learner
                     Example.X3 Example.y3 1 1) Example.out3 ExampleRun.call_3)
    as [st [preds [Hst [_ [Hpr [_ [_ [_ Hvote]]]]]]]].
  assert (E : Ok st = Ok Example.st3) by (rewrite <- Hst; exact ExampleRun.rounds_3).
  ok_inj E. exists preds. split; [exact Hpr | exact Hvote].
Defined.

(** C8.  With N examples, the sample-weight vector has N entries before the
    first round and after the update of every round; entry [i] after a round
    is computed from entry [i] before it and from the prediction and label of
    example [i], so the alignment with the training set never changes. *)
Theorem sample_weight_length_invariant :
  forall (Row : Type) (L : WeakLearner Row) (X : list Row) (y : list Z)
         (learning_rate : float64) (M : nat) (st : locals),
    length X = length y ->
    boosting_rounds X y learning_rate M (init (length y)) = Ok st ->
    nth_error (sample_weight_list st) 0 = Some (initial_weight (length y)) /\
    length (sample_weight_list st) = S M /\
    Forall (fun sw => length sw = length y) (sample_weight_list st) /\
    length (sample_weight st) = length y /\
    forall m i, (m < M)%nat -> (i < length y)%nat ->
      exists w w' p t ew,
        nth_error (nth m (sample_weight_list st) []) i = Some w /\
        nth_error (nth (S m) (sample_weight_list st) []) i = Some w' /\
        nth_error (nth m (y_predict_list st) []) i = Some p /\
        nth_error y i = Some t /\
        nth_error (estimator_weight_list st) m = Some ew /\
        w' = boost_one ew w (negb (Z.eqb p t)).
Proof.
  intros Row L X y lr M st HX Hst.
  pose proof (rounds_recorded X y lr _ _ _ Hst) as Hrec.
  pose proof (snapshot_length X y lr M st HX Hrec) as Hlen.
  split; [apply (rec_first _ _ _ _ _ _ Hrec) |].
  split; [apply (rec_snapshots _ _ _ _ _ _ Hrec) |].
  split; [apply Forall_nth_error; exact Hlen |].
  split; [apply (Hlen M); apply (rec_current _ _ _ _ _ _ Hrec) |].
  intros m i Hm Hi.
  destruct (rec_rounds _ _ _ _ _ _ Hrec m Hm) as [sw est e A1 A2 A3 A4 A5 A6 A7 A8].
  rewrite (nth_error_nth _ _ [] A1), (nth_error_nth _ _ [] A8), (nth_error_nth _ _ [] A4).
  pose proof (Hlen m sw A1) as Hsw.
  destruct (nth_error_exists sw i ltac:(lia)) as [w Hw].
  destruct (nth_error_exists (predict est X) i ltac:(rewrite predict_length; lia)) as [p Hp].
  destruct (nth_error_exists y i Hi) as [t Ht].
  exists w, (boost_one (boost_estimator_weight lr e) w (negb (Z.eqb p t))), p, t,
    (boost_estimator_weight lr e).
  repeat split; try assumption.
  unfold boost_sample_weight. apply nth_zip_with; [exact Hw |].
  unfold incorrect_of.
  apply (nth_zip_with (fun p t : Z => negb (Z.eqb p t))); assumption.
Qed.

Lemma sample_weight_length_invariant_witness :
  length (sample_weight_list Example.st3) = 2%nat /\
  Forall (fun sw => length sw = 3%nat) (sample_weight_list Example.st3) /\
  length (sample_weight Example.st3) = 3%nat.
Proof.
  destruct (sample_weight_length_invariant unit MajorityLeaf.learner
              Example.X3 Example.y3 (Fin 1) 1 Example.st3 eq_refl ExampleRun.rounds_3)
    as [_ [H1 [H2 [H3 _]]]].
  repeat split; assumption.
Defined.

(** C9 (amended).  With [M = 0] no round runs: the estimator,
    prediction and confidence-weight lists stay empty and the sample-weight
    list holds only the initial vector.  The vote then takes
    [y_predict_list[:, point]] on a one-dimensional empty array: with at least
    one example the call raises IndexError, prints no accuracy and returns
    nothing.  With no example at all it returns and prints NaN. *)
Theorem zero_rounds_raise_IndexError :
  forall (Row : Type) (L : WeakLearner Row) (X : list Row) (y : list Z)
         (learning_rate : float64),
    boosting_rounds X y learning_rate 0 (init (length y)) =
      Ok (mkLocals (initial_weight (length y)) [] [] [] [] [initial_weight (length y)]) /\
    (y <> [] -> Adaboost_scratch X y 0 learning_rate = Raise IndexError) /\
    (y = [] -> Adaboost_scratch X y 0 learning_rate = Ok (mkOutput ([], [], [[]]) [NaN])).
Proof.
  intros Row L X y lr. split; [reflexivity |]. split.
  - intros Hy. destruct y as [| t y]; [contradiction |]. reflexivity.
  - intros ->. unfold Adaboost_scratch. cbn [length boosting_rounds bind init initial_weight
      np_ones repeat map y_predict_list estimator_weight_list estimator_list
      sample_weight_list preds_of seq mapM].
    unfold accuracy. cbn [zip_with filter length of_nat INR fdiv].
    rewrite Reqb_true by reflexivity. rewrite inf_times_zero. reflexivity.
Qed.

Lemma zero_rounds_raise_IndexError_witness :
  Adaboost_scratch (L := MajorityLeaf.learner) Example.X1 Example.y1 0 (Fin 1)
    = Raise IndexError /\
  Adaboost_scratch (L := MajorityLeaf.learner) [] [] 0 (Fin 1)
    = Ok (mkOutput ([], [], [[]]) [NaN]).
Proof.
  split.
  - apply (proj1 (proj2 (zero_rounds_raise_IndexError unit MajorityLeaf.learner
                            Example.X1 Example.y1 (Fin 1)))).
    discriminate.
  - apply (proj2 (proj2 (zero_rounds_raise_IndexError unit MajorityLeaf.learner
                            [] [] (Fin 1)))).
    reflexivity.
Defined.

(** C9, as stated, fails: with one example and [M = 0] the call does not
    return an output with accuracy 0, it raises IndexError. *)
Lemma zero_rounds_do_not_return :
  Adaboost_scratch (L := MajorityLeaf.learner) Example.X1 Example.y1 0 (Fin 1)
    = Raise IndexError /\
  ~ (exists out : output (L := MajorityLeaf.learner),
       Adaboost_scratch Example.X1 Example.y1 0 (Fin 1) = Ok out /\
       returned out = ([], [], [initial_weight 1]) /\
       printed out = [Fin 0]).
Proof.
  split; [exact ExampleRun.no_rounds_1 |].
  intros [out [H _]]. rewrite ExampleRun.no_rounds_1 in H. discriminate.
Qed.



(** * Part IV: further properties of [Adaboost_scratch] *)

(** ** Helper facts *)

Lemma Rsum_scale (c : R) (ws : list R) : Rsum (map (Rmult c) ws) = c * Rsum ws.
Proof. induction ws as [| w ws IH]; simpl; [lra | rewrite IH; lra]. Qed.

Lemma Rmiss_scale (c : R) (inc : list bool) (ws : list R) :
  Rmiss inc (map (Rmult c) ws) = c * Rmiss inc ws.
Proof.
  revert ws. induction inc as [| b inc IH]; intros [| w ws]; unfold Rmiss; simpl; try lra.
  specialize (IH ws). unfold Rmiss in IH. rewrite IH. destruct b; lra.
Qed.

Lemma Rmiss_boost (c : R) (ws : list R) (inc : list bool) :
  Rmiss inc (zip_with (fun w (i : bool) => if i then w * c else w) ws inc) = c * Rmiss inc ws.
Proof.
  revert inc. induction ws as [| w ws IH]; intros [| i inc]; unfold Rmiss; simpl; try lra.
  specialize (IH inc). unfold Rmiss in IH. rewrite IH. destruct i; lra.
Qed.

Lemma Rsum_snoc (l : list R) (x : R) : Rsum (l ++ [x]) = Rsum l + x.
Proof. induction l as [| a l IH]; simpl; [lra | rewrite IH; lra]. Qed.

Lemma zip_with_snoc {A B C : Type} (f : A -> B -> C) (a : list A) (b : list B) x y :
  length a = length b ->
  zip_with f (a ++ [x]) (b ++ [y]) = zip_with f a b ++ [f x y].
Proof.
  revert b. induction a as [| x0 a IH]; intros [| y0 b] H; simpl in *; try discriminate.
  - reflexivity.
  - f_equal. apply IH. lia.
Qed.

Lemma map_Fin_inj (l l' : list R) : map Fin l = map Fin l' -> l = l'.
Proof.
  revert l'. induction l as [| a l IH]; intros [| a' l'] H; simpl in H; try discriminate.
  - reflexivity.
  - injection H as Ha Hl. f_equal; [exact Ha | apply IH; exact Hl].
Qed.

Lemma finite_reals (l : list float64) : Forall finite l -> exists rs, l = map Fin rs.
Proof.
  induction 1 as [| x l [r ->] _ [rs ->]].
  - exists []. reflexivity.
  - exists (r :: rs). reflexivity.
Qed.

Lemma incorrect_of_self (y : list Z) : incorrect_of y y = map (fun _ => false) y.
Proof.
  unfold incorrect_of. induction y as [| t y IH]; simpl; [reflexivity |].
  rewrite Z.eqb_refl. simpl. f_equal. exact IH.
Qed.

Lemma Rmiss_none (y : list Z) (ws : list R) : Rmiss (map (fun _ : Z => false) y) ws = 0.
Proof.
  revert ws. induction y as [| t y IH]; intros [| w ws]; unfold Rmiss; simpl; try lra.
  specialize (IH ws). unfold Rmiss in IH. rewrite IH. lra.
Qed.

Lemma map_nth_seq {A B : Type} (f : A -> B) (l : list A) (d : A) :
  map (fun i => f (nth i l d)) (seq 0 (length l)) = map f l.
Proof.
  apply nth_error_ext. intros i. rewrite !nth_error_map, nth_error_seq.
  destruct (Nat.ltb_spec i (length l)) as [Hi | Hi]; simpl.
  - rewrite (nth_error_nth' l d Hi). reflexivity.
  - assert (E : nth_error l i = None) by (apply nth_error_None; exact Hi).
    rewrite E. reflexivity.
Qed.

Lemma filter_all_true (l : list bool) :
  Forall (fun b => b = true) l -> filter (fun b : bool => b) l = l.
Proof. induction 1 as [| b l -> _ IH]; simpl; [reflexivity | f_equal; exact IH]. Qed.

Lemma filter_all_false (l : list bool) :
  Forall (fun b => b = false) l -> filter (fun b : bool => b) l = [].
Proof. induction 1 as [| b l -> _ IH]; simpl; [reflexivity | exact IH]. Qed.

Lemma filter_length_le (l : list bool) :
  (length (filter (fun b : bool => b) l) <= length l)%nat.
Proof. induction l as [| b l IH]; simpl; [lia | destruct b; simpl; lia]. Qed.

Lemma filter_length_full (l : list bool) :
  length (filter (fun b : bool => b) l) = length l -> Forall (fun b => b = true) l.
Proof.
  induction l as [| b l IH]; simpl; intros H; [constructor |].
  destruct b; simpl in H.
  - constructor; [reflexivity | apply IH; lia].
  - pose proof (filter_length_le l). lia.
Qed.

(** ** The error of a round does not depend on the scale of the weights *)

(** X1.  [np.average] divides by the sum of the weights, so multiplying every
    sample weight by one non-zero number (dividing by the sum, say, which is
    the renormalisation the loop leaves out) changes nothing in the round's
    error, and nothing in whether it raises. *)
Theorem round_error_scale_invariant :
  forall (y_predict y : list Z) (ws : list R) (c : R),
    c <> 0 ->
    round_error y_predict y (map (fun w => fmul (Fin c) w) (map Fin ws)) =
    round_error y_predict y (map Fin ws).
Proof.
  intros yp y ws c Hc. unfold round_error.
  rewrite map_map.
  assert (E : map (fun w => fmul (Fin c) (Fin w)) ws = map Fin (map (Rmult c) ws)).
  { rewrite map_map. reflexivity. }
  rewrite E. clear E.
  destruct (Req_dec (Rsum ws) 0) as [Hz | Hnz].
  - rewrite !np_average_zero_weights; [reflexivity | exact Hz |].
    rewrite Rsum_scale, Hz. lra.
  - rewrite !np_average_Fin; [| exact Hnz |].
    + f_equal. f_equal. rewrite Rmiss_scale, Rsum_scale. field. split; assumption.
    + rewrite Rsum_scale. apply Rmult_integral_contrapositive. split; assumption.
Qed.

Lemma round_error_scale_invariant_witness :
  round_error [1; 1; 1]%Z Example.y3
    (map (fun w => fmul (Fin 3) w) (map Fin [Example.c3; Example.c3; Example.c3])) =
  round_error [1; 1; 1]%Z Example.y3 (map Fin [Example.c3; Example.c3; Example.c3]).
Proof.
  apply (round_error_scale_invariant [1; 1; 1]%Z Example.y3
           [Example.c3; Example.c3; Example.c3] 3).
  lra.
Defined.

(** ** With learning rate 1 the update balances the two groups *)

Lemma boosted_error (yp y : list Z) (ws : list R) (a e : R) :
  length yp = length y -> length ws = length y ->
  Forall (fun w => 0 <= w) ws ->
  round_error yp y (map Fin ws) = Ok (Fin e) -> e <> 0 ->
  exp a = (1 - e) / e -> e <> 1 ->
  round_error yp y (boost_sample_weight (Fin a) (map Fin ws) (incorrect_of yp y)) =
  Ok (Fin (1 / 2)).
Proof.
  intros Hyp Hlen Hws Herr E0 Hexp E1. unfold round_error in *.
  set (inc := incorrect_of yp y) in *.
  assert (Hs0 : Rsum ws <> 0).
  { intros Hz. rewrite np_average_zero_weights in Herr by exact Hz. discriminate. }
  rewrite np_average_Fin in Herr by exact Hs0. injection Herr as Herr.
  assert (Hmiss : Rmiss inc ws = e * Rsum ws).
  { rewrite <- Herr. field. exact Hs0. }
  assert (Hinc : length inc = length ws).
  { subst inc. unfold incorrect_of. rewrite zip_with_length, Hyp, Nat.min_id.
    symmetry. exact Hlen. }
  rewrite boost_sample_weight_Fin by exact Hws.
  assert (Hnew : Rsum (zip_with (fun w (i : bool) => if i then w * exp a else w) ws inc)
                 = 2 * (1 - e) * Rsum ws).
  { rewrite Rsum_boost by exact Hinc. rewrite Hmiss, Hexp. field. exact E0. }
  rewrite np_average_Fin.
  - f_equal. f_equal. rewrite Hnew, Rmiss_boost, Hmiss, Hexp. field.
    repeat split; try assumption. lra.
  - rewrite Hnew. apply Rmult_integral_contrapositive. split; [| exact Hs0].
    apply Rmult_integral_contrapositive. split; lra.
Qed.

(** X2.  With [learning_rate = 1], as the notebook calls the trainer, the
    update of a round whose error is neither 0 nor 1 leaves the misclassified
    examples with exactly as much total weight as the others: measured with
    the updated weights, the error of the same predictions is 1/2. *)
Theorem update_balances_the_weights :
  forall (y_predict y : list Z) (sample_weight : list float64) (e : R),
    length y_predict = length y -> length sample_weight = length y ->
    Forall nonneg sample_weight ->
    round_error y_predict y sample_weight = Ok (Fin e) ->
    e <> 0 -> e <> 1 ->
    round_error y_predict y
      (boost_sample_weight (boost_estimator_weight (Fin 1) (Fin e)) sample_weight
         (incorrect_of y_predict y)) = Ok (Fin (1 / 2)).
Proof.
  intros yp y sw e Hyp Hlen Hsw Herr E0 E1.
  destruct (nonneg_reals sw Hsw) as [ws [-> Hws]].
  assert (He : 0 < e < 1).
  { destruct (round_error_bounds (incorrect_of yp y) (map Fin ws) (Rsum ws)) as [e' [He' Hb]].
    - exact Hsw.
    - apply np_sum_Fin.
    - pose proof (Rsum_nonneg ws Hws) as Hge.
      destruct (Req_dec (Rsum ws) 0) as [Hz | Hnz]; [| lra].
      unfold round_error in Herr.
      rewrite np_average_zero_weights in Herr by exact Hz. discriminate.
    - unfold round_error in Herr. rewrite Herr in He'. injection He' as <-. lra. }
  rewrite boost_estimator_weight_Fin by exact He.
  rewrite length_map in Hlen.
  apply (boosted_error yp y ws _ e); try assumption.
  rewrite Rmult_1_l. apply exp_ln. apply Rdiv_lt_0_compat; lra.
Qed.

Lemma update_balances_the_weights_witness :
  round_error [1; 1; 1]%Z Example.y3
    (boost_sample_weight (boost_estimator_weight (Fin 1) (Fin Example.e3))
       (map Fin [Example.c3; Example.c3; Example.c3])
       (incorrect_of [1; 1; 1]%Z Example.y3)) = Ok (Fin (1 / 2)).
Proof.
  pose proof ExampleRun.e3_value as He.
  apply (update_balances_the_weights [1; 1; 1]%Z Example.y3
           (map Fin [Example.c3; Example.c3; Example.c3]) Example.e3);
    try reflexivity; try lra.
  - exact ExampleRun.weights_3_nonneg.
  - exact ExampleRun.error_3.
Defined.

(** ** The weight of an example in closed form *)

Lemma initial_weight_entry (N i : nat) :
  (i < N)%nat -> nth_error (initial_weight N) i = Some (Fin (1 / INR N)).
Proof.
  intros Hi. rewrite initial_weight_reals by lia.
  rewrite nth_error_map, nth_error_repeat by exact Hi. reflexivity.
Qed.

Lemma missed_confidence_snoc (y : list Z) (ypl : list (list Z)) (alphas : list R)
    (yp : list Z) (a : R) (i : nat) :
  length ypl = length alphas ->
  missed_confidence y (ypl ++ [yp]) (alphas ++ [a]) i =
  missed_confidence y ypl alphas i + (if nth i (incorrect_of yp y) false then a else 0).
Proof.
  intros Hlen. unfold missed_confidence.
  rewrite (zip_with_snoc _ ypl alphas yp a Hlen). apply Rsum_snoc.
Qed.

Lemma weight_closed_form {Row : Type} {L : WeakLearner Row} (X : list Row) (y : list Z)
    (lr : R) (M : nat) (st : locals) :
  length X = length y ->
  boosting_rounds X y (Fin lr) M (init (length y)) = Ok st ->
  Forall proper_error (estimator_error_list st) ->
  exists alphas,
    estimator_weight_list st = map Fin alphas /\
    forall i, (i < length y)%nat ->
      nth_error (sample_weight st) i =
      Some (Fin (1 / INR (length y) *
                 exp (missed_confidence y (y_predict_list st) alphas i))).
Proof.
  intros HX. revert st.
  induction M as [| M IH]; intros st Hst Herr.
  - simpl in Hst. ok_inj Hst. exists []. split; [reflexivity |].
    intros i Hi. cbn [sample_weight init]. rewrite initial_weight_entry by exact Hi.
    f_equal. f_equal. unfold missed_confidence. simpl. rewrite exp_0. lra.
  - rewrite rounds_snoc in Hst. apply bind_Ok in Hst. destruct Hst as [st0 [Hst0 Hr]].
    pose proof (rounds_recorded X y (Fin lr) _ _ _ Hst0) as Hrec.
    apply round_inv in Hr. cbv zeta in Hr. destruct Hr as [e [He Est]].
    rewrite Est in Herr |- *.
    cbn [estimator_error_list estimator_weight_list y_predict_list sample_weight] in *.
    apply Forall_app in Herr. destruct Herr as [Herr0 Hlast].
    inversion Hlast as [| e' l' Hpe _]; subst.
    destruct (IH st0 Hst0 Herr0) as [alphas [Hal Hw]].
    destruct Hpe as [r [-> Hr]].
    rewrite boost_estimator_weight_Fin by exact Hr.
    set (a := lr * ln ((1 - r) / r)).
    exists (alphas ++ [a]). split.
    { rewrite map_app, Hal. reflexivity. }
    intros i Hi.
    set (yp := predict (fit X y (sample_weight st0)) X).
    assert (Hinc : length (incorrect_of yp y) = length y).
    { apply incorrect_of_length. subst yp. rewrite predict_length. exact HX. }
    destruct (nth_error_exists (incorrect_of yp y) i ltac:(lia)) as [b Hb].
    unfold boost_sample_weight.
    rewrite (nth_zip_with (boost_one (Fin a)) _ _ i _ b (Hw i Hi) Hb).
    assert (Hpos : 0 <= 1 / INR (length y) *
                        exp (missed_confidence y (y_predict_list st0) alphas i)).
    { apply Rmult_le_pos.
      - apply Rlt_le. apply Rdiv_lt_0_compat; [lra | apply lt_0_INR; lia].
      - apply Rlt_le. apply exp_pos. }
    rewrite boost_one_Fin by exact Hpos. f_equal. f_equal.
    rewrite missed_confidence_snoc.
    2: { rewrite (rec_predictions _ _ _ _ _ _ Hrec).
         rewrite <- (rec_weights _ _ _ _ _ _ Hrec), Hal, length_map. reflexivity. }
    rewrite (nth_error_nth _ _ false Hb).
    destruct b.
    + rewrite exp_plus. lra.
    + rewrite Rplus_0_r. reflexivity.
Qed.

(** X3.  While every round's error stays strictly between 0 and 1, the
    weight of example [i] after any number of rounds is [1/N] times the
    exponential of the summed confidence weights of the rounds that
    misclassified it. *)
Theorem sample_weight_closed_form :
  forall (Row : Type) (L : WeakLearner Row) (X : list Row) (y : list Z)
         (lr : R) (M : nat) (st : locals),
    length X = length y ->
    boosting_rounds X y (Fin lr) M (init (length y)) = Ok st ->
    Forall proper_error (estimator_error_list st) ->
    exists alphas,
      estimator_weight_list st = map Fin alphas /\
      forall i, (i < length y)%nat ->
        nth_error (sample_weight st) i =
        Some (Fin (1 / INR (length y) *
                   exp (missed_confidence y (y_predict_list st) alphas i))).
Proof. intros Row L. exact (@weight_closed_form Row L). Qed.

Lemma sample_weight_closed_form_witness :
  exists alphas,
    estimator_weight_list Example.st3 = map Fin alphas /\
    forall i, (i < 3)%nat ->
      nth_error (sample_weight Example.st3) i =
      Some (Fin (1 / INR 3 *
                 exp (missed_confidence Example.y3 (y_predict_list Example.st3) alphas i))).
Proof.
  apply (sample_weight_closed_form unit MajorityLeaf.learner Example.X3 Example.y3 1 1
           Example.st3 eq_refl ExampleRun.rounds_3).
  eapply Forall_impl; [apply no_worse_than_chance_proper | exact ExampleRun.errors_3].
Defined.

(** ** Weights never decrease under learners no worse than chance *)

Lemma confidence_nonneg (lr r : R) :
  0 < lr -> 0 < r <= 1 / 2 -> 0 <= lr * ln ((1 - r) / r).
Proof.
  intros Hlr [H0 Hh]. destruct (Req_dec r (1 / 2)) as [-> | Hne].
  - replace ((1 - 1 / 2) / (1 / 2)) with 1 by field. rewrite ln_1. lra.
  - apply Rlt_le. apply (confidence_sign lr r); lra.
Qed.

Lemma exp_ge_1 (a : R) : 0 <= a -> 1 <= exp a.
Proof.
  intros [Ha | <-].
  - pose proof (exp_increasing 0 a Ha) as H. rewrite exp_0 in H. lra.
  - rewrite exp_0. lra.
Qed.

Lemma Forall2_boost (c : R) (ws : list R) (inc : list bool) :
  length inc = length ws -> 1 <= c -> Forall (fun w => 0 <= w) ws ->
  Forall2 Rle ws (zip_with (fun w (i : bool) => if i then w * c else w) ws inc).
Proof.
  intros Hlen Hc Hws. revert inc Hlen.
  induction Hws as [| w ws Hw _ IH]; intros [| i inc] Hlen; simpl in *; try discriminate.
  - constructor.
  - constructor; [destruct i; nra | apply IH; lia].
Qed.

(** X4.  While no round's error is above 1/2 (and none is 0), the weight of
    no example ever decreases from one snapshot to the next. *)
Theorem weights_never_decrease :
  forall (Row : Type) (L : WeakLearner Row) (X : list Row) (y : list Z)
         (lr : R) (M : nat) (st : locals),
    0 < lr -> length X = length y ->
    boosting_rounds X y (Fin lr) M (init (length y)) = Ok st ->
    Forall no_worse_than_chance (estimator_error_list st) ->
    forall m sw sw',
      nth_error (sample_weight_list st) m = Some sw ->
      nth_error (sample_weight_list st) (S m) = Some sw' ->
      exists ws ws', sw = map Fin ws /\ sw' = map Fin ws' /\ Forall2 Rle ws ws'.
Proof.
  intros Row L X y lr M st Hlr HX Hst Herr m sw sw' Hsw Hsw'.
  pose proof (rounds_recorded X y (Fin lr) _ _ _ Hst) as Hrec.
  assert (Hproper : Forall proper_error (estimator_error_list st)).
  { eapply Forall_impl; [| exact Herr]. apply no_worse_than_chance_proper. }
  pose proof (snapshots_positive X y lr M st Hrec Hproper m sw Hsw) as Hpos.
  pose proof (snapshot_length X y (Fin lr) M st HX Hrec m sw Hsw) as Hlen.
  pose proof (snapshot_index X y (Fin lr) _ M st m sw' Hrec Hsw') as Hm.
  destruct (rec_rounds _ _ _ _ _ _ Hrec m Hm) as [sw0 est e A1 A2 A3 A4 A5 A6 A7 A8].
  rewrite A1 in Hsw. some_inj Hsw. rewrite A8 in Hsw'. some_inj Hsw'.
  assert (He : no_worse_than_chance e).
  { rewrite Forall_forall in Herr. apply Herr. eapply nth_error_In. exact A5. }
  destruct He as [r [-> Hr]].
  rewrite boost_estimator_weight_Fin by lra.
  destruct (positive_reals _ Hpos) as [ws [-> Hws]].
  assert (Hws' : Forall (fun w => 0 <= w) ws).
  { eapply Forall_impl; [| exact Hws]. simpl. intros; lra. }
  rewrite boost_sample_weight_Fin by exact Hws'.
  eexists. eexists. split; [reflexivity |]. split; [reflexivity |].
  apply Forall2_boost.
  - rewrite incorrect_of_length; [rewrite length_map in Hlen; symmetry; exact Hlen |].
    rewrite predict_length. exact HX.
  - apply exp_ge_1. apply confidence_nonneg; assumption.
  - exact Hws'.
Qed.

Lemma weights_never_decrease_witness :
  exists ws ws',
    map Fin [Example.c3; Example.c3; Example.c3] = map Fin ws /\
    map Fin [Example.c3; Example.c3; Example.c3 * exp Example.a3] = map Fin ws' /\
    Forall2 Rle ws ws'.
Proof.
  apply (weights_never_decrease unit MajorityLeaf.learner Example.X3 Example.y3 1 1
           Example.st3 ltac:(lra) eq_refl ExampleRun.rounds_3 ExampleRun.errors_3 0%nat);
    reflexivity.
Defined.

(** ** The printed accuracy *)

Lemma nth_zip_with_inv {A B C : Type} (f : A -> B -> C) a b (i : nat) v :
  nth_error (zip_with f a b) i = Some v ->
  exists x y, nth_error a i = Some x /\ nth_error b i = Some y /\ v = f x y.
Proof.
  revert b i. induction a as [| x0 a IH]; intros [| y0 b] [| i] H; simpl in *;
    try discriminate.
  - injection H as <-. exists x0, y0. auto.
  - apply IH. exact H.
Qed.

Lemma accuracy_value (preds : list float64) (y : list Z) (N : nat) :
  (1 <= N)%nat ->
  accuracy preds y N =
  Fin (INR (miscount (zip_with (fun p t => feqb p (of_int t)) preds y)) / INR N).
Proof.
  intros HN. unfold accuracy, of_nat, miscount. apply fdiv_Fin. apply not_0_INR. lia.
Qed.

Lemma zip_with_nth {A B C : Type} (f : A -> B -> C) (a : list A) (b : list B)
    (da : A) (db : B) :
  length a = length b ->
  zip_with f a b = map (fun i => f (nth i a da) (nth i b db)) (seq 0 (length b)).
Proof.
  intros Hlen. apply nth_error_ext. intros i.
  rewrite nth_error_map, nth_error_seq.
  destruct (Nat.ltb_spec i (length b)) as [Hi | Hi]; simpl.
  - apply nth_zip_with; apply nth_error_nth'; lia.
  - apply nth_error_None. rewrite zip_with_length. lia.
Qed.

Lemma filter_map_length {A : Type} (g : A -> bool) (l : list A) :
  length (filter (fun b : bool => b) (map g l)) = length (filter g l).
Proof.
  induction l as [| x l IH]; simpl; [reflexivity |].
  destruct (g x); simpl; rewrite IH; reflexivity.
Qed.

(** [(preds == y).sum()] is the number of points whose vote equals the
    label. *)
Lemma matching_votes_count (preds : list float64) (y : list Z) :
  length preds = length y ->
  miscount (zip_with (fun p t => feqb p (of_int t)) preds y) = matching_votes preds y.
Proof.
  intros Hlen. unfold miscount, matching_votes.
  rewrite (zip_with_nth (fun p t => feqb p (of_int t)) preds y NaN 0%Z Hlen).
  apply filter_map_length.
Qed.

(** X5.  Whatever the learner and the learning rate, a call on at least one
    example that completes prints [k / N], where [k] is the number of
    training points whose vote equals the label: a number between 0 and 1,
    which is 1 exactly when every vote equals its label. *)
Theorem printed_accuracy_is_a_fraction :
  forall (Row : Type) (L : WeakLearner Row) (X : list Row) (y : list Z)
         (learning_rate : float64) (M : nat) (out : output),
    (1 <= length y)%nat ->
    Adaboost_scratch X y M learning_rate = Ok out ->
    exists preds,
      (exists st,
         boosting_rounds X y learning_rate M (init (length y)) = Ok st /\
         preds_of (y_predict_list st) (estimator_weight_list st) (length y) = Ok preds) /\
      printed out = [Fin (INR (matching_votes preds y) / INR (length y))] /\
      (matching_votes preds y <= length y)%nat /\
      0 <= INR (matching_votes preds y) / INR (length y) <= 1 /\
      (INR (matching_votes preds y) / INR (length y) = 1 <->
       forall i p t, nth_error preds i = Some p -> nth_error y i = Some t ->
                     feqb p (of_int t) = true).
Proof.
  intros Row L X y lr M out HN Hout.
  apply Adaboost_scratch_inv in Hout. destruct Hout as [st [preds [Hst [Hp ->]]]].
  destruct (preds_of_inv _ _ _ _ Hp) as [Hlen _].
  exists preds. rewrite <- (matching_votes_count preds y Hlen).
  set (hits := zip_with (fun p t => feqb p (of_int t)) preds y).
  assert (Hhits : length hits = length y).
  { subst hits. rewrite zip_with_length, Hlen. apply Nat.min_id. }
  assert (Hk : (miscount hits <= length y)%nat).
  { rewrite <- Hhits. apply filter_length_le. }
  assert (HNpos : 0 < INR (length y)) by (apply lt_0_INR; lia).
  split; [exists st; split; assumption |].
  split; [cbn [printed]; rewrite accuracy_value by exact HN; reflexivity |].
  split; [exact Hk |].
  split.
  { apply ratio_bounds; [| exact HNpos]. split; [apply pos_INR | apply le_INR; exact Hk]. }
  split.
  - intros H1 i p t Hip Hit.
    assert (Hfull : miscount hits = length hits).
    { rewrite Hhits. apply INR_eq.
      apply (f_equal (fun x => x * INR (length y))) in H1.
      unfold Rdiv in H1. rewrite Rmult_assoc, Rinv_l in H1 by lra. lra. }
    apply filter_length_full in Hfull. rewrite Forall_forall in Hfull.
    apply Hfull. eapply nth_error_In.
    apply (nth_zip_with (fun p t => feqb p (of_int t)) preds y i p t Hip Hit).
  - intros Hall.
    assert (Htrue : Forall (fun b => b = true) hits).
    { apply Forall_nth_error. intros i b Hb. subst hits.
      apply nth_zip_with_inv in Hb. destruct Hb as [p [t [Hip [Hit ->]]]].
      apply (Hall i p t Hip Hit). }
    unfold miscount. rewrite (filter_all_true hits Htrue), Hhits. field. lra.
Qed.

Lemma printed_accuracy_is_a_fraction_witness :
  exists preds,
    (exists st,
       boosting_rounds (L := MajorityLeaf.learner) Example.X3 Example.y3 (Fin 1) 1
         (init (length Example.y3)) = Ok st /\
       preds_of (y_predict_list st) (estimator_weight_list st) (length Example.y3)
         = Ok preds) /\
    printed Example.out3 =
      [Fin (INR (matching_votes preds Example.y3) / INR (length Example.y3))] /\
    (matching_votes preds Example.y3 <= length Example.y3)%nat /\
    0 <= INR (matching_votes preds Example.y3) / INR (length Example.y3) <= 1 /\
    (INR (matching_votes preds Example.y3) / INR (length Example.y3) = 1 <->
     forall i p t, nth_error preds i = Some p -> nth_error Example.y3 i = Some t ->
                   feqb p (of_int t) = true).
Proof.
  apply (printed_accuracy_is_a_fraction unit MajorityLeaf.learner Example.X3 Example.y3
           (Fin 1) 1 Example.out3).
  - simpl. lia.
  - exact ExampleRun.call_3.
Defined.

(** ** Rounds at chance level *)

Lemma boost_zero_confidence (ws : list R) (inc : list bool) :
  length inc = length ws ->
  zip_with (fun w (i : bool) => if i then w * exp 0 else w) ws inc = ws.
Proof.
  revert inc. induction ws as [| w ws IH]; intros [| i inc] Hlen; simpl in *;
    try discriminate; [reflexivity |].
  f_equal; [destruct i; [rewrite exp_0; lra | reflexivity] | apply IH; lia].
Qed.

Lemma chance_confidence (lr : R) :
  boost_estimator_weight (Fin lr) (Fin (1 / 2)) = Fin 0.
Proof.
  rewrite boost_estimator_weight_Fin by lra. f_equal.
  replace ((1 - 1 / 2) / (1 / 2)) with 1 by field. rewrite ln_1. lra.
Qed.

Lemma zero_votes (col : list Z) (k : nat) :
  np_sum (zip_with (fun p w => fmul (of_int p) w) col (repeat (Fin 0) k)) = Fin 0.
Proof.
  revert k. induction col as [| p col IH]; intros [| k]; try reflexivity.
  cbn [repeat zip_with np_sum fold_right].
  change (fold_right fadd (Fin 0) ?l) with (np_sum l).
  fold (np_sum (zip_with (fun p w => fmul (of_int p) w) col (repeat (Fin 0) k))).
  rewrite IH. unfold of_int. rewrite fmul_Fin, fadd_Fin. f_equal. lra.
Qed.

Lemma accuracy_none (preds : list float64) (y : list Z) (N : nat) :
  (1 <= N)%nat ->
  Forall (fun b => b = false) (zip_with (fun p t => feqb p (of_int t)) preds y) ->
  accuracy preds y N = Fin 0.
Proof.
  intros HN Hall. unfold accuracy. rewrite (filter_all_false _ Hall).
  unfold of_nat. rewrite fdiv_Fin by (apply not_0_INR; lia). f_equal. simpl. field.
  apply not_0_INR. lia.
Qed.

Lemma chance_rounds {Row : Type} {L : WeakLearner Row} (X : list Row) (y : list Z)
    (lr : R) (M : nat) (st : locals) :
  length X = length y ->
  boosting_rounds X y (Fin lr) M (init (length y)) = Ok st ->
  Forall (fun e => e = Fin (1 / 2)) (estimator_error_list st) ->
  sample_weight st = initial_weight (length y) /\
  estimator_weight_list st = repeat (Fin 0) M /\
  sample_weight_list st = repeat (initial_weight (length y)) (S M).
Proof.
  intros HX. revert st. induction M as [| M IH]; intros st Hst Herr.
  - simpl in Hst. ok_inj Hst. repeat split.
  - rewrite rounds_snoc in Hst. apply bind_Ok in Hst. destruct Hst as [st0 [Hst0 Hr]].
    apply round_inv in Hr. cbv zeta in Hr. destruct Hr as [e [He Est]].
    rewrite Est in Herr |- *.
    cbn [estimator_error_list estimator_weight_list sample_weight_list sample_weight] in *.
    apply Forall_app in Herr. destruct Herr as [Herr0 Hlast].
    inversion Hlast as [| e' l' Hpe _]; subst e' l' e.
    destruct (IH st0 Hst0 Herr0) as [Hsw [Hew Hsl]].
    rewrite chance_confidence, Hsw, Hew, Hsl.
    assert (Hsame : boost_sample_weight (Fin 0) (initial_weight (length y))
                      (incorrect_of (predict (fit X y (initial_weight (length y))) X) y)
                    = initial_weight (length y)).
    { destruct (positive_reals _ (initial_weight_positive (length y))) as [ws [Ews Hws]].
      pose proof (initial_weight_length (length y)) as Hl.
      rewrite Ews in *. rewrite length_map in Hl.
      rewrite boost_sample_weight_Fin.
      2: { eapply Forall_impl; [| exact Hws]. simpl. intros; lra. }
      f_equal. apply boost_zero_confidence.
      rewrite incorrect_of_length; [symmetry; exact Hl |].
      rewrite predict_length. exact HX. }
    rewrite Hsame. repeat split.
    + change (Fin 0 :: repeat (Fin 0) M) with (repeat (Fin 0) (S M)).
      rewrite <- repeat_cons. reflexivity.
    + symmetry. apply (repeat_cons (S M)).
Qed.

(** X6.  Rounds whose error is exactly 1/2 learn nothing: the confidence
    weight is 0 and the sample weights stay at [1/N].  When every round of
    a call on at least one example with non-zero labels is of that kind, the
    call completes, every vote is [sign 0 = 0] and the printed accuracy
    is 0. *)
Theorem chance_level_rounds_learn_nothing :
  forall (Row : Type) (L : WeakLearner Row) (X : list Row) (y : list Z)
         (lr : R) (M : nat) (st : locals),
    length X = length y ->
    boosting_rounds X y (Fin lr) M (init (length y)) = Ok st ->
    Forall (fun e => e = Fin (1 / 2)) (estimator_error_list st) ->
    estimator_weight_list st = repeat (Fin 0) M /\
    sample_weight_list st = repeat (initial_weight (length y)) (S M) /\
    ((1 <= M)%nat -> (1 <= length y)%nat -> Forall (fun t => t <> 0%Z) y ->
     exists out,
       Adaboost_scratch X y M (Fin lr) = Ok out /\
       returned out = (estimator_list st, repeat (Fin 0) M,
                       repeat (initial_weight (length y)) (S M)) /\
       printed out = [Fin 0]).
Proof.
  intros Row L X y lr M st HX Hst Herr.
  destruct (chance_rounds X y lr M st HX Hst Herr) as [_ [Hew Hsl]].
  split; [exact Hew |]. split; [exact Hsl |].
  intros HM HN Hy.
  pose proof (rounds_recorded X y (Fin lr) _ _ _ Hst) as Hrec.
  destruct (preds_of_Ok (y_predict_list st) (estimator_weight_list st) (length y))
    as [preds Hp].
  { intros E. pose proof (rec_predictions _ _ _ _ _ _ Hrec) as Hl.
    rewrite E in Hl. simpl in Hl. lia. }
  { rewrite <- HX. apply (recorded_rows X y (Fin lr) _ _ _ Hrec). }
  exists (mkOutput (estimator_list st, estimator_weight_list st, sample_weight_list st)
                   [accuracy preds y (length y)]).
  split; [| split].
  - unfold Adaboost_scratch. cbv zeta. rewrite Hst. cbn [bind]. rewrite Hp. reflexivity.
  - cbn [returned]. rewrite Hew, Hsl. reflexivity.
  - cbn [printed]. f_equal. apply accuracy_none; [exact HN |].
    destruct (preds_of_inv _ _ _ _ Hp) as [Hlen Hnth].
    apply Forall_nth_error. intros i b Hb.
    apply nth_zip_with_inv in Hb. destruct Hb as [p [t [Hip [Hit ->]]]].
    apply nth_error_lt in Hip as Hi. rewrite Hlen in Hi.
    destruct (Hnth i Hi) as [s [Hs Hps]]. rewrite Hip in Hps. some_inj Hps.
    unfold vote_sum in Hs. apply bind_Ok in Hs. destruct Hs as [col [_ Hs]]. ok_inj Hs.
    rewrite Hew, zero_votes. unfold fsign. rewrite Rltb_false by lra.
    unfold of_int, feqb. apply Reqb_false.
    rewrite Forall_forall in Hy. apply nth_error_In in Hit. specialize (Hy t Hit).
    intros E. apply Hy. apply eq_IZR. symmetry. exact E.
Qed.

Module ChanceRun.

Import Chance.

Lemma c2_pos : 0 < c2.
Proof. unfold c2. simpl. lra. Qed.

Lemma e2_value : e2 = 1 / 2.
Proof. unfold e2, Rmiss, Rsum. pose proof c2_pos. simpl. field. lra. Qed.

Lemma initial_weight_2 : initial_weight 2 = map Fin [c2; c2].
Proof. rewrite initial_weight_reals by lia. reflexivity. Qed.

Lemma fit_2 : MajorityLeaf.leaf_fit X2 y2 (map Fin [c2; c2]) = (-1)%Z.
Proof.
  unfold MajorityLeaf.leaf_fit, MajorityLeaf.class_weight. simpl.
  rewrite Rltb_false by lra. reflexivity.
Qed.

Lemma round_2 :
  boosting_round (L := MajorityLeaf.learner) X2 y2 (Fin 1) (init 2) = Ok st2.
Proof.
  unfold boosting_round. cbn [sample_weight init estimator_list y_predict_list
    estimator_error_list estimator_weight_list sample_weight_list].
  rewrite initial_weight_2.
  change (fit X2 y2 (map Fin [c2; c2]))
    with (MajorityLeaf.leaf_fit X2 y2 (map Fin [c2; c2])).
  rewrite fit_2.
  match goal with
  | |- context [incorrect_of ?p y2] => change (incorrect_of p y2) with [true; false]
  end.
  rewrite np_average_Fin by (pose proof c2_pos; unfold Rsum; simpl; lra).
  fold e2. cbn [bind].
  rewrite boost_estimator_weight_Fin by (rewrite e2_value; lra). fold a2.
  rewrite boost_sample_weight_Fin.
  2: { pose proof c2_pos. repeat constructor; lra. }
  reflexivity.
Qed.

Lemma rounds_2 :
  boosting_rounds (L := MajorityLeaf.learner) X2 y2 (Fin 1) 1 (init 2) = Ok st2.
Proof. cbn [boosting_rounds]. rewrite round_2. reflexivity. Qed.

Lemma errors_2 : Forall (fun e => e = Fin (1 / 2)) (estimator_error_list st2).
Proof. constructor; [| constructor]. rewrite e2_value. reflexivity. Qed.

End ChanceRun.

Lemma chance_level_rounds_learn_nothing_witness :
  estimator_weight_list Chance.st2 = repeat (Fin 0) 1 /\
  sample_weight_list Chance.st2 = repeat (initial_weight 2) 2 /\
  ((1 <= 1)%nat -> (1 <= 2)%nat -> Forall (fun t => t <> 0%Z) Chance.y2 ->
   exists out,
     Adaboost_scratch (L := MajorityLeaf.learner) Chance.X2 Chance.y2 1 (Fin 1) = Ok out /\
     returned out = (estimator_list Chance.st2, repeat (Fin 0) 1,
                     repeat (initial_weight 2) 2) /\
     printed out = [Fin 0]).
Proof.
  exact (chance_level_rounds_learn_nothing unit MajorityLeaf.learner Chance.X2 Chance.y2
           1 1 Chance.st2 eq_refl ChanceRun.rounds_2 ChanceRun.errors_2).
Defined.

(** ** A first learner that fits the training set *)

Lemma sign_of_infinite_vote (t : Z) :
  binary_label t ->
  fsign (np_sum (zip_with (fun p w => fmul (of_int p) w) [t] [PInf])) = of_int t.
Proof.
  intros [-> | ->]; unfold of_int; cbn [zip_with np_sum fold_right].
  - change (fmul (Fin 1) PInf) with (inf_times true 1).
    rewrite inf_times_pos by lra. reflexivity.
  - change (fmul (Fin (-1)) PInf) with (inf_times true (-1)).
    unfold inf_times. rewrite Rltb_false by lra. rewrite Rltb_true by lra. reflexivity.
Qed.

(** ** Calls with a single round *)

Lemma Rmiss_uniform (c : R) (inc : list bool) :
  Rmiss inc (repeat c (length inc)) = INR (miscount inc) * c.
Proof.
  unfold miscount. induction inc as [| b inc IH].
  - unfold Rmiss, Rsum. simpl. lra.
  - cbn [length repeat]. rewrite Rmiss_cons, IH. destruct b; cbn [filter].
    + change (length (true :: ?l)) with (S (length l)). rewrite S_INR. lra.
    + lra.
Qed.

Lemma miscount_le (inc : list bool) : (miscount inc <= length inc)%nat.
Proof. apply filter_length_le. Qed.

Lemma miscount_negb (inc : list bool) :
  (miscount (map negb inc) + miscount inc = length inc)%nat.
Proof.
  unfold miscount. induction inc as [| b inc IH]; [reflexivity |].
  destruct b; simpl; lia.
Qed.

(** The error of the first round is the plain fraction of misclassified
    examples. *)
Lemma first_round_error (y_predict y : list Z) :
  (1 <= length y)%nat -> length y_predict = length y ->
  round_error y_predict y (initial_weight (length y)) =
  Ok (Fin (INR (miscount (incorrect_of y_predict y)) / INR (length y))).
Proof.
  intros HN Hlen. unfold round_error.
  assert (HNpos : 0 < INR (length y)) by (apply lt_0_INR; lia).
  rewrite initial_weight_reals by exact HN.
  rewrite np_average_Fin.
  2: { rewrite Rsum_repeat. apply Rgt_not_eq.
       apply Rmult_lt_0_compat; [exact HNpos | apply Rdiv_lt_0_compat; lra]. }
  f_equal. f_equal.
  pose proof (Rmiss_uniform (1 / INR (length y)) (incorrect_of y_predict y)) as Hmiss.
  rewrite (incorrect_of_length y y_predict Hlen) in Hmiss.
  rewrite Hmiss, Rsum_repeat. field. lra.
Qed.

Lemma single_vote (yp : list Z) (ew : float64) (N : nat) :
  length yp = N ->
  preds_of [yp] [ew] N = Ok (map (fun p => fsign (np_sum [fmul (of_int p) ew])) yp).
Proof.
  intros Hlen. unfold preds_of.
  rewrite mapM_Ok_map with
    (g := fun point => fsign (np_sum [fmul (of_int (nth point yp 0%Z)) ew])).
  - f_equal. subst N.
    apply (map_nth_seq (fun p => fsign (np_sum [fmul (of_int p) ew])) yp 0%Z).
  - intros point Hp. apply in_seq in Hp. unfold vote_sum.
    rewrite column_Ok; [reflexivity | discriminate |].
    constructor; [lia | constructor].
Qed.

Lemma one_round {Row : Type} {L : WeakLearner Row} (X : list Row) (y : list Z)
    (lr e : float64) :
  length X = length y ->
  round_error (predict (fit X y (initial_weight (length y))) X) y
    (initial_weight (length y)) = Ok e ->
  let est := fit X y (initial_weight (length y)) in
  let ew := boost_estimator_weight lr e in
  Adaboost_scratch X y 1 lr =
  Ok (mkOutput
        ([est], [ew],
         [initial_weight (length y);
          boost_sample_weight ew (initial_weight (length y))
            (incorrect_of (predict est X) y)])
        [accuracy (map (fun p => fsign (np_sum [fmul (of_int p) ew])) (predict est X))
                  y (length y)]).
Proof.
  intros HX He. cbv zeta. unfold Adaboost_scratch. cbv zeta.
  cbn [boosting_rounds]. unfold boosting_round.
  cbn [init sample_weight estimator_list y_predict_list estimator_error_list
       estimator_weight_list sample_weight_list].
  unfold round_error in He. rewrite He. cbn [bind app].
  cbn [y_predict_list estimator_weight_list estimator_list sample_weight_list].
  rewrite single_vote by (rewrite predict_length; exact HX).
  reflexivity.
Qed.

Lemma accuracy_all (y : list Z) :
  (1 <= length y)%nat -> accuracy (map of_int y) y (length y) = Fin 1.
Proof.
  intros HN. rewrite accuracy_value by exact HN. f_equal.
  assert (Hall : Forall (fun b => b = true)
                   (zip_with (fun p t => feqb p (of_int t)) (map of_int y) y)).
  { clear HN. induction y as [| t y IH]; simpl; constructor; [| exact IH].
    apply Reqb_true. reflexivity. }
  unfold miscount. rewrite (filter_all_true _ Hall), zip_with_length, length_map, Nat.min_id.
  field. apply not_0_INR. lia.
Qed.

Lemma boost_all_correct (sw : list float64) (y : list Z) :
  length sw = length y ->
  boost_sample_weight PInf sw (map (fun _ => false) y) = map (fun _ => NaN) y.
Proof.
  unfold boost_sample_weight. revert sw.
  induction y as [| t y IH]; intros [| w sw] Hlen; simpl in Hlen; try discriminate.
  - reflexivity.
  - cbn [map zip_with]. rewrite boost_one_inf_correct. f_equal. apply IH. lia.
Qed.

(** X7.  A first learner that reproduces every label of a non-empty
    training set with labels in {1, -1} has error 0.  The call with one
    round then returns the confidence weight [inf] and a last snapshot of
    [nan] only, and still prints accuracy 1. *)
Theorem perfect_first_learner :
  forall (Row : Type) (L : WeakLearner Row) (X : list Row) (y : list Z) (lr : R),
    0 < lr -> (1 <= length y)%nat -> Forall binary_label y ->
    predict (fit X y (initial_weight (length y))) X = y ->
    exists out,
      Adaboost_scratch X y 1 (Fin lr) = Ok out /\
      returned out = ([fit X y (initial_weight (length y))], [PInf],
                      [initial_weight (length y); map (fun _ => NaN) y]) /\
      printed out = [Fin 1].
Proof.
  intros Row L X y lr Hlr HN Hy Hfit.
  assert (HX : length X = length y).
  { rewrite <- (predict_length (fit X y (initial_weight (length y))) X).
    f_equal. exact Hfit. }
  assert (He : round_error (predict (fit X y (initial_weight (length y))) X) y
                 (initial_weight (length y)) = Ok (Fin 0)).
  { rewrite Hfit, first_round_error by (exact HN || reflexivity).
    rewrite incorrect_of_self. f_equal. f_equal.
    unfold miscount. rewrite filter_all_false.
    - simpl. field. apply not_0_INR. lia.
    - apply Forall_forall. intros b Hb. apply in_map_iff in Hb.
      destruct Hb as [t [<- _]]. reflexivity. }
  pose proof (one_round X y (Fin lr) (Fin 0) HX He) as Hcall. cbv zeta in Hcall.
  rewrite boost_estimator_weight_zero in Hcall by exact Hlr.
  rewrite Hfit, incorrect_of_self in Hcall.
  rewrite boost_all_correct in Hcall by apply initial_weight_length.
  eexists. split; [exact Hcall |]. split; [reflexivity |].
  cbn [printed]. f_equal.
  rewrite <- (accuracy_all y HN). f_equal.
  apply map_ext_in. intros t Ht. rewrite Forall_forall in Hy.
  apply (sign_of_infinite_vote t (Hy t Ht)).
Qed.

Lemma perfect_first_learner_witness :
  exists out,
    Adaboost_scratch (L := MajorityLeaf.learner) Example.X1 Example.y1 1 (Fin 1) = Ok out /\
    returned out = ([fit Example.X1 Example.y1 (initial_weight 1)], [PInf],
                    [initial_weight 1; [NaN]]) /\
    printed out = [Fin 1].
Proof.
  apply (perfect_first_learner unit MajorityLeaf.learner Example.X1 Example.y1 1).
  - lra.
  - simpl. lia.
  - constructor; [left; reflexivity | constructor].
  - change (length Example.y1) with 1%nat. rewrite ExampleRun.initial_weight_1.
    change (fit Example.X1 Example.y1 [Fin 1])
      with (MajorityLeaf.leaf_fit Example.X1 Example.y1 [Fin 1]).
    rewrite ExampleRun.fit_1. reflexivity.
Defined.

(** X8.  The error of the first round is the plain fraction of
    misclassified examples: with the uniform initial weights the weighted
    average counts every example alike. *)
Theorem first_round_error_is_misclassified_fraction :
  forall (Row : Type) (L : WeakLearner Row) (X : list Row) (y : list Z)
         (lr : float64) (st : locals),
    (1 <= length y)%nat -> length X = length y ->
    boosting_rounds X y lr 1 (init (length y)) = Ok st ->
    exists y_predict,
      y_predict_list st = [y_predict] /\
      estimator_error_list st =
        [Fin (INR (miscount (incorrect_of y_predict y)) / INR (length y))] /\
      (miscount (incorrect_of y_predict y) <= length y)%nat.
Proof.
  intros Row L X y lr st HN HX Hst.
  cbn [boosting_rounds] in Hst. apply bind_Ok in Hst. destruct Hst as [st1 [Hr Hst]].
  ok_inj Hst. apply round_inv in Hr. cbv zeta in Hr. destruct Hr as [e [He ->]].
  cbn [init sample_weight y_predict_list estimator_error_list app] in *.
  assert (Hlen : length (predict (fit X y (initial_weight (length y))) X) = length y)
    by (rewrite predict_length; exact HX).
  rewrite first_round_error in He by assumption. ok_inj He.
  eexists. split; [reflexivity |]. split; [reflexivity |].
  rewrite <- (incorrect_of_length y _ Hlen) at 2. apply miscount_le.
Qed.

Lemma first_round_error_is_misclassified_fraction_witness :
  exists y_predict,
    y_predict_list Example.st3 = [y_predict] /\
    estimator_error_list Example.st3 =
      [Fin (INR (miscount (incorrect_of y_predict Example.y3)) / INR (length Example.y3))] /\
    (miscount (incorrect_of y_predict Example.y3) <= length Example.y3)%nat.
Proof.
  apply (first_round_error_is_misclassified_fraction unit MajorityLeaf.learner
           Example.X3 Example.y3 (Fin 1) Example.st3).
  - simpl. lia.
  - reflexivity.
  - exact ExampleRun.rounds_3.
Defined.

Lemma single_vote_value (p : Z) (a : R) :
  np_sum [fmul (of_int p) (Fin a)] = Fin (IZR p * a + 0).
Proof. reflexivity. Qed.

Lemma vote_follows_learner (p t : Z) (a : R) :
  0 < a -> binary_label p -> binary_label t ->
  feqb (fsign (np_sum [fmul (of_int p) (Fin a)])) (of_int t) = negb (negb (Z.eqb p t)).
Proof.
  intros Ha [-> | ->] [-> | ->]; rewrite single_vote_value; unfold fsign, of_int, feqb.
  - rewrite Rltb_true by lra. rewrite Reqb_true by reflexivity. reflexivity.
  - rewrite Rltb_true by lra. rewrite Reqb_false by lra. reflexivity.
  - rewrite Rltb_false by lra. rewrite Rltb_true by lra.
    rewrite Reqb_false by lra. reflexivity.
  - rewrite Rltb_false by lra. rewrite Rltb_true by lra.
    rewrite Reqb_true by reflexivity. reflexivity.
Qed.

Lemma vote_opposes_learner (p t : Z) (a : R) :
  a < 0 -> binary_label p -> binary_label t ->
  feqb (fsign (np_sum [fmul (of_int p) (Fin a)])) (of_int t) = negb (Z.eqb p t).
Proof.
  intros Ha [-> | ->] [-> | ->]; rewrite single_vote_value; unfold fsign, of_int, feqb.
  - rewrite Rltb_false by lra. rewrite Rltb_true by lra.
    rewrite Reqb_false by lra. reflexivity.
  - rewrite Rltb_false by lra. rewrite Rltb_true by lra.
    rewrite Reqb_true by reflexivity. reflexivity.
  - rewrite Rltb_true by lra. rewrite Reqb_true by reflexivity. reflexivity.
  - rewrite Rltb_true by lra. rewrite Reqb_false by lra. reflexivity.
Qed.

Lemma zip_with_map_ext {A A' B C D : Type} (f : A' -> B -> C) (g : A -> B -> D)
    (h : D -> C) (k : A -> A') (P : A -> Prop) (Q : B -> Prop) (a : list A) (b : list B) :
  (forall x y, P x -> Q y -> f (k x) y = h (g x y)) ->
  Forall P a -> Forall Q b ->
  zip_with f (map k a) b = map h (zip_with g a b).
Proof.
  intros Hfg Ha. revert b. induction Ha as [| x a Hx _ IH]; intros b Hb; [reflexivity |].
  destruct Hb as [| y0 b Hy Hb]; [reflexivity |].
  cbn [map zip_with]. f_equal; [apply Hfg; assumption | apply IH; exact Hb].
Qed.

Lemma map_id_ext {A : Type} (l : list A) : map (fun x => x) l = l.
Proof. apply map_id. Qed.

(** X9.  With one round, labels and predictions in {1, -1} and a first
    learner that misclassifies [k] of the [N] examples ([0 < k < N],
    [2k <> N]), the call completes and prints [max (k/N) (1 - k/N)]: the
    vote follows the learner when it is better than chance and opposes it
    when it is worse. *)
Theorem single_round_accuracy :
  forall (Row : Type) (L : WeakLearner Row) (X : list Row) (y : list Z) (lr : R)
         (y_predict : list Z) (k : nat),
    0 < lr -> length X = length y ->
    Forall binary_label y ->
    predict (fit X y (initial_weight (length y))) X = y_predict ->
    Forall binary_label y_predict ->
    miscount (incorrect_of y_predict y) = k ->
    (0 < k < length y)%nat -> (2 * k <> length y)%nat ->
    exists out,
      Adaboost_scratch X y 1 (Fin lr) = Ok out /\
      printed out = [Fin (Rmax (INR k / INR (length y)) (1 - INR k / INR (length y)))].
Proof.
  intros Row L X y lr yp k Hlr HX Hy Hfit Hyp Hk Hrange Hhalf.
  assert (HN : (1 <= length y)%nat) by lia.
  assert (HNpos : 0 < INR (length y)) by (apply lt_0_INR; lia).
  assert (Hlen : length yp = length y).
  { rewrite <- Hfit, predict_length. exact HX. }
  set (e := INR k / INR (length y)).
  assert (He01 : 0 < e < 1).
  { unfold e. split.
    - apply Rdiv_lt_0_compat; [apply lt_0_INR; lia | exact HNpos].
    - apply Rmult_lt_reg_r with (r := INR (length y)); [exact HNpos |].
      unfold Rdiv. rewrite Rmult_assoc, Rinv_l by lra. rewrite Rmult_1_r, Rmult_1_l.
      apply lt_INR. lia. }
  assert (Hne : e <> 1 / 2).
  { unfold e. intros E. apply Hhalf. apply INR_eq. rewrite mult_INR.
    apply (f_equal (fun x => x * INR (length y))) in E.
    unfold Rdiv in E. rewrite Rmult_assoc, Rinv_l in E by lra. simpl. lra. }
  assert (He : round_error (predict (fit X y (initial_weight (length y))) X) y
                 (initial_weight (length y)) = Ok (Fin e)).
  { rewrite Hfit, first_round_error by assumption. rewrite Hk. reflexivity. }
  pose proof (one_round X y (Fin lr) (Fin e) HX He) as Hcall. cbv zeta in Hcall.
  rewrite boost_estimator_weight_Fin in Hcall by exact He01.
  rewrite Hfit in Hcall.
  eexists. split; [exact Hcall |].
  cbn [printed]. f_equal. rewrite accuracy_value by exact HN. f_equal.
  set (a := lr * ln ((1 - e) / e)).
  assert (Hinc : length (incorrect_of yp y) = length y)
    by (apply incorrect_of_length; exact Hlen).
  destruct (confidence_sign lr e Hlr He01) as [Hpos Hneg].
  destruct (Rlt_or_le e (1 / 2)) as [Hlt | Hge].
  - rewrite Rmax_right by lra.
    unfold incorrect_of in *.
    rewrite (zip_with_map_ext (fun p t => feqb p (of_int t))
               (fun p t => negb (Z.eqb p t)) negb
               (fun p => fsign (np_sum [fmul (of_int p) (Fin a)]))
               binary_label binary_label yp y); [| | exact Hyp | exact Hy].
    2: { intros p t Hp Ht. apply vote_follows_learner; [apply Hpos; exact Hlt | |];
         assumption. }
    pose proof (miscount_negb (zip_with (fun p t => negb (Z.eqb p t)) yp y)) as Hc.
    rewrite Hinc, Hk in Hc.
    replace (miscount (map negb (zip_with (fun p t => negb (Z.eqb p t)) yp y)))
      with (length y - k)%nat by lia.
    rewrite minus_INR by lia. unfold e. field. lra.
  - assert (Hgt : 1 / 2 < e) by lra.
    rewrite Rmax_left by lra.
    unfold incorrect_of in *.
    rewrite (zip_with_map_ext (fun p t => feqb p (of_int t))
               (fun p t => negb (Z.eqb p t)) (fun b => b)
               (fun p => fsign (np_sum [fmul (of_int p) (Fin a)]))
               binary_label binary_label yp y); [| | exact Hyp | exact Hy].
    2: { intros p t Hp Ht. apply vote_opposes_learner; [apply Hneg; exact Hgt | |];
         assumption. }
    rewrite map_id_ext, Hk. reflexivity.
Qed.

Lemma single_round_accuracy_witness :
  exists out,
    Adaboost_scratch (L := MajorityLeaf.learner) Example.X3 Example.y3 1 (Fin 1) = Ok out /\
    printed out = [Fin (Rmax (INR 1 / INR (length Example.y3))
                             (1 - INR 1 / INR (length Example.y3)))].
Proof.
  apply (single_round_accuracy unit MajorityLeaf.learner Example.X3 Example.y3 1
           [1; 1; 1]%Z 1).
  - lra.
  - reflexivity.
  - repeat constructor; (left; reflexivity) || (right; reflexivity).
  - change (length Example.y3) with 3%nat. rewrite ExampleRun.initial_weight_3.
    change (fit Example.X3 Example.y3 (map Fin [Example.c3; Example.c3; Example.c3]))
      with (MajorityLeaf.leaf_fit Example.X3 Example.y3
              (map Fin [Example.c3; Example.c3; Example.c3])).
    rewrite ExampleRun.fit_3. reflexivity.
  - repeat constructor; left; reflexivity.
  - reflexivity.
  - simpl. lia.
  - simpl. lia.
Defined.

(** ** The weights bound the training error *)

Lemma vote_Fin (col : list Z) (alphas : list R) :
  np_sum (zip_with (fun p w => fmul (of_int p) w) col (map Fin alphas)) =
  Fin (Rsum (zip_with (fun p a => IZR p * a) col alphas)).
Proof.
  revert alphas. induction col as [| p col IH]; intros [| a alphas]; try reflexivity.
  cbn [map zip_with].
  change (np_sum (?x :: ?l)) with (fadd x (np_sum l)).
  rewrite IH. reflexivity.
Qed.

(** The margin of example [i]: its label times the vote is the sum of all
    confidence weights minus twice those of the rounds that missed it. *)
Lemma margin (y : list Z) (i : nat) (t : Z) (ypl : list (list Z)) (alphas : list R) :
  binary_label t ->
  Forall (fun yp => binary_label (nth i yp 0%Z) /\
                    nth i (incorrect_of yp y) false = negb (Z.eqb (nth i yp 0%Z) t)) ypl ->
  length ypl = length alphas ->
  IZR t * Rsum (zip_with (fun p a => IZR p * a) (map (fun row => nth i row 0%Z) ypl) alphas) =
  Rsum alphas - 2 * missed_confidence y ypl alphas i.
Proof.
  intros Ht Hrows. revert alphas. unfold missed_confidence.
  induction Hrows as [| yp ypl [Hp Hinc] _ IH]; intros [| a alphas] Hlen;
    simpl in Hlen; try discriminate.
  - simpl. lra.
  - cbn [map zip_with Rsum fold_right].
    change (fold_right Rplus 0 ?l) with (Rsum l).
    specialize (IH alphas ltac:(lia)). rewrite Hinc.
    destruct Hp as [Ep | Ep], Ht as [Et | Et]; rewrite Ep, Et in *; simpl negb; simpl IZR;
      nra.
Qed.

Lemma sign_agrees (t : Z) (v : R) :
  binary_label t -> 0 < IZR t * v -> feqb (fsign (Fin v)) (of_int t) = true.
Proof.
  intros [-> | ->] H; unfold fsign, of_int, feqb.
  - rewrite Rltb_true by lra. apply Reqb_true. reflexivity.
  - rewrite Rltb_false by lra. rewrite Rltb_true by lra. apply Reqb_true. reflexivity.
Qed.

Lemma Forall2_intro {A B : Type} (P : A -> B -> Prop) (l : list A) (l' : list B) :
  length l = length l' ->
  (forall i x v, nth_error l i = Some x -> nth_error l' i = Some v -> P x v) ->
  Forall2 P l l'.
Proof.
  revert l'. induction l as [| x l IH]; intros [| v l'] Hlen H; simpl in Hlen;
    try discriminate; constructor.
  - apply (H 0%nat); reflexivity.
  - apply IH; [lia |]. intros i x' v' Hx Hv. apply (H (S i)); assumption.
Qed.

Lemma sum_over_misses (d : R) (hits : list bool) (ws : list R) :
  Forall2 (fun (b : bool) w => (if b then 0 else d) <= w) hits ws ->
  (INR (length hits) - INR (miscount hits)) * d <= Rsum ws.
Proof.
  unfold miscount.
  induction 1 as [| b w hits ws Hb _ IH].
  - simpl. lra.
  - cbn [length filter Rsum fold_right]. change (fold_right Rplus 0 ws) with (Rsum ws).
    destruct b; cbn [length]; rewrite !S_INR; lra.
Qed.

Lemma current_weights {Row : Type} {L : WeakLearner Row} (X : list Row) (y : list Z)
    (lr : R) (M : nat) (st : locals) (f : nat -> R) :
  length X = length y ->
  boosting_rounds X y (Fin lr) M (init (length y)) = Ok st ->
  (forall i, (i < length y)%nat -> nth_error (sample_weight st) i = Some (Fin (f i))) ->
  sample_weight st = map Fin (map f (seq 0 (length y))).
Proof.
  intros HX Hst Hf.
  pose proof (rounds_recorded X y (Fin lr) _ _ _ Hst) as Hrec.
  pose proof (snapshot_length X y (Fin lr) M st HX Hrec M _
                (rec_current _ _ _ _ _ _ Hrec)) as Hlen.
  apply nth_error_ext. intros i. rewrite !nth_error_map, nth_error_seq.
  destruct (Nat.ltb_spec i (length y)) as [Hi | Hi].
  - rewrite (Hf i Hi). reflexivity.
  - apply nth_error_None. lia.
Qed.

Lemma error_bound_by_weights {Row : Type} {L : WeakLearner Row} (X : list Row)
    (y : list Z) (lr : R) (M : nat) (st : locals) (out : output) :
  length X = length y -> (1 <= length y)%nat ->
  Forall binary_label y ->
  boosting_rounds X y (Fin lr) M (init (length y)) = Ok st ->
  Forall proper_error (estimator_error_list st) ->
  Forall (Forall binary_label) (y_predict_list st) ->
  Adaboost_scratch X y M (Fin lr) = Ok out ->
  exists alphas ws acc,
    estimator_weight_list st = map Fin alphas /\
    sample_weight st = map Fin ws /\
    printed out = [Fin acc] /\
    1 - acc <= Rsum ws * exp (- Rsum alphas / 2).
Proof.
  intros HX HN Hy Hst Herr Hbin Hout.
  pose proof (rounds_recorded X y (Fin lr) _ _ _ Hst) as Hrec.
  apply Adaboost_scratch_inv in Hout. destruct Hout as [st' [preds [Hst' [Hp ->]]]].
  rewrite Hst in Hst'. apply Ok_inj in Hst'. subst st'.
  destruct (weight_closed_form X y lr M st HX Hst Herr) as [alphas [Hal Hw]].
  set (c := 1 / INR (length y)) in *.
  set (f := fun i => c * exp (missed_confidence y (y_predict_list st) alphas i)).
  pose proof (current_weights X y lr M st f HX Hst Hw) as Hws.
  set (hits := zip_with (fun p t => feqb p (of_int t)) preds y).
  destruct (preds_of_inv _ _ _ _ Hp) as [Hlen Hnth].
  assert (Hhits : length hits = length y).
  { subst hits. rewrite zip_with_length, Hlen. apply Nat.min_id. }
  assert (HNpos : 0 < INR (length y)) by (apply lt_0_INR; lia).
  assert (Hc : 0 < c) by (apply Rdiv_lt_0_compat; lra).
  exists alphas, (map f (seq 0 (length y))),
         (INR (miscount hits) / INR (length y)).
  split; [exact Hal |]. split; [exact Hws |].
  split; [cbn [printed]; rewrite accuracy_value by exact HN; reflexivity |].
  set (A := Rsum alphas).
  assert (Hsum : (INR (length hits) - INR (miscount hits)) * (c * exp (A / 2))
                 <= Rsum (map f (seq 0 (length y)))).
  { apply sum_over_misses. apply Forall2_intro.
    - rewrite length_map, length_seq. exact Hhits.
    - intros i b w Hb Hwi.
      apply nth_error_lt in Hb as Hi. rewrite Hhits in Hi.
      rewrite nth_error_map, nth_error_seq in Hwi.
      apply Nat.ltb_lt in Hi as Hi'. rewrite Hi' in Hwi. simpl in Hwi.
      apply Some_inj in Hwi. subst w. apply Nat.ltb_lt in Hi'.
      destruct b.
      + unfold f. apply Rlt_le. apply Rmult_lt_0_compat; [exact Hc | apply exp_pos].
      + unfold f. apply Rmult_le_compat_l; [lra |].
        subst hits. apply nth_zip_with_inv in Hb.
        destruct Hb as [p [t [Hip [Hit Hfalse]]]].
        destruct (Hnth i Hi) as [s [Hs Hps]]. rewrite Hip in Hps. some_inj Hps.
        unfold vote_sum in Hs. apply bind_Ok in Hs. destruct Hs as [col [Hcol Hs]].
        ok_inj Hs. apply column_inv in Hcol. destruct Hcol as [_ ->].
        rewrite Hal, vote_Fin in Hfalse.
        assert (Ht : binary_label t).
        { rewrite Forall_forall in Hy. apply Hy. eapply nth_error_In. exact Hit. }
        pose proof (margin y i t (y_predict_list st) alphas Ht) as Hm.
        assert (Hrows : Forall (fun yp => binary_label (nth i yp 0%Z) /\
                          nth i (incorrect_of yp y) false = negb (Z.eqb (nth i yp 0%Z) t))
                          (y_predict_list st)).
        { pose proof (recorded_rows X y (Fin lr) _ _ _ Hrec) as Hlens.
          rewrite Forall_forall in Hbin, Hlens |- *. intros yp Hyp.
          assert (Hiyp : (i < length yp)%nat) by (rewrite (Hlens yp Hyp), HX; exact Hi).
          split.
          - specialize (Hbin yp Hyp). rewrite Forall_forall in Hbin.
            apply Hbin. apply nth_In. exact Hiyp.
          - apply nth_error_nth.
            apply (nth_zip_with (fun p t : Z => negb (Z.eqb p t)) yp y i);
              [apply nth_error_nth'; exact Hiyp | exact Hit]. }
        specialize (Hm Hrows).
        rewrite (rec_predictions _ _ _ _ _ _ Hrec) in Hm.
        rewrite <- (rec_weights _ _ _ _ _ _ Hrec), Hal, length_map in Hm.
        specialize (Hm eq_refl). fold A in Hm.
        set (V := Rsum (zip_with (fun p a => IZR p * a)
                          (map (fun row => nth i row 0%Z) (y_predict_list st)) alphas)) in *.
        assert (Hle : IZR t * V <= 0).
        { destruct (Rle_or_lt (IZR t * V) 0) as [H | H]; [exact H |].
          rewrite (sign_agrees t V Ht H) in Hfalse. discriminate. }
        destruct (Rle_lt_or_eq_dec _ _ (ltac:(lra) :
                    A / 2 <= missed_confidence y (y_predict_list st) alphas i))
          as [Hlt | Heq].
        * apply Rlt_le. apply exp_increasing. exact Hlt.
        * rewrite Heq. lra. }
  rewrite Hhits in Hsum.
  assert (Hexp : exp (A / 2) * exp (- A / 2) = 1).
  { rewrite <- exp_plus. replace (A / 2 + - A / 2) with 0 by lra. apply exp_0. }
  assert (Hpos : 0 < exp (- A / 2)) by apply exp_pos.
  apply Rmult_le_compat_r with (r := exp (- A / 2)) in Hsum; [| lra].
  replace ((INR (length y) - INR (miscount hits)) * (c * exp (A / 2)) * exp (- A / 2))
    with ((INR (length y) - INR (miscount hits)) * c * (exp (A / 2) * exp (- A / 2)))
    in Hsum by ring.
  rewrite Hexp in Hsum. unfold c in Hsum.
  replace (1 - INR (miscount hits) / INR (length y))
    with ((INR (length y) - INR (miscount hits)) * (1 / INR (length y)) * 1)
    by (field; lra).
  exact Hsum.
Qed.

(** X13.  With labels and predictions in {1, -1} and every round's error
    strictly between 0 and 1, the fraction of training points that the
    final vote gets wrong is at most the sum of the final sample weights
    times [exp (- (sum of the confidence weights) / 2)]. *)
Theorem training_error_is_bounded_by_the_weights :
  forall (Row : Type) (L : WeakLearner Row) (X : list Row) (y : list Z)
         (lr : R) (M : nat) (st : locals) (out : output),
    length X = length y -> (1 <= length y)%nat ->
    Forall binary_label y ->
    boosting_rounds X y (Fin lr) M (init (length y)) = Ok st ->
    Forall proper_error (estimator_error_list st) ->
    Forall (Forall binary_label) (y_predict_list st) ->
    Adaboost_scratch X y M (Fin lr) = Ok out ->
    exists alphas ws acc,
      estimator_weight_list st = map Fin alphas /\
      sample_weight st = map Fin ws /\
      printed out = [Fin acc] /\
      1 - acc <= Rsum ws * exp (- Rsum alphas / 2).
Proof. intros Row L. exact (@error_bound_by_weights Row L). Qed.

Lemma training_error_is_bounded_by_the_weights_witness :
  exists alphas ws acc,
    estimator_weight_list Example.st3 = map Fin alphas /\
    sample_weight Example.st3 = map Fin ws /\
    printed Example.out3 = [Fin acc] /\
    1 - acc <= Rsum ws * exp (- Rsum alphas / 2).
Proof.
  apply (training_error_is_bounded_by_the_weights unit MajorityLeaf.learner
           Example.X3 Example.y3 1 1 Example.st3 Example.out3).
  - reflexivity.
  - simpl. lia.
  - repeat constructor; (left; reflexivity) || (right; reflexivity).
  - exact ExampleRun.rounds_3.
  - eapply Forall_impl; [apply no_worse_than_chance_proper | exact ExampleRun.errors_3].
  - repeat constructor; left; reflexivity.
  - exact ExampleRun.call_3.
Defined.

(** ** The default learning rate: the classical bound *)

Lemma confidence_exp (e : R) : 0 < e < 1 -> exp (1 * ln ((1 - e) / e)) = (1 - e) / e.
Proof.
  intros He. rewrite Rmult_1_l. apply exp_ln. apply Rdiv_lt_0_compat; lra.
Qed.

(** With learning rate 1, a round of error [e] multiplies the sum of the
    weights by [2 (1 - e)]. *)
Lemma round_total (inc : list bool) (ws : list R) (e : R) :
  length inc = length ws -> Rsum ws <> 0 -> 0 < e < 1 ->
  Rmiss inc ws / Rsum ws = e ->
  Rsum (zip_with (fun w (i : bool) => if i then w * exp (1 * ln ((1 - e) / e)) else w) ws inc)
  = 2 * (1 - e) * Rsum ws.
Proof.
  intros Hlen Hs He Hr. rewrite Rsum_boost by exact Hlen. rewrite confidence_exp by exact He.
  assert (Hmiss : Rmiss inc ws = e * Rsum ws) by (rewrite <- Hr; field; exact Hs).
  rewrite Hmiss. field. lra.
Qed.

Lemma round_factor_eq (e : R) :
  0 < e < 1 -> 2 * (1 - e) * exp (- (1 * ln ((1 - e) / e)) / 2) = round_factor e.
Proof.
  intros He. unfold round_factor.
  assert (Hq : 0 < e / (1 - e)) by (apply Rdiv_lt_0_compat; lra).
  assert (Hexp : exp (- (1 * ln ((1 - e) / e)) / 2) = sqrt (e / (1 - e))).
  { symmetry. apply sqrt_lem_1; [lra | apply Rlt_le, exp_pos |].
    rewrite <- exp_plus.
    replace (- (1 * ln ((1 - e) / e)) / 2 + - (1 * ln ((1 - e) / e)) / 2)
      with (- (1 * ln ((1 - e) / e))) by lra.
    rewrite exp_Ropp, confidence_exp by exact He. field. lra. }
  rewrite Hexp.
  replace (e * (1 - e)) with ((1 - e) * (1 - e) * (e / (1 - e))) by (field; lra).
  rewrite sqrt_mult by nra. rewrite sqrt_square by lra. ring.
Qed.

Lemma Rprod_snoc (l : list R) (x : R) : Rprod (l ++ [x]) = Rprod l * x.
Proof. unfold Rprod. induction l as [| a l IH]; simpl; [lra | rewrite IH; ring]. Qed.

(** X14.  With learning rate 1, a round whose error [e] is neither 0 nor 1
    multiplies the sum of the sample weights by exactly [2 (1 - e)]. *)
Theorem round_multiplies_total_weight :
  forall (y_predict y : list Z) (sample_weight : list float64) (e s : R),
    length y_predict = length y -> length sample_weight = length y ->
    Forall nonneg sample_weight -> np_sum sample_weight = Fin s ->
    round_error y_predict y sample_weight = Ok (Fin e) ->
    e <> 0 -> e <> 1 ->
    np_sum (boost_sample_weight (boost_estimator_weight (Fin 1) (Fin e)) sample_weight
              (incorrect_of y_predict y)) = Fin (2 * (1 - e) * s).
Proof.
  intros yp y sw e s Hyp Hlen Hsw Hsum Herr E0 E1.
  destruct (nonneg_reals sw Hsw) as [ws [-> Hws]].
  rewrite np_sum_Fin in Hsum.
  apply (f_equal (fun x => match x with Fin r => r | _ => 0 end)) in Hsum.
  cbv beta iota in Hsum.
  unfold round_error in Herr.
  assert (Hs0 : Rsum ws <> 0).
  { intros Hz. rewrite np_average_zero_weights in Herr by exact Hz. discriminate. }
  rewrite np_average_Fin in Herr by exact Hs0. apply Ok_inj in Herr.
  apply (f_equal (fun x => match x with Fin r => r | _ => 0 end)) in Herr.
  cbv beta iota in Herr.
  assert (Hspos : 0 < Rsum ws) by (pose proof (Rsum_nonneg ws Hws); lra).
  assert (Hb : 0 <= e <= 1).
  { rewrite <- Herr. apply ratio_bounds; [apply Rmiss_bounds; exact Hws | lra]. }
  assert (He : 0 < e < 1) by lra.
  assert (Hinc : length (incorrect_of yp y) = length ws).
  { rewrite (incorrect_of_length y yp Hyp). rewrite length_map in Hlen.
    symmetry. exact Hlen. }
  rewrite boost_estimator_weight_Fin by exact He.
  rewrite boost_sample_weight_Fin by exact Hws.
  rewrite np_sum_Fin. f_equal. rewrite <- Hsum.
  apply round_total; assumption.
Qed.

Lemma round_multiplies_total_weight_witness :
  np_sum (boost_sample_weight (boost_estimator_weight (Fin 1) (Fin Example.e3))
            (map Fin [Example.c3; Example.c3; Example.c3])
            (incorrect_of [1; 1; 1]%Z Example.y3))
  = Fin (2 * (1 - Example.e3) * Rsum [Example.c3; Example.c3; Example.c3]).
Proof.
  apply (round_multiplies_total_weight [1; 1; 1]%Z Example.y3
           (map Fin [Example.c3; Example.c3; Example.c3]) Example.e3
           (Rsum [Example.c3; Example.c3; Example.c3])).
  - reflexivity.
  - reflexivity.
  - exact ExampleRun.weights_3_nonneg.
  - apply np_sum_Fin.
  - exact ExampleRun.error_3.
  - pose proof ExampleRun.e3_proper. lra.
  - pose proof ExampleRun.e3_proper. lra.
Defined.

Lemma total_weight_invariant {Row : Type} {L : WeakLearner Row} (X : list Row)
    (y : list Z) (M : nat) (st : locals) :
  length X = length y -> (1 <= length y)%nat ->
  boosting_rounds X y (Fin 1) M (init (length y)) = Ok st ->
  Forall proper_error (estimator_error_list st) ->
  exists es alphas ws,
    estimator_error_list st = map Fin es /\
    estimator_weight_list st = map Fin alphas /\
    sample_weight st = map Fin ws /\
    Forall (fun e => 0 < e < 1) es /\
    Forall (fun w => 0 < w) ws /\ length ws = length y /\
    Rsum ws * exp (- Rsum alphas / 2) = Rprod (map round_factor es).
Proof.
  intros HX HN. revert st. induction M as [| M IH]; intros st Hst Herr.
  - simpl in Hst. ok_inj Hst.
    exists [], [], (repeat (1 / INR (length y)) (length y)).
    cbn [init estimator_error_list estimator_weight_list sample_weight].
    split; [reflexivity |]. split; [reflexivity |].
    split; [apply initial_weight_reals; exact HN |].
    split; [constructor |].
    assert (HNpos : 0 < INR (length y)) by (apply lt_0_INR; lia).
    split; [| split].
    + apply Forall_forall. intros w Hw. apply repeat_spec in Hw. subst w.
      apply Rdiv_lt_0_compat; lra.
    + apply repeat_length.
    + rewrite Rsum_repeat. unfold Rprod. simpl.
      replace (- 0 / 2) with 0 by lra. rewrite exp_0. field. lra.
  - rewrite rounds_snoc in Hst. apply bind_Ok in Hst. destruct Hst as [st0 [Hst0 Hr]].
    apply round_inv in Hr. cbv zeta in Hr. destruct Hr as [e [He Est]].
    rewrite Est in Herr |- *.
    cbn [estimator_error_list estimator_weight_list sample_weight] in *.
    apply Forall_app in Herr. destruct Herr as [Herr0 Hlast].
    inversion Hlast as [| e' l' Hpe _]; subst e' l'.
    destruct (IH st0 Hst0 Herr0) as [es [alphas [ws [Hes [Hal [Hws [Hes01 [Hpos [Hlen Hinv]]]]]]]]].
    destruct Hpe as [r [-> Hr]].
    rewrite Hws in He |- *.
    set (inc := incorrect_of (predict (fit X y (map Fin ws)) X) y) in *.
    assert (Hnn : Forall (fun w => 0 <= w) ws).
    { eapply Forall_impl; [| exact Hpos]. simpl. intros; lra. }
    assert (Hne : ws <> []).
    { intros E. rewrite E in Hlen. simpl in Hlen. lia. }
    assert (Hs0 : 0 < Rsum ws) by (apply Rsum_positive; assumption).
    unfold round_error in He. fold inc in He.
    rewrite np_average_Fin in He by lra. apply Ok_inj in He.
    apply (f_equal (fun x => match x with Fin r => r | _ => 0 end)) in He.
    cbv beta iota in He.
    assert (Hinc : length inc = length ws).
    { subst inc. rewrite incorrect_of_length; [symmetry; exact Hlen |].
      rewrite predict_length. exact HX. }
    rewrite boost_estimator_weight_Fin by exact Hr.
    rewrite boost_sample_weight_Fin by exact Hnn.
    set (a := 1 * ln ((1 - r) / r)).
    exists (es ++ [r]), (alphas ++ [a]),
           (zip_with (fun w (i : bool) => if i then w * exp a else w) ws inc).
    split; [rewrite map_app, Hes; reflexivity |].
    split; [rewrite map_app, Hal; reflexivity |].
    split; [reflexivity |].
    split; [apply Forall_app; split; [exact Hes01 | constructor; [exact Hr | constructor]] |].
    split; [| split].
    + apply Forall_zip_with. intros w i Hw _.
      rewrite Forall_forall in Hpos. specialize (Hpos w Hw).
      destruct i; [apply Rmult_lt_0_compat; [exact Hpos | apply exp_pos] | exact Hpos].
    + rewrite zip_with_length, Hinc, Nat.min_id. exact Hlen.
    + subst a. rewrite round_total by (assumption || lra).
      rewrite Rsum_snoc, map_app. cbn [map]. rewrite Rprod_snoc.
      rewrite <- Hinv, <- round_factor_eq by exact Hr.
      replace (- (Rsum alphas + 1 * ln ((1 - r) / r)) / 2)
        with (- Rsum alphas / 2 + - (1 * ln ((1 - r) / r)) / 2) by lra.
      rewrite exp_plus. ring.
Qed.

(** X15.  The classical bound of AdaBoost holds for the routine with its
    default learning rate 1: with labels and predictions in {1, -1} and
    every round's error [e_m] strictly between 0 and 1, the fraction of
    training points that the final vote gets wrong is at most the product
    of the factors [2 sqrt (e_m (1 - e_m))]. *)
Theorem training_error_is_bounded_by_the_round_errors :
  forall (Row : Type) (L : WeakLearner Row) (X : list Row) (y : list Z)
         (M : nat) (st : locals) (out : output),
    length X = length y -> (1 <= length y)%nat ->
    Forall binary_label y ->
    boosting_rounds X y (Fin 1) M (init (length y)) = Ok st ->
    Forall proper_error (estimator_error_list st) ->
    Forall (Forall binary_label) (y_predict_list st) ->
    Adaboost_scratch X y M (Fin 1) = Ok out ->
    exists es acc,
      estimator_error_list st = map Fin es /\
      printed out = [Fin acc] /\
      1 - acc <= Rprod (map round_factor es).
Proof.
  intros Row L X y M st out HX HN Hy Hst Herr Hbin Hout.
  destruct (error_bound_by_weights X y 1 M st out HX HN Hy Hst Herr Hbin Hout)
    as [alphas [ws [acc [Hal [Hws [Hpr Hle]]]]]].
  destruct (total_weight_invariant X y M st HX HN Hst Herr)
    as [es [alphas' [ws' [Hes [Hal' [Hws' [_ [_ [_ Hinv]]]]]]]]].
  rewrite Hal in Hal'. apply map_Fin_inj in Hal'. subst alphas'.
  rewrite Hws in Hws'. apply map_Fin_inj in Hws'. subst ws'.
  exists es, acc. split; [exact Hes |]. split; [exact Hpr |].
  rewrite <- Hinv. exact Hle.
Qed.

Lemma training_error_is_bounded_by_the_round_errors_witness :
  exists es acc,
    estimator_error_list Example.st3 = map Fin es /\
    printed Example.out3 = [Fin acc] /\
    1 - acc <= Rprod (map round_factor es).
Proof.
  apply (training_error_is_bounded_by_the_round_errors unit MajorityLeaf.learner
           Example.X3 Example.y3 1 Example.st3 Example.out3).
  - reflexivity.
  - simpl. lia.
  - repeat constructor; (left; reflexivity) || (right; reflexivity).
  - exact ExampleRun.rounds_3.
  - eapply Forall_impl; [apply no_worse_than_chance_proper | exact ExampleRun.errors_3].
  - repeat constructor; left; reflexivity.
  - exact ExampleRun.call_3.
Defined.

(** * Part V: the grid of [plot_decision_boundary] *)

Import Plot.

(** ** Lists *)

Lemma and_then_Done {A B : Type} (c : outcome A) (k : A -> outcome B) (b : B) :
  and_then c k = Done b -> exists a, c = Done a /\ k a = Done b.
Proof. destruct c as [a | e]; simpl; [intros H; exists a; auto | discriminate]. Qed.

Lemma Done_inj {A : Type} (a b : A) : Done a = Done b -> a = b.
Proof. intros H. injection H as H. exact H. Qed.

Lemma for_each_Done_inv {A B : Type} (f : A -> outcome B) (l : list A) (l' : list B) :
  for_each f l = Done l' -> Forall2 (fun x v => f x = Done v) l l'.
Proof.
  revert l'. induction l as [| x l IH]; intros l' H; simpl in H.
  - apply Done_inj in H. subst l'. constructor.
  - apply and_then_Done in H. destruct H as [v [Hv H]].
    apply and_then_Done in H. destruct H as [vs [Hvs H]].
    apply Done_inj in H. subst l'. constructor; [exact Hv | apply IH; exact Hvs].
Qed.

Lemma Forall2_nth {A B : Type} (P : A -> B -> Prop) (l : list A) (l' : list B) (i : nat) (x : A) :
  Forall2 P l l' -> nth_error l i = Some x -> exists v, nth_error l' i = Some v /\ P x v.
Proof.
  intros H. revert i. induction H as [| a b l l' Hab _ IH]; intros [| i] Hi; simpl in Hi;
    try discriminate.
  - apply Some_inj in Hi. subst a. exists b. split; [reflexivity | exact Hab].
  - apply IH. exact Hi.
Qed.

Lemma Forall2_same_length {A B : Type} (P : A -> B -> Prop) (l : list A) (l' : list B) :
  Forall2 P l l' -> length l = length l'.
Proof. induction 1; simpl; congruence. Qed.

Lemma combine_app_same {A B : Type} (a a' : list A) (b b' : list B) :
  length a = length b -> combine (a ++ a') (b ++ b') = combine a b ++ combine a' b'.
Proof.
  revert b. induction a as [| x a IH]; intros [| y b] H; simpl in *; try discriminate.
  - reflexivity.
  - f_equal. apply IH. lia.
Qed.

Lemma combine_constant {A B : Type} (a : list A) (v : B) :
  combine a (map (fun _ => v) a) = map (fun x => (x, v)) a.
Proof. induction a as [| x a IH]; simpl; [reflexivity | f_equal; exact IH]. Qed.

Lemma nth_error_concat_row {A : Type} (rows : list (list A)) (c i j : nat) (r : list A) :
  Forall (fun row => length row = c) rows ->
  nth_error rows i = Some r -> (j < c)%nat ->
  nth_error (concat rows) (i * c + j) = nth_error r j.
Proof.
  intros Hrows. revert i. induction Hrows as [| r0 rows Hr0 _ IH]; intros [| i] Hi Hj;
    simpl in Hi; try discriminate.
  - apply Some_inj in Hi. subst r0. simpl. apply nth_error_app1. lia.
  - cbn [concat]. rewrite nth_error_app2 by (simpl; lia).
    replace (S i * c + j - length r0)%nat with (i * c + j)%nat by (simpl; lia).
    apply IH; assumption.
Qed.

Lemma length_concat_rows {A : Type} (rows : list (list A)) (c : nat) :
  Forall (fun row => length row = c) rows -> length (concat rows) = (length rows * c)%nat.
Proof.
  induction 1 as [| r rows Hr _ IH]; simpl; [reflexivity |].
  rewrite length_app, IH, Hr. reflexivity.
Qed.

Lemma length_set_last (y : list float64) (stop : float64) :
  y <> [] -> length (set_last y stop) = length y.
Proof.
  intros Hy. unfold set_last. rewrite length_app. simpl.
  rewrite (app_removelast_last stop Hy) at 2. rewrite length_app. reflexivity.
Qed.

(** ** The reshaped array *)

Lemma length_rows_of (r c : nat) (l : list float64) : length (rows_of r c l) = r.
Proof.
  revert l. induction r as [| r IH]; intros l; simpl; [reflexivity |].
  rewrite IH. reflexivity.
Qed.

Lemma rows_of_rows (r c : nat) (l : list float64) :
  length l = (r * c)%nat -> Forall (fun row => length row = c) (rows_of r c l).
Proof.
  revert l. induction r as [| r IH]; intros l Hl; simpl; constructor.
  - rewrite length_firstn. simpl in Hl. lia.
  - apply IH. rewrite length_skipn. simpl in Hl. lia.
Qed.

Lemma entry_rows_of (r c : nat) (l : list float64) (i j : nat) :
  (i < r)%nat -> (j < c)%nat -> entry (rows_of r c l) i j = nth_error l (i * c + j).
Proof.
  unfold entry. revert l i. induction r as [| r IH]; intros l [| i] Hi Hj; try lia.
  - simpl. rewrite nth_error_firstn. apply Nat.ltb_lt in Hj. rewrite Hj. reflexivity.
  - cbn [rows_of nth_error]. rewrite IH by lia. rewrite nth_error_skipn.
    f_equal. simpl. lia.
Qed.

(** ** The mesh *)

Lemma length_linspace (start stop : float64) (num : nat) :
  length (np_linspace start stop num) = num.
Proof.
  unfold np_linspace. cbv zeta.
  set (y := map (fun v => fadd v start) _).
  assert (Hy : length y = num).
  { subst y. rewrite length_map.
    destruct (0 <? num - 1)%nat; [destruct (feqb _ _) |];
      rewrite !length_map, length_seq; reflexivity. }
  destruct (1 <? num)%nat eqn:Hn; [| exact Hy].
  apply Nat.ltb_lt in Hn. rewrite length_set_last; [exact Hy |].
  intros E. rewrite E in Hy. simpl in Hy. lia.
Qed.

Lemma entry_mesh_x (x y : list float64) (i j : nat) (v : float64) :
  nth_error y i = Some v -> entry (fst (np_meshgrid x y)) i j = nth_error x j.
Proof.
  intros Hi. unfold entry, np_meshgrid. cbn [fst].
  rewrite nth_error_map, Hi. reflexivity.
Qed.

Lemma entry_mesh_y (x y : list float64) (i j : nat) (v u : float64) :
  nth_error y i = Some v -> nth_error x j = Some u ->
  entry (snd (np_meshgrid x y)) i j = Some v.
Proof.
  intros Hi Hj. unfold entry, np_meshgrid. cbn [snd].
  rewrite nth_error_map, Hi. cbn [option_map].
  rewrite nth_error_map, Hj. reflexivity.
Qed.

Lemma mesh_points (x y : list float64) :
  combine (np_ravel (fst (np_meshgrid x y))) (np_ravel (snd (np_meshgrid x y))) =
  concat (map (fun v => map (fun u => (u, v)) x) y).
Proof.
  unfold np_ravel, np_meshgrid. cbn [fst snd].
  induction y as [| v y IH]; [reflexivity |].
  cbn [map concat]. rewrite combine_app_same by (rewrite length_map; reflexivity).
  rewrite combine_constant, IH. reflexivity.
Qed.

Lemma mesh_point_at (x y : list float64) (i j : nat) (u v : float64) :
  nth_error y i = Some v -> nth_error x j = Some u ->
  nth_error (concat (map (fun v => map (fun u => (u, v)) x) y)) (i * length x + j) =
  Some (u, v).
Proof.
  intros Hi Hj.
  rewrite (nth_error_concat_row _ (length x) i j (map (fun u => (u, v)) x)).
  - rewrite nth_error_map, Hj. reflexivity.
  - apply Forall_forall. intros row Hrow. apply in_map_iff in Hrow.
    destruct Hrow as [v' [<- _]]. apply length_map.
  - rewrite nth_error_map, Hi. reflexivity.
  - apply nth_error_lt in Hj. exact Hj.
Qed.

Lemma length_mesh_points (x y : list float64) :
  length (concat (map (fun v => map (fun u => (u, v)) x) y)) = (length y * length x)%nat.
Proof.
  rewrite (length_concat_rows _ (length x)).
  - rewrite length_map. reflexivity.
  - apply Forall_forall. intros row Hrow. apply in_map_iff in Hrow.
    destruct Hrow as [v' [<- _]]. apply length_map.
Qed.

Lemma shape_mesh (x y : list float64) :
  length x = length y ->
  shape (fst (np_meshgrid x y)) = (length y, length x).
Proof.
  intros H. unfold shape, np_meshgrid. cbn [fst]. rewrite length_map.
  destruct y as [| v y]; simpl; [| reflexivity].
  destruct x; [reflexivity | discriminate].
Qed.

(** ** The classifier *)

Lemma answers_eq (c : classifier) (pts : list (float64 * float64)) :
  answers c pts = for_each (answer c) pts.
Proof.
  unfold answers, answer. destruct (decision_function c) as [f |]; [reflexivity |].
  destruct (predict_proba c) as [f |]; [reflexivity |].
  destruct (call c) as [f |]; reflexivity.
Qed.

Lemma answers_inv (c : classifier) (pts : list (float64 * float64))
    (rows : list (list float64)) :
  answers c pts = Done rows -> Forall2 (fun p a => answer c p = Done a) pts rows.
Proof. rewrite answers_eq. apply for_each_Done_inv. Qed.

Lemma forallb_length (k : nat) (rows : list (list float64)) :
  forallb (fun r' => (length r' =? k)%nat) rows = true <->
  Forall (fun r => length r = k) rows.
Proof.
  rewrite forallb_forall, Forall_forall. split; intros H r Hr.
  - apply Nat.eqb_eq. apply H. exact Hr.
  - apply Nat.eqb_eq. apply H. exact Hr.
Qed.

Lemma np_array_inv (rows : list (list float64)) (zz : list float64) :
  np_array rows = Done zz ->
  zz = concat rows /\ exists k, Forall (fun r => length r = k) rows.
Proof.
  unfold np_array. destruct rows as [| r rows].
  - intros H. apply Done_inj in H. subst zz. split; [reflexivity |].
    exists 0%nat. constructor.
  - destruct (forallb _ (r :: rows)) eqn:E; [| discriminate].
    intros H. apply Done_inj in H. subst zz. split; [reflexivity |].
    exists (length r). apply forallb_length. exact E.
Qed.

Lemma np_array_uniform (k : nat) (rows : list (list float64)) :
  Forall (fun r => length r = k) rows -> np_array rows = Done (concat rows).
Proof.
  intros H. unfold np_array. destruct rows as [| r rows]; [reflexivity |].
  assert (Hr : length r = k) by (inversion H; assumption).
  rewrite Hr. rewrite (proj2 (forallb_length k (r :: rows)) H). reflexivity.
Qed.

(** What a completed call has computed. *)
Lemma plot_inv (c : classifier) (X : list (float64 * float64)) (N : nat)
    (xx yy Z : list (list float64)) :
  plot_decision_boundary c X N = Done (xx, yy, Z) ->
  exists lo0 hi0 lo1 hi1 rows zz,
    np_min (map fst X) = Done lo0 /\ np_max (map fst X) = Done hi0 /\
    np_min (map snd X) = Done lo1 /\ np_max (map snd X) = Done hi1 /\
    let xs := np_linspace (fsub lo0 (Fin (1 / 10))) (fadd hi0 (Fin (1 / 10))) N in
    let ys := np_linspace (fsub lo1 (Fin (1 / 10))) (fadd hi1 (Fin (1 / 10))) N in
    xx = fst (np_meshgrid xs ys) /\ yy = snd (np_meshgrid xs ys) /\
    answers c (concat (map (fun v => map (fun u => (u, v)) xs) ys)) = Done rows /\
    np_array rows = Done zz /\
    length zz = (N * N)%nat /\
    Z = rows_of N N zz.
Proof.
  unfold plot_decision_boundary. intros H.
  apply and_then_Done in H. destruct H as [lo0 [H0 H]].
  apply and_then_Done in H. destruct H as [hi0 [H1 H]].
  apply and_then_Done in H. destruct H as [lo1 [H2 H]].
  apply and_then_Done in H. destruct H as [hi1 [H3 H]].
  cbv zeta in H.
  set (xs := np_linspace (fsub lo0 (Fin (1 / 10))) (fadd hi0 (Fin (1 / 10))) N) in *.
  set (ys := np_linspace (fsub lo1 (Fin (1 / 10))) (fadd hi1 (Fin (1 / 10))) N) in *.
  assert (Hxs : length xs = N) by apply length_linspace.
  assert (Hys : length ys = N) by apply length_linspace.
  pose proof (mesh_points xs ys) as Hpts.
  pose proof (shape_mesh xs ys ltac:(congruence)) as Hshape.
  destruct (np_meshgrid xs ys) as [xx0 yy0] eqn:Hmesh. cbn [fst snd] in *.
  apply and_then_Done in H. destruct H as [rows [Hrows H]].
  apply and_then_Done in H. destruct H as [zz [Hzz H]].
  apply and_then_Done in H. destruct H as [Z0 [HZ H]].
  apply Done_inj in H. injection H as -> -> ->.
  rewrite Hpts in Hrows. rewrite Hshape, Hxs, Hys in HZ.
  unfold np_reshape in HZ. cbn [fst snd] in HZ.
  destruct (length zz =? N * N)%nat eqn:Hlen; [| discriminate].
  apply Nat.eqb_eq in Hlen. apply Done_inj in HZ.
  exists lo0, hi0, lo1, hi1, rows, zz. cbv zeta. fold xs ys.
  split; [exact H0 |]. split; [exact H1 |]. split; [exact H2 |]. split; [exact H3 |].
  rewrite Hmesh. cbn [fst snd].
  split; [reflexivity |]. split; [reflexivity |]. split; [exact Hrows |].
  split; [exact Hzz |]. split; [exact Hlen | symmetry; exact HZ].
Qed.

(** X10.  Whenever the function gets as far as drawing, the three arrays
    are [N x N] and aligned: there are [N] abscissas [xs] and [N] ordinates
    [ys] such that [xx[i, j] = xs[j]], [yy[i, j] = ys[i]] and [Z[i, j]] is
    the value the classifier gives at the point [(xs[j], ys[i])]. *)
Theorem grid_values_belong_to_grid_points :
  forall (c : classifier) (X : list (float64 * float64)) (N : nat)
         (xx yy Z : list (list float64)),
    plot_decision_boundary c X N = Done (xx, yy, Z) ->
    exists xs ys,
      length xs = N /\ length ys = N /\
      length xx = N /\ length yy = N /\ length Z = N /\
      Forall (fun row => length row = N) Z /\
      forall i j x v, nth_error ys i = Some v -> nth_error xs j = Some x ->
        entry xx i j = Some x /\ entry yy i j = Some v /\
        exists z, entry Z i j = Some z /\ score c (x, v) = Done z.
Proof.
  intros c X N xx yy Z H.
  destruct (plot_inv c X N xx yy Z H)
    as [lo0 [hi0 [lo1 [hi1 [rows [zz [_ [_ [_ [_ Hrest]]]]]]]]]].
  cbv zeta in Hrest.
  set (xs := np_linspace (fsub lo0 (Fin (1 / 10))) (fadd hi0 (Fin (1 / 10))) N) in *.
  set (ys := np_linspace (fsub lo1 (Fin (1 / 10))) (fadd hi1 (Fin (1 / 10))) N) in *.
  destruct Hrest as [-> [-> [Hrows [Hzz [Hlen ->]]]]].
  assert (Hxs : length xs = N) by apply length_linspace.
  assert (Hys : length ys = N) by apply length_linspace.
  exists xs, ys. split; [exact Hxs |]. split; [exact Hys |].
  split; [unfold np_meshgrid; cbn [fst]; rewrite length_map; exact Hys |].
  split; [unfold np_meshgrid; cbn [snd]; rewrite length_map; exact Hys |].
  split; [apply length_rows_of |].
  split; [apply rows_of_rows; exact Hlen |].
  intros i j x v Hi Hj.
  split; [rewrite (entry_mesh_x xs ys i j v Hi); exact Hj |].
  split; [exact (entry_mesh_y xs ys i j v x Hi Hj) |].
  apply nth_error_lt in Hi as Hi'. apply nth_error_lt in Hj as Hj'.
  rewrite entry_rows_of by lia.
  pose proof (mesh_point_at xs ys i j x v Hi Hj) as Hp. rewrite Hxs in Hp.
  pose proof (answers_inv c _ rows Hrows) as Hall.
  destruct (Forall2_nth _ _ _ _ _ Hall Hp) as [a [Ha Hs]].
  apply np_array_inv in Hzz. destruct Hzz as [-> [k Hk]].
  assert (Hcount : length rows = (N * N)%nat).
  { rewrite <- (Forall2_same_length _ _ _ Hall), length_mesh_points, Hxs, Hys.
    reflexivity. }
  assert (Hk1 : k = 1%nat).
  { rewrite (length_concat_rows rows k Hk), Hcount in Hlen. nia. }
  subst k.
  assert (Ha1 : length a = 1%nat).
  { rewrite Forall_forall in Hk. apply Hk. eapply nth_error_In. exact Ha. }
  destruct a as [| z [| z' a]]; try discriminate.
  exists z. split.
  - replace (i * N + j)%nat with ((i * N + j) * 1 + 0)%nat by lia.
    rewrite (nth_error_concat_row rows 1 (i * N + j) 0 [z] Hk Ha) by lia. reflexivity.
  - unfold score. rewrite Hs. reflexivity.
Qed.

(** ** Finite data *)

Lemma fmin_Fin (a b : R) : fmin (Fin a) (Fin b) = Fin (Rmin a b).
Proof.
  unfold fmin, fltb. destruct (Rlt_dec b a) as [H | H].
  - rewrite Rltb_true by exact H. rewrite Rmin_right by lra. reflexivity.
  - rewrite Rltb_false by exact H. rewrite Rmin_left by lra. reflexivity.
Qed.

Lemma fmax_Fin (a b : R) : fmax (Fin a) (Fin b) = Fin (Rmax a b).
Proof.
  unfold fmax, fltb. destruct (Rlt_dec a b) as [H | H].
  - rewrite Rltb_true by exact H. rewrite Rmax_right by lra. reflexivity.
  - rewrite Rltb_false by exact H. rewrite Rmax_left by lra. reflexivity.
Qed.

Lemma fold_fmin_Fin (l : list R) (a : R) :
  fold_left fmin (map Fin l) (Fin a) = Fin (fold_left Rmin l a).
Proof.
  revert a. induction l as [| x l IH]; intros a; [reflexivity |].
  cbn [map fold_left]. rewrite fmin_Fin. apply IH.
Qed.

Lemma fold_fmax_Fin (l : list R) (a : R) :
  fold_left fmax (map Fin l) (Fin a) = Fin (fold_left Rmax l a).
Proof.
  revert a. induction l as [| x l IH]; intros a; [reflexivity |].
  cbn [map fold_left]. rewrite fmax_Fin. apply IH.
Qed.

Lemma fold_Rmin_spec (l : list R) (a : R) :
  (forall x, In x (a :: l) -> fold_left Rmin l a <= x) /\ In (fold_left Rmin l a) (a :: l).
Proof.
  revert a. induction l as [| y l IH]; intros a.
  - simpl. split; [intros x [<- | []]; lra | left; reflexivity].
  - cbn [fold_left]. destruct (IH (Rmin a y)) as [Hle Hin]. split.
    + intros x [<- | [<- | Hx]].
      * apply Rle_trans with (Rmin a y); [apply Hle; left; reflexivity | apply Rmin_l].
      * apply Rle_trans with (Rmin a y); [apply Hle; left; reflexivity | apply Rmin_r].
      * apply Hle. right. exact Hx.
    + destruct Hin as [Hin | Hin].
      * rewrite <- Hin. destruct (Rle_dec a y) as [H | H].
        -- rewrite Rmin_left by exact H. left. reflexivity.
        -- rewrite Rmin_right by lra. right. left. reflexivity.
      * right. right. exact Hin.
Qed.

Lemma fold_Rmax_spec (l : list R) (a : R) :
  (forall x, In x (a :: l) -> x <= fold_left Rmax l a) /\ In (fold_left Rmax l a) (a :: l).
Proof.
  revert a. induction l as [| y l IH]; intros a.
  - simpl. split; [intros x [<- | []]; lra | left; reflexivity].
  - cbn [fold_left]. destruct (IH (Rmax a y)) as [Hle Hin]. split.
    + intros x [<- | [<- | Hx]].
      * apply Rle_trans with (Rmax a y); [apply Rmax_l | apply Hle; left; reflexivity].
      * apply Rle_trans with (Rmax a y); [apply Rmax_r | apply Hle; left; reflexivity].
      * apply Hle. right. exact Hx.
    + destruct Hin as [Hin | Hin].
      * rewrite <- Hin. destruct (Rle_dec a y) as [H | H].
        -- rewrite Rmax_right by exact H. right. left. reflexivity.
        -- rewrite Rmax_left by lra. left. reflexivity.
      * right. right. exact Hin.
Qed.

(** The minimum and the maximum of a non-empty array of finite values are
    entries of the array that bound all the others. *)
Lemma np_min_Fin (l : list R) (m : float64) :
  np_min (map Fin l) = Done m ->
  exists r, m = Fin r /\ In r l /\ forall x, In x l -> r <= x.
Proof.
  destruct l as [| a l]; [discriminate |]. cbn [map np_min]. intros H.
  apply Done_inj in H. rewrite fold_fmin_Fin in H.
  destruct (fold_Rmin_spec l a) as [Hle Hin].
  exists (fold_left Rmin l a). split; [symmetry; exact H |]. split; assumption.
Qed.

Lemma np_max_Fin (l : list R) (m : float64) :
  np_max (map Fin l) = Done m ->
  exists r, m = Fin r /\ In r l /\ forall x, In x l -> x <= r.
Proof.
  destruct l as [| a l]; [discriminate |]. cbn [map np_max]. intros H.
  apply Done_inj in H. rewrite fold_fmax_Fin in H.
  destruct (fold_Rmax_spec l a) as [Hle Hin].
  exists (fold_left Rmax l a). split; [symmetry; exact H |]. split; assumption.
Qed.

Lemma points_fst (pts : list (R * R)) : map fst (points pts) = map Fin (map fst pts).
Proof. unfold points. rewrite !map_map. reflexivity. Qed.

Lemma points_snd (pts : list (R * R)) : map snd (points pts) = map Fin (map snd pts).
Proof. unfold points. rewrite !map_map. reflexivity. Qed.

(** With at least two points and finite ends, [np.linspace] is the evenly
    spaced sequence from [start] to [stop]. *)
Lemma linspace_Fin (a b : R) (num : nat) :
  (2 <= num)%nat ->
  np_linspace (Fin a) (Fin b) num =
  map (fun j => Fin (a + INR j * (b - a) / INR (num - 1))) (seq 0 num).
Proof.
  intros Hnum. unfold np_linspace. cbv zeta.
  destruct num as [| n]; [lia |]. replace (S n - 1)%nat with n by lia.
  assert (Hn : (1 <= n)%nat) by lia.
  assert (Hn0 : INR n <> 0) by (apply not_0_INR; lia).
  assert (H0 : (0 <? n)%nat = true) by (apply Nat.ltb_lt; lia).
  assert (H1 : (1 <? S n)%nat = true) by (apply Nat.ltb_lt; lia).
  rewrite H0, H1.
  change (fsub (Fin b) (Fin a)) with (Fin (b + - a)).
  change (fdiv (Fin (b + - a)) (of_nat n)) with (fdiv (Fin (b + - a)) (Fin (INR n))).
  rewrite !fdiv_Fin by exact Hn0.
  assert (Hmap : forall l,
    map (fun v => fadd v (Fin a))
      (if feqb (Fin ((b + - a) / INR n)) (Fin 0)
       then map (fun v => fmul (fdiv v (of_nat n)) (Fin (b + - a))) (map of_nat l)
       else map (fun v => fmul v (Fin ((b + - a) / INR n))) (map of_nat l)) =
    map (fun j => Fin (a + INR j * (b - a) / INR n)) l).
  { intros l. destruct (feqb _ _); rewrite !map_map; apply map_ext; intros j;
      unfold of_nat; [rewrite fdiv_Fin by exact Hn0 |];
      rewrite fmul_Fin, fadd_Fin; f_equal; field; exact Hn0. }
  rewrite Hmap. unfold set_last. rewrite seq_S, !map_app. cbn [map].
  rewrite removelast_last. f_equal. f_equal. f_equal. simpl. field. exact Hn0.
Qed.

Lemma nth_error_linspace (a b : R) (num j : nat) :
  (2 <= num)%nat -> (j < num)%nat ->
  nth_error (np_linspace (Fin a) (Fin b) num) j =
  Some (Fin (a + INR j * (b - a) / INR (num - 1))).
Proof.
  intros Hnum Hj. rewrite linspace_Fin by exact Hnum.
  rewrite nth_error_map, nth_error_seq. apply Nat.ltb_lt in Hj. rewrite Hj. reflexivity.
Qed.

(** X11.  For finite data and [N >= 2], a call that gets as far as drawing
    has laid an evenly spaced grid over the bounding box of the data,
    enlarged by 0.1 on every side: [xx[i, j]] runs from [x_min] (at
    [j = 0]) to [x_max] (at [j = N - 1]) in equal steps, [yy[i, j]] from
    [y_min] to [y_max] with [i], every data point is at least 0.1 inside the
    box, and on each side some data point is exactly 0.1 inside. *)
Theorem grid_spans_the_data_with_margin :
  forall (c : classifier) (pts : list (R * R)) (N : nat)
         (xx yy Z : list (list float64)),
    (2 <= N)%nat ->
    plot_decision_boundary c (points pts) N = Done (xx, yy, Z) ->
    exists x_min x_max y_min y_max : R,
      (forall p, In p pts ->
         x_min + 1 / 10 <= fst p <= x_max - 1 / 10 /\
         y_min + 1 / 10 <= snd p <= y_max - 1 / 10) /\
      (exists p, In p pts /\ fst p = x_min + 1 / 10) /\
      (exists p, In p pts /\ fst p = x_max - 1 / 10) /\
      (exists p, In p pts /\ snd p = y_min + 1 / 10) /\
      (exists p, In p pts /\ snd p = y_max - 1 / 10) /\
      forall i j, (i < N)%nat -> (j < N)%nat ->
        entry xx i j = Some (Fin (x_min + INR j * (x_max - x_min) / INR (N - 1))) /\
        entry yy i j = Some (Fin (y_min + INR i * (y_max - y_min) / INR (N - 1))).
Proof.
  intros c pts N xx yy Z HN H.
  destruct (plot_inv c (points pts) N xx yy Z H)
    as [lo0 [hi0 [lo1 [hi1 [rows [zz [H0 [H1 [H2 [H3 Hrest]]]]]]]]]].
  cbv zeta in Hrest. destruct Hrest as [-> [-> _]].
  rewrite points_fst in H0, H1. rewrite points_snd in H2, H3.
  destruct (np_min_Fin _ _ H0) as [a0 [-> [Ha0 Hle0]]].
  destruct (np_max_Fin _ _ H1) as [b0 [-> [Hb0 Hge0]]].
  destruct (np_min_Fin _ _ H2) as [a1 [-> [Ha1 Hle1]]].
  destruct (np_max_Fin _ _ H3) as [b1 [-> [Hb1 Hge1]]].
  change (fsub (Fin a0) (Fin (1 / 10))) with (Fin (a0 + - (1 / 10))).
  change (fsub (Fin a1) (Fin (1 / 10))) with (Fin (a1 + - (1 / 10))).
  rewrite !fadd_Fin.
  exists (a0 + - (1 / 10)), (b0 + 1 / 10), (a1 + - (1 / 10)), (b1 + 1 / 10).
  split.
  { intros p Hp.
    pose proof (Hle0 (fst p) (in_map fst pts p Hp)).
    pose proof (Hge0 (fst p) (in_map fst pts p Hp)).
    pose proof (Hle1 (snd p) (in_map snd pts p Hp)).
    pose proof (Hge1 (snd p) (in_map snd pts p Hp)). lra. }
  split.
  { apply in_map_iff in Ha0. destruct Ha0 as [p [E Hp]]. exists p. split; [exact Hp | lra]. }
  split.
  { apply in_map_iff in Hb0. destruct Hb0 as [p [E Hp]]. exists p. split; [exact Hp | lra]. }
  split.
  { apply in_map_iff in Ha1. destruct Ha1 as [p [E Hp]]. exists p. split; [exact Hp | lra]. }
  split.
  { apply in_map_iff in Hb1. destruct Hb1 as [p [E Hp]]. exists p. split; [exact Hp | lra]. }
  intros i j Hi Hj.
  pose proof (nth_error_linspace (a0 + - (1 / 10)) (b0 + 1 / 10) N j HN Hj) as Hxj.
  pose proof (nth_error_linspace (a1 + - (1 / 10)) (b1 + 1 / 10) N i HN Hi) as Hyi.
  split.
  - rewrite (entry_mesh_x _ _ i j _ Hyi). exact Hxj.
  - exact (entry_mesh_y _ _ i j _ _ Hyi Hxj).
Qed.

(** ** When the grid is computed *)

Lemma np_min_Done (a : list float64) : a <> [] -> exists m, np_min a = Done m.
Proof. destruct a as [| x a]; [contradiction | intros _; eexists; reflexivity]. Qed.

Lemma np_max_Done (a : list float64) : a <> [] -> exists m, np_max a = Done m.
Proof. destruct a as [| x a]; [contradiction | intros _; eexists; reflexivity]. Qed.

Lemma map_not_nil {A B : Type} (f : A -> B) (l : list A) : l <> [] -> map f l <> [].
Proof. destruct l; [contradiction | discriminate]. Qed.

(** The call in terms of the points of the mesh. *)
Lemma plot_eq (c : classifier) (X : list (float64 * float64)) (N : nat)
    (lo0 hi0 lo1 hi1 : float64) :
  np_min (map fst X) = Done lo0 -> np_max (map fst X) = Done hi0 ->
  np_min (map snd X) = Done lo1 -> np_max (map snd X) = Done hi1 ->
  let xs := np_linspace (fsub lo0 (Fin (1 / 10))) (fadd hi0 (Fin (1 / 10))) N in
  let ys := np_linspace (fsub lo1 (Fin (1 / 10))) (fadd hi1 (Fin (1 / 10))) N in
  plot_decision_boundary c X N =
  (rows <~ for_each (answer c) (concat (map (fun v => map (fun u => (u, v)) xs) ys)) ;;
   zz <~ np_array rows ;;
   Z <~ np_reshape zz (N, N) ;;
   Done (fst (np_meshgrid xs ys), snd (np_meshgrid xs ys), Z)).
Proof.
  intros H0 H1 H2 H3. cbv zeta. unfold plot_decision_boundary.
  rewrite H0, H1, H2, H3. cbn [and_then].
  set (xs := np_linspace (fsub lo0 (Fin (1 / 10))) (fadd hi0 (Fin (1 / 10))) N).
  set (ys := np_linspace (fsub lo1 (Fin (1 / 10))) (fadd hi1 (Fin (1 / 10))) N).
  assert (Hxs : length xs = N) by apply length_linspace.
  assert (Hys : length ys = N) by apply length_linspace.
  pose proof (mesh_points xs ys) as Hpts.
  pose proof (shape_mesh xs ys ltac:(congruence)) as Hshape.
  destruct (np_meshgrid xs ys) as [xx0 yy0]. cbn [fst snd] in *.
  rewrite Hpts, Hshape, Hxs, Hys, answers_eq. reflexivity.
Qed.

Lemma for_each_raises {A B : Type} (f : A -> outcome B) (e : error) (l : list A) :
  l <> [] -> (forall x, f x = Raised e) -> for_each f l = Raised e.
Proof.
  destruct l as [| x l]; [contradiction |]. intros _ H. simpl. rewrite H. reflexivity.
Qed.

Lemma for_each_Done {A B : Type} (f : A -> outcome B) (l : list A) :
  (forall x, exists v, f x = Done v) ->
  exists l', for_each f l = Done l' /\ Forall2 (fun x v => f x = Done v) l l'.
Proof.
  intros H. induction l as [| x l [l' [IH1 IH2]]].
  - exists []. split; [reflexivity | constructor].
  - destruct (H x) as [v Hv]. exists (v :: l'). split.
    + simpl. rewrite Hv. simpl. rewrite IH1. reflexivity.
    + constructor; assumption.
Qed.

Lemma Forall2_lengths (k : nat) (c : classifier) (pts : list (float64 * float64))
    (rows : list (list float64)) :
  (forall p a, answer c p = Done a -> length a = k) ->
  Forall2 (fun p a => answer c p = Done a) pts rows ->
  Forall (fun r => length r = k) rows.
Proof.
  intros Hk H. induction H as [| p a pts rows Hpa _ IH]; constructor; [| exact IH].
  apply (Hk p a Hpa).
Qed.

(** A call on data with at least one row, in terms of the answers of the
    classifier. *)
Lemma plot_with_rows (c : classifier) (X : list (float64 * float64)) (N : nat) :
  X <> [] ->
  exists pts xx yy,
    length pts = (N * N)%nat /\
    plot_decision_boundary c X N =
    (rows <~ for_each (answer c) pts ;; zz <~ np_array rows ;;
     Z <~ np_reshape zz (N, N) ;; Done (xx, yy, Z)).
Proof.
  intros HX.
  destruct (np_min_Done (map fst X) (map_not_nil fst X HX)) as [lo0 H0].
  destruct (np_max_Done (map fst X) (map_not_nil fst X HX)) as [hi0 H1].
  destruct (np_min_Done (map snd X) (map_not_nil snd X HX)) as [lo1 H2].
  destruct (np_max_Done (map snd X) (map_not_nil snd X HX)) as [hi1 H3].
  pose proof (plot_eq c X N lo0 hi0 lo1 hi1 H0 H1 H2 H3) as Heq. cbv zeta in Heq.
  eexists. eexists. eexists. split; [| exact Heq].
  rewrite length_mesh_points, !length_linspace. reflexivity.
Qed.

Lemma plot_raises (c : classifier) (X : list (float64 * float64)) (N : nat) (e : error) :
  X <> [] -> (1 <= N)%nat -> (forall p, answer c p = Raised e) ->
  plot_decision_boundary c X N = Raised e.
Proof.
  intros HX HN He. destruct (plot_with_rows c X N HX) as [pts [xx [yy [Hpts ->]]]].
  rewrite (for_each_raises _ e); [reflexivity | | exact He].
  intros E. rewrite E in Hpts. simpl in Hpts. nia.
Qed.

(** X12.  The computation of the grid raises [ValueError] when [X] has no
    row.  With at least one row it completes when the classifier answers
    every point with a single score.  With at least one row and one grid
    point it raises [IndexError] for a classifier that is reached through
    [predict_proba] and reports fewer than two classes, [TypeError] for an
    object without the two methods that cannot be called, [ValueError] (in
    [reshape]) for a classifier that answers every point with the same
    number of scores other than one, and the exception of the classifier
    when its method raises. *)
Theorem grid_is_computed_unless_data_is_empty :
  forall (c : classifier) (X : list (float64 * float64)) (N : nat),
    (X = [] -> plot_decision_boundary c X N = Raised ValueError) /\
    (X <> [] -> (forall p, exists v, answer c p = Done [v]) ->
     exists xx yy Z, plot_decision_boundary c X N = Done (xx, yy, Z)) /\
    (X <> [] -> (1 <= N)%nat -> decision_function c = None ->
     forall f, predict_proba c = Some f ->
     (forall p, exists row, f p = Done row /\ (length row < 2)%nat) ->
     plot_decision_boundary c X N = Raised IndexError) /\
    (X <> [] -> (1 <= N)%nat ->
     decision_function c = None -> predict_proba c = None -> call c = None ->
     plot_decision_boundary c X N = Raised TypeError) /\
    (X <> [] -> (1 <= N)%nat ->
     forall k, (forall p, exists a, answer c p = Done a /\ length a = k) -> k <> 1%nat ->
     plot_decision_boundary c X N = Raised ValueError) /\
    (X <> [] -> (1 <= N)%nat ->
     forall e, (forall p, answer c p = Raised e) ->
     plot_decision_boundary c X N = Raised e).
Proof.
  intros c X N. split; [intros ->; reflexivity |].
  split.
  { intros HX Hc. destruct (plot_with_rows c X N HX) as [pts [xx [yy [Hpts ->]]]].
    destruct (for_each_Done (answer c) pts) as [rows [Hrows Hall]].
    { intros p. destruct (Hc p) as [v Hv]. exists [v]. exact Hv. }
    rewrite Hrows. cbn [and_then].
    assert (Hone : Forall (fun r => length r = 1%nat) rows).
    { apply (Forall2_lengths 1 c pts rows); [| exact Hall].
      intros p a Ha. destruct (Hc p) as [v Hv]. rewrite Hv in Ha.
      apply Done_inj in Ha. subst a. reflexivity. }
    rewrite (np_array_uniform 1 rows Hone). cbn [and_then].
    unfold np_reshape. cbn [fst snd].
    rewrite (length_concat_rows rows 1 Hone), <- (Forall2_same_length _ _ _ Hall), Hpts.
    rewrite Nat.mul_1_r, Nat.eqb_refl. cbn [and_then].
    eexists. eexists. eexists. reflexivity. }
  split.
  { intros HX HN Hd f Hf Hrows. apply plot_raises; [exact HX | exact HN |].
    intros p. unfold answer. rewrite Hd, Hf.
    destruct (Hrows p) as [row [-> Hlen]]. cbn [and_then]. unfold second_column.
    destruct (nth_error row 1) eqn:E; [| reflexivity].
    apply nth_error_lt in E. lia. }
  split.
  { intros HX HN Hd Hp Hc. apply plot_raises; [exact HX | exact HN |].
    intros p. unfold answer. rewrite Hd, Hp, Hc. reflexivity. }
  split.
  { intros HX HN k Hk Hk1.
    destruct (plot_with_rows c X N HX) as [pts [xx [yy [Hpts ->]]]].
    destruct (for_each_Done (answer c) pts) as [rows [Hrows Hall]].
    { intros p. destruct (Hk p) as [a [Ha _]]. exists a. exact Ha. }
    rewrite Hrows. cbn [and_then].
    assert (Huni : Forall (fun r => length r = k) rows).
    { apply (Forall2_lengths k c pts rows); [| exact Hall].
      intros p a Ha. destruct (Hk p) as [a' [Ha' Hlen]]. rewrite Ha' in Ha.
      apply Done_inj in Ha. subst a'. exact Hlen. }
    rewrite (np_array_uniform k rows Huni). cbn [and_then].
    unfold np_reshape. cbn [fst snd].
    rewrite (length_concat_rows rows k Huni), <- (Forall2_same_length _ _ _ Hall), Hpts.
    assert (Hne : (N * N * k =? N * N)%nat = false) by (apply Nat.eqb_neq; nia).
    rewrite Hne. reflexivity. }
  intros HX HN e He. apply plot_raises; assumption.
Qed.

(** ** A concrete call *)

Module PlotRun.

Import PlotExample.

Lemma min_0 : np_min (map fst (points two_points)) = Done (Fin 0).
Proof.
  rewrite points_fst. cbn [two_points map fst np_min fold_left]. rewrite fmin_Fin.
  rewrite Rmin_left by lra. reflexivity.
Qed.

Lemma max_0 : np_max (map fst (points two_points)) = Done (Fin 1).
Proof.
  rewrite points_fst. cbn [two_points map fst np_max fold_left]. rewrite fmax_Fin.
  rewrite Rmax_right by lra. reflexivity.
Qed.

Lemma min_1 : np_min (map snd (points two_points)) = Done (Fin 0).
Proof.
  rewrite points_snd. cbn [two_points map snd np_min fold_left]. rewrite fmin_Fin.
  rewrite Rmin_right by lra. reflexivity.
Qed.

Lemma max_1 : np_max (map snd (points two_points)) = Done (Fin 1).
Proof.
  rewrite points_snd. cbn [two_points map snd np_max fold_left]. rewrite fmax_Fin.
  rewrite Rmax_left by lra. reflexivity.
Qed.

Lemma axis : np_linspace (fsub (Fin 0) (Fin (1 / 10))) (fadd (Fin 1) (Fin (1 / 10))) 2
             = [Fin lo; Fin hi].
Proof.
  change (fsub (Fin 0) (Fin (1 / 10))) with (Fin (0 + - (1 / 10))).
  rewrite fadd_Fin, linspace_Fin by lia. cbn [seq map Nat.sub].
  unfold lo, hi. f_equal; [| f_equal]; f_equal; simpl; field.
Qed.

Lemma call_2 :
  plot_decision_boundary boost (points two_points) 2 = Done (grid_x, grid_y, grid_z).
Proof.
  rewrite (plot_eq boost (points two_points) 2 _ _ _ _ min_0 max_0 min_1 max_1). cbv zeta.
  rewrite axis. unfold answer, np_array, np_reshape, np_meshgrid.
  cbn [boost decision_function map concat app fst snd length Nat.eqb Nat.mul Nat.add
       for_each and_then forallb andb rows_of firstn skipn].
  unfold grid_x, grid_y, grid_z, lo, hi.
  change (fsub (Fin ?a) (Fin ?b)) with (Fin (a + - b)).
  replace (- (1 / 10) + - - (1 / 10)) with 0 by lra.
  replace (11 / 10 + - - (1 / 10)) with (12 / 10) by lra.
  replace (- (1 / 10) + - (11 / 10)) with (- (12 / 10)) by lra.
  replace (11 / 10 + - (11 / 10)) with 0 by lra.
  reflexivity.
Qed.

End PlotRun.

Lemma grid_values_belong_to_grid_points_witness :
  exists xs ys,
    length xs = 2%nat /\ length ys = 2%nat /\
    length PlotExample.grid_x = 2%nat /\ length PlotExample.grid_y = 2%nat /\
    length PlotExample.grid_z = 2%nat /\
    Forall (fun row => length row = 2%nat) PlotExample.grid_z /\
    forall i j x v, nth_error ys i = Some v -> nth_error xs j = Some x ->
      entry PlotExample.grid_x i j = Some x /\ entry PlotExample.grid_y i j = Some v /\
      exists z, entry PlotExample.grid_z i j = Some z /\ score PlotExample.boost (x, v) = Done z.
Proof.
  exact (grid_values_belong_to_grid_points PlotExample.boost (points PlotExample.two_points) 2
           PlotExample.grid_x PlotExample.grid_y PlotExample.grid_z PlotRun.call_2).
Defined.

Lemma grid_spans_the_data_with_margin_witness :
  exists x_min x_max y_min y_max : R,
    (forall p, In p PlotExample.two_points ->
       x_min + 1 / 10 <= fst p <= x_max - 1 / 10 /\
       y_min + 1 / 10 <= snd p <= y_max - 1 / 10) /\
    (exists p, In p PlotExample.two_points /\ fst p = x_min + 1 / 10) /\
    (exists p, In p PlotExample.two_points /\ fst p = x_max - 1 / 10) /\
    (exists p, In p PlotExample.two_points /\ snd p = y_min + 1 / 10) /\
    (exists p, In p PlotExample.two_points /\ snd p = y_max - 1 / 10) /\
    forall i j, (i < 2)%nat -> (j < 2)%nat ->
      entry PlotExample.grid_x i j =
        Some (Fin (x_min + INR j * (x_max - x_min) / INR (2 - 1))) /\
      entry PlotExample.grid_y i j =
        Some (Fin (y_min + INR i * (y_max - y_min) / INR (2 - 1))).
Proof.
  apply (grid_spans_the_data_with_margin PlotExample.boost PlotExample.two_points 2
           PlotExample.grid_x PlotExample.grid_y PlotExample.grid_z).
  - lia.
  - exact PlotRun.call_2.
Defined.

Lemma grid_is_computed_unless_data_is_empty_witness :
  plot_decision_boundary PlotExample.boost [] 2 = Raised ValueError /\
  (exists xx yy Z,
     plot_decision_boundary PlotExample.boost (points PlotExample.two_points) 2
     = Done (xx, yy, Z)) /\
  plot_decision_boundary PlotExample.one_class (points PlotExample.two_points) 2
  = Raised IndexError /\
  plot_decision_boundary PlotExample.not_callable (points PlotExample.two_points) 2
  = Raised TypeError /\
  plot_decision_boundary PlotExample.three_classes (points PlotExample.two_points) 2
  = Raised ValueError /\
  plot_decision_boundary PlotExample.fails (points PlotExample.two_points) 2
  = Raised Exception.
Proof.
  assert (HX : points PlotExample.two_points <> []) by discriminate.
  split; [| split; [| split; [| split; [| split]]]].
  - apply (proj1 (grid_is_computed_unless_data_is_empty PlotExample.boost [] 2)).
    reflexivity.
  - destruct (grid_is_computed_unless_data_is_empty PlotExample.boost
                (points PlotExample.two_points) 2) as [_ [H _]].
    apply (H HX). intros p. eexists. reflexivity.
  - destruct (grid_is_computed_unless_data_is_empty PlotExample.one_class
                (points PlotExample.two_points) 2) as [_ [_ [H _]]].
    apply (H HX ltac:(lia) eq_refl (fun _ => Done [Fin 1]) eq_refl).
    intros p. exists [Fin 1]. split; [reflexivity | simpl; lia].
  - destruct (grid_is_computed_unless_data_is_empty PlotExample.not_callable
                (points PlotExample.two_points) 2) as [_ [_ [_ [H _]]]].
    apply (H HX ltac:(lia)); reflexivity.
  - destruct (grid_is_computed_unless_data_is_empty PlotExample.three_classes
                (points PlotExample.two_points) 2) as [_ [_ [_ [_ [H _]]]]].
    apply (H HX ltac:(lia) 3%nat); [| lia].
    intros p. eexists. split; reflexivity.
  - destruct (grid_is_computed_unless_data_is_empty PlotExample.fails
                (points PlotExample.two_points) 2) as [_ [_ [_ [_ [_ H]]]]].
    apply (H HX ltac:(lia)). intros p. reflexivity.
Defined.
